(** * The Aide agent session provider: response-stream registry, inbound
      edit/control handlers, agent event dispatcher and session driver.

    Shallow embedding of
    [extensions/codestory/src/completions/providers/aideAgentProvider.ts].

    Conventions of the embedding.
    - A JavaScript string is a [string]; every [ascii] stands for one code
      unit, so [String.length] is the JavaScript [length].
    - A JavaScript [Map] whose iteration order is observable (the response
      stream collection, iterated by [getAllResponseStreams]) is an
      insertion-ordered association list ([JsMap]); maps and sets that are only
      probed by key ([lastThinkingText], [startedStreams], [editsMap]) are
      [gmap] and [gset].
    - An object with identity (a response stream) is a number; every call
      made on it is appended to a log, so aliasing is visible.
    - Calls into the editor host and the sidecar are oracles: Section
      variables indexed by a call counter kept in the state. *)

From Stdlib Require Import Ascii.
From stdpp Require Import gmap strings list fin_maps pretty.
From Equations Require Import Equations.

(** ** JavaScript strings *)

Module JsString.

Definition lowerChar (c : ascii) : ascii :=
  let n := nat_of_ascii c in
  if bool_decide (65 ≤ n ≤ 90) then ascii_of_nat (n + 32) else c.

(** [String.prototype.toLowerCase], on the ASCII range. *)
Fixpoint toLowerCase (s : string) : string :=
  match s with
  | EmptyString => EmptyString
  | String c s' => String (lowerChar c) (toLowerCase s')
  end.

(** [s.slice(n)] for [0 <= n]: the code units from position [n] on. *)
Fixpoint slice (n : nat) (s : string) : string :=
  match n, s with
  | 0, _ => s
  | S _, EmptyString => EmptyString
  | S n', String _ s' => slice n' s'
  end.

(** [s.startsWith(p)]. *)
Fixpoint startsWith (p s : string) : bool :=
  match p, s with
  | EmptyString, _ => true
  | String _ _, EmptyString => false
  | String a p', String b s' => bool_decide (a = b) && startsWith p' s'
  end.

(** [s.endsWith(suffix)]: the last [suffix.length] code units of [s]
    are [suffix]. *)
Definition endsWith (suffix s : string) : bool :=
  bool_decide (String.length suffix ≤ String.length s)
  && bool_decide (slice (String.length s - String.length suffix) s = suffix).

(** [s.includes(sub)]. *)
Fixpoint includes (sub s : string) : bool :=
  startsWith sub s ||
  match s with
  | EmptyString => false
  | String _ s' => includes sub s'
  end.

(** Truthiness of a string: the empty string is falsy. *)
Definition truthy (s : string) : bool := negb (bool_decide (s = "")).

(** Template-literal rendering of an integral number. *)
Definition ofNat (n : nat) : string := pretty n.
Definition ofZ (z : Z) : string := pretty z.

Lemma slice_length n s : String.length (slice n s) = String.length s - n.
Proof.
  revert s; induction n as [|n IH]; intros [|c s]; simpl; auto with lia.
Qed.

Lemma slice_app s t : slice (String.length s) (s +:+ t) = t.
Proof. induction s as [|c s IH]; simpl; auto. Qed.

Lemma slice_all n s : String.length s ≤ n → slice n s = "".
Proof.
  revert s; induction n as [|n IH]; intros [|c s]; simpl; auto with lia.
Qed.

Lemma length_app s t :
  String.length (s +:+ t) = String.length s + String.length t.
Proof. induction s as [|c s IH]; simpl; auto. Qed.

Lemma endsWith_app s suffix : endsWith suffix (s +:+ suffix) = true.
Proof.
  unfold endsWith. rewrite length_app.
  rewrite bool_decide_eq_true_2 by lia. simpl.
  apply bool_decide_eq_true_2.
  replace (String.length s + String.length suffix - String.length suffix)
    with (String.length s) by lia.
  apply slice_app.
Qed.

Lemma toLowerCase_app s t : toLowerCase (s +:+ t) = toLowerCase s +:+ toLowerCase t.
Proof.
  induction s as [|c s IH]; [done|].
  change (String (lowerChar c) (toLowerCase (s +:+ t))
          = String (lowerChar c) (toLowerCase s +:+ toLowerCase t)).
  by rewrite IH.
Qed.

Lemma slice_split n s : ∃ pre, s = pre +:+ slice n s.
Proof.
  revert s; induction n as [|n IH]; intros s.
  - exists "". by destruct s.
  - destruct s as [|c s]; [by exists ""|].
    destruct (IH s) as [pre Hpre]. exists (String c pre).
    change (String c s = String c (pre +:+ slice n s)). by rewrite <- Hpre.
Qed.

Lemma endsWith_inv suffix s : endsWith suffix s = true → ∃ pre, s = pre +:+ suffix.
Proof.
  unfold endsWith. intros [_ Hs%bool_decide_eq_true]%andb_prop.
  destruct (slice_split (String.length s - String.length suffix) s) as [pre Hpre].
  exists pre. by rewrite <- Hs.
Qed.

(** A suffix that lower-casing leaves alone is still a suffix after
    lower-casing. *)
Lemma endsWith_toLowerCase suffix s :
  toLowerCase suffix = suffix →
  endsWith suffix s = true → endsWith suffix (toLowerCase s) = true.
Proof.
  intros Hlow [pre ->]%endsWith_inv.
  rewrite toLowerCase_app, Hlow. apply endsWith_app.
Qed.

End JsString.

(** ** JavaScript [Map] with string keys, in insertion order *)

Module JsMap.
Section Ops.
Context {V : Type}.

Fixpoint get (k : string) (m : list (string * V)) : option V :=
  match m with
  | [] => None
  | (k', v) :: m' => if decide (k' = k) then Some v else get k m'
  end.

(** [set] keeps the position of a key that is already present. *)
Fixpoint set (k : string) (v : V) (m : list (string * V)) : list (string * V) :=
  match m with
  | [] => [(k, v)]
  | (k', v') :: m' =>
      if decide (k' = k) then (k, v) :: m' else (k', v') :: set k v m'
  end.

Definition has (k : string) (m : list (string * V)) : bool :=
  bool_decide (is_Some (get k m)).

Definition remove (k : string) (m : list (string * V)) : list (string * V) :=
  filter (λ kv, kv.1 ≠ k) m.

(** [delete] answers whether the key was present. *)
Definition delete (k : string) (m : list (string * V)) : bool * list (string * V) :=
  (has k m, remove k m).

Definition values (m : list (string * V)) : list V := m.*2.

Lemma get_set_eq k v m : get k (set k v m) = Some v.
Proof.
  induction m as [|[k' v'] m IH]; simpl.
  - by rewrite decide_True.
  - destruct (decide (k' = k)); simpl.
    + by rewrite decide_True.
    + by rewrite decide_False.
Qed.

Lemma get_set_ne k k' v m : k ≠ k' → get k' (set k v m) = get k' m.
Proof.
  intros Hne. induction m as [|[k0 v0] m IH]; simpl.
  - by rewrite decide_False.
  - destruct (decide (k0 = k)) as [->|]; simpl.
    + by rewrite !decide_False.
    + destruct (decide (k0 = k')); auto.
Qed.

Lemma get_remove_eq k m : get k (remove k m) = None.
Proof.
  unfold remove. induction m as [|[k' v'] m IH]; simpl; [done|].
  rewrite filter_cons. simpl. destruct (decide (k' ≠ k)); simpl; [|done].
  by rewrite decide_False.
Qed.

Lemma get_remove_ne k k' m : k ≠ k' → get k' (remove k m) = get k' m.
Proof.
  intros Hne. unfold remove. induction m as [|[k0 v0] m IH]; simpl; [done|].
  rewrite filter_cons. simpl. destruct (decide (k0 ≠ k)) as [|Heq]; simpl.
  - by rewrite IH.
  - apply dec_stable in Heq as ->. by rewrite decide_False.
Qed.

Lemma get_remove k k' m :
  get k' (remove k m) = if decide (k = k') then None else get k' m.
Proof.
  destruct (decide (k = k')) as [->|].
  - apply get_remove_eq.
  - by apply get_remove_ne.
Qed.

Lemma get_Some_elem k v m : get k m = Some v → (k, v) ∈ m.
Proof.
  induction m as [|[k' v'] m IH]; simpl; [done|].
  destruct (decide (k' = k)) as [->|]; intros H.
  - injection H as ->. left.
  - right. auto.
Qed.

Lemma get_Some_values k v m : get k m = Some v → v ∈ values m.
Proof.
  intros H%get_Some_elem. unfold values.
  apply list_elem_of_fmap. by exists (k, v).
Qed.

Lemma elem_get_is_Some k v m : (k, v) ∈ m → is_Some (get k m).
Proof.
  induction m as [|[k' v'] m IH]; simpl.
  - by intros ?%elem_of_nil.
  - intros [Heq|Hin]%elem_of_cons; destruct (decide (k' = k)); eauto.
    congruence.
Qed.

(** The keys stay pairwise distinct, as in a JavaScript [Map]. *)
Lemma set_keys_NoDup k v m : NoDup m.*1 → NoDup (set k v m).*1.
Proof.
  induction m as [|[k' v'] m IH]; simpl.
  - intros _. apply NoDup_singleton.
  - rewrite !NoDup_cons. intros [Hnin Hnd].
    destruct (decide (k' = k)) as [->|Hne]; simpl.
    + by rewrite NoDup_cons.
    + rewrite NoDup_cons. split; [|auto].
      intros ((k0 & v0) & Hk & Hin)%list_elem_of_fmap. simpl in Hk. subst k0.
      apply elem_get_is_Some in Hin. rewrite get_set_ne in Hin by done.
      destruct Hin as [v1 Hin%get_Some_elem].
      apply Hnin. apply list_elem_of_fmap. by exists (k', v1).
Qed.

Lemma remove_keys_NoDup k m : NoDup m.*1 → NoDup (remove k m).*1.
Proof.
  unfold remove. induction m as [|[k' v'] m IH]; simpl; [done|].
  rewrite NoDup_cons. intros [Hnin Hnd]. rewrite filter_cons. simpl.
  destruct (decide (k' ≠ k)); simpl; [|auto].
  rewrite NoDup_cons. split; [|auto].
  intros ((k0 & v0) & Hk & Hin)%list_elem_of_fmap. simpl in Hk. subst k0.
  apply list_elem_of_filter in Hin as [_ Hin].
  apply Hnin. apply list_elem_of_fmap. by exists (k', v0).
Qed.

Lemma set_length_present k v m :
  is_Some (get k m) → length (set k v m) = length m.
Proof.
  induction m as [|[k' v'] m IH]; simpl.
  - by intros [? ?].
  - destruct (decide (k' = k)); simpl; auto.
Qed.

End Ops.
End JsMap.

(** ** The response stream collection ([AideResponseStreamCollection]) *)

(** Stores the necessary identifiers required for identifying a response
    stream. *)
Record ResponseStreamIdentifier := {
  sessionId : string;
  exchangeId : string;
}.

Global Instance ResponseStreamIdentifier_eq_dec : EqDecision ResponseStreamIdentifier.
Proof. solve_decision. Defined.

(** [vscode.AideAgentEventSenderResponse]: the response stream object (by
    identity) and the exchange it was opened for. *)
Record AideAgentEventSenderResponse := {
  stream : nat;
  responseExchangeId : string;
}.

Global Instance AideAgentEventSenderResponse_eq_dec :
  EqDecision AideAgentEventSenderResponse.
Proof. solve_decision. Defined.

Record AideResponseStreamCollection := {
  responseStreamCollection : list (string * AideAgentEventSenderResponse);
  _latestResponseStream : option (string * AideAgentEventSenderResponse);
  (** cancellation listeners pushed on [extensionContext.subscriptions] *)
  subscriptions : list (ResponseStreamIdentifier * nat);
}.

Definition emptyCollection : AideResponseStreamCollection :=
  {| responseStreamCollection := [];
     _latestResponseStream := None;
     subscriptions := [] |}.

Definition latestResponseStream (c : AideResponseStreamCollection)
  : option AideAgentEventSenderResponse :=
  snd <$> _latestResponseStream c.

Definition getKey (responseStreamIdentifier : ResponseStreamIdentifier) : string :=
  sessionId responseStreamIdentifier +:+ "-" +:+ exchangeId responseStreamIdentifier.

Definition addResponseStream (responseStreamIdentifier : ResponseStreamIdentifier)
    (responseStream : AideAgentEventSenderResponse)
    (c : AideResponseStreamCollection) : AideResponseStreamCollection :=
  {| responseStreamCollection :=
       JsMap.set (getKey responseStreamIdentifier) responseStream
         (responseStreamCollection c);
     _latestResponseStream := _latestResponseStream c;
     subscriptions :=
       subscriptions c ++ [(responseStreamIdentifier, stream responseStream)] |}.

Definition getResponseStream (responseStreamIdentifier : ResponseStreamIdentifier)
    (c : AideResponseStreamCollection)
  : option AideAgentEventSenderResponse * AideResponseStreamCollection :=
  let key := getKey responseStreamIdentifier in
  match JsMap.get key (responseStreamCollection c) with
  | Some responseStream =>
      (Some responseStream,
       {| responseStreamCollection := responseStreamCollection c;
          _latestResponseStream := Some (key, responseStream);
          subscriptions := subscriptions c |})
  | None => (None, c)
  end.

Definition removeResponseStream (responseStreamIdentifer : ResponseStreamIdentifier)
    (c : AideResponseStreamCollection) : AideResponseStreamCollection :=
  let key := getKey responseStreamIdentifer in
  let '(success, coll) := JsMap.delete key (responseStreamCollection c) in
  {| responseStreamCollection := coll;
     _latestResponseStream :=
       match _latestResponseStream c with
       | Some (k, v) =>
           if success && bool_decide (k = key) then None else Some (k, v)
       | None => None
       end;
     subscriptions := subscriptions c |}.

Definition getAllResponseStreams (c : AideResponseStreamCollection)
  : list AideAgentEventSenderResponse :=
  JsMap.values (responseStreamCollection c).

(** The states the collection can be in: the field is private, so it only
    changes through the three methods. *)
Inductive reachable : AideResponseStreamCollection → Prop :=
| reachable_new : reachable emptyCollection
| reachable_add k h c : reachable c → reachable (addResponseStream k h c)
| reachable_get k c : reachable c → reachable (getResponseStream k c).2
| reachable_remove k c : reachable c → reachable (removeResponseStream k c).

(** The key kept in the latest reference is a key of the collection. *)
Definition latestRegistered (c : AideResponseStreamCollection) : Prop :=
  ∀ k v, _latestResponseStream c = Some (k, v) →
         is_Some (JsMap.get k (responseStreamCollection c)).

Section RegistryFacts.
Implicit Types (k : ResponseStreamIdentifier) (h : AideAgentEventSenderResponse)
  (c : AideResponseStreamCollection).

Lemma getResponseStream_collection k c :
  responseStreamCollection (getResponseStream k c).2 = responseStreamCollection c.
Proof. unfold getResponseStream. by destruct (JsMap.get _ _). Qed.

Lemma getResponseStream_fst k c :
  (getResponseStream k c).1 = JsMap.get (getKey k) (responseStreamCollection c).
Proof. unfold getResponseStream. by destruct (JsMap.get _ _). Qed.

Lemma removeResponseStream_collection k c :
  responseStreamCollection (removeResponseStream k c)
  = JsMap.remove (getKey k) (responseStreamCollection c).
Proof. done. Qed.

Lemma is_Some_get_set key key' h m :
  is_Some (JsMap.get key m) → is_Some (JsMap.get key (JsMap.set key' h m)).
Proof.
  destruct (decide (key' = key)) as [->|Hne].
  - rewrite JsMap.get_set_eq. eauto.
  - by rewrite JsMap.get_set_ne.
Qed.

Lemma reachable_latestRegistered c : reachable c → latestRegistered c.
Proof.
  induction 1 as [|k h c _ IH|k c _ IH|k c _ IH]; intros kl v; simpl.
  - done.
  - intros Hl. apply is_Some_get_set. eauto.
  - unfold getResponseStream.
    destruct (JsMap.get (getKey k) (responseStreamCollection c)) eqn:Hget;
      simpl; [|by eauto].
    intros [= <- <-]. rewrite Hget. eauto.
  - destruct (_latestResponseStream c) as [[k0 v0]|] eqn:Hl; [|done].
    pose proof (IH _ _ Hl) as Hreg.
    destruct (decide (k0 = getKey k)) as [->|Hne].
    + unfold JsMap.has. rewrite !bool_decide_eq_true_2 by done. done.
    + rewrite (bool_decide_eq_false_2 _ Hne), andb_false_r.
      intros [= <- <-]. by rewrite JsMap.get_remove_ne.
Qed.

Lemma reachable_keys_NoDup c : reachable c → NoDup (responseStreamCollection c).*1.
Proof.
  induction 1 as [|k h c _ IH|k c _ IH|k c _ IH]; simpl.
  - apply NoDup_nil_2.
  - by apply JsMap.set_keys_NoDup.
  - by rewrite getResponseStream_collection.
  - by apply JsMap.remove_keys_NoDup.
Qed.

End RegistryFacts.

(** ** Calls on a response stream, and the other observable effects *)

Record Position := { line : nat; character : nat }.
Record Range := { rangeStart : Position; rangeEnd : Position }.

Record WorkspaceEditEntryMetadata := {
  label : string;
  needsConfirmation : bool;
}.

(** The one kind of entry this file puts in a [vscode.WorkspaceEdit]. *)
Inductive WorkspaceEditEntry :=
| deleteEntry (uri : string) (range : Range) (metadata : WorkspaceEditEntryMetadata).

Definition WorkspaceEdit := list WorkspaceEditEntry.

Inductive StreamCall :=
| stage (message : string)
| markdown (value : string)
| reference (fsPath : string)
| toolTypeError (message : string)
| step (index : nat) (description : string)
| codeEdit (edit : WorkspaceEdit)
| markLastMessageAsComplete
| close.

Record SidecarApplyEditsRequest := {
  apply_fs_file_path : string;
  apply_edited_content : string;
  apply_selected_range : Range;
  apply_directly : bool;
}.

Record EditResponse := {
  fs_file_path : string;
  success : bool;
}.

Inductive Effect :=
| onStream (s : nat) (call : StreamCall)
| applyEditsDirectly (request : SidecarApplyEditsRequest)
| applyEdits (request : SidecarApplyEditsRequest) (openStream : nat)
| processLine (uniqueEditId : string) (uri : string) (currentLine : string)
| cleanup (uniqueEditId : string) (uri : string)
| workspaceSave (uri : string)
| onDidCreateFiles (uri : string)
| showErrorMessage (message : string)
| listen (port : Z)
| errorCallbackCalled
| getSessionCalled (hardCheck : bool)
| streamResponseEntered (workosAccessToken : string) (hasRetried : bool)
| sidecarCalled (endpoint : string) (workosAccessToken : string).

(** What a call can throw. *)
Inductive Exn :=
| SidecarConnectionFailedError
| TypeError (message : string)
| Error (message : string).

Definition exnMessage (e : Exn) : string :=
  match e with
  | SidecarConnectionFailedError =>
      "Connection error with sidecar. We'd appreciate it if you could report this session using the feedback tool above - this is on us"
  | TypeError m => m
  | Error m => m
  end.

Inductive Completion (A : Type) :=
| Returned (a : A)
| Thrown (e : Exn).
Arguments Returned {A} a.
Arguments Thrown {A} e.

(** ** The edit stream: line accumulator and line processor *)

Definition newline : ascii := "010"%char.
Definition carriageReturn : ascii := "013"%char.

(** [text.split(/\r\n|\r|\n/g)]; [cur] is the line being read. *)
Fixpoint splitLines (cur : string) (text : string) : list string :=
  match text with
  | EmptyString => [cur]
  | String c rest =>
      if decide (c = carriageReturn) then
        match rest with
        | String c' rest' =>
            if decide (c' = newline) then cur :: splitLines "" rest'
            else cur :: splitLines "" rest
        | EmptyString => cur :: splitLines "" rest
        end
      else if decide (c = newline) then cur :: splitLines "" rest
      else splitLines (cur +:+ String c "") rest
  end.

(** Modelled from the spec: [AnswerSplitOnNewLineAccumulatorStreaming] of
    [chatState/convertStreamToMessage], which is not among the sources. The
    accumulator appends each fragment to its buffer; a line is complete once
    its terminator is seen, and [getLine] hands out the completed lines one
    at a time, [None] standing for [null]. *)
Record AnswerSplitOnNewLineAccumulatorStreaming := {
  accumulator : string;
  completedLines : list string;
}.

Definition newAnswerSplitter : AnswerSplitOnNewLineAccumulatorStreaming :=
  {| accumulator := ""; completedLines := [] |}.

(** Cuts [text] at every terminator: the completed lines and the rest. *)
Fixpoint takeCompleteLines (cur : string) (text : string) : list string * string :=
  match text with
  | EmptyString => ([], cur)
  | String c rest =>
      if decide (c = newline) then
        let '(ls, r) := takeCompleteLines "" rest in (cur :: ls, r)
      else takeCompleteLines (cur +:+ String c "") rest
  end.

Definition addDelta (delta : string) (a : AnswerSplitOnNewLineAccumulatorStreaming)
  : AnswerSplitOnNewLineAccumulatorStreaming :=
  let '(ls, r) := takeCompleteLines "" (accumulator a +:+ delta) in
  {| accumulator := r; completedLines := completedLines a ++ ls |}.

Definition getLine (a : AnswerSplitOnNewLineAccumulatorStreaming)
  : option (string * AnswerSplitOnNewLineAccumulatorStreaming) :=
  match completedLines a with
  | [] => None
  | l :: ls => Some (l, {| accumulator := accumulator a; completedLines := ls |})
  end.

(** The arguments a [StreamProcessor] is built from; its [processLine] and
    [cleanup] (also outside the sources) are recorded as effects. *)
Record StreamProcessor := {
  sp_stream : option nat;
  sp_documentLines : list string;
  sp_uri : string;
  sp_range : Range;
  sp_applyDirectly : bool;
  sp_uniqueEditId : string;
}.

Record EditsManager := {
  answerSplitter : AnswerSplitOnNewLineAccumulatorStreaming;
  streamProcessor : StreamProcessor;
}.

Inductive EditStreamEvent :=
| Start
| End_
| Delta (fragment : string).

Record EditedCodeStreamingRequest := {
  edit_request_id : string;
  esr_session_id : string;
  esr_exchange_id : string;
  plan_step_id : option string;
  esr_fs_file_path : string;
  esr_range : Range;
  esr_apply_directly : bool;
  esr_event : EditStreamEvent;
}.

Record SidecarUndoPlanStep := {
  undo_exchange_id : string;
  undo_session_id : string;
  undo_index : option nat;
}.

(** ** The provider ([AideAgentSessionProvider]) *)

Record AideAgentSessionProvider := {
  lastThinkingText : gmap string string;
  editorUrl : option string;
  editsMap : gmap string EditsManager;
  openResponseStream : option nat;
  responseStreams : AideResponseStreamCollection;
  editCounter : nat;
  startedStreams : gset string;
  (** the editor host: its documents, the calls made so far, the effects *)
  documents : gmap string string;
  hostCalls : nat;
  effects : list Effect;
}.

Definition newProvider (docs : gmap string string) : AideAgentSessionProvider :=
  {| lastThinkingText := ∅; editorUrl := None; editsMap := ∅;
     openResponseStream := None; responseStreams := emptyCollection;
     editCounter := 0; startedStreams := ∅;
     documents := docs; hostCalls := 0; effects := [] |}.

Definition setLastThinkingText (m : gmap string string) (p : AideAgentSessionProvider) :=
  {| lastThinkingText := m; editorUrl := editorUrl p; editsMap := editsMap p;
     openResponseStream := openResponseStream p; responseStreams := responseStreams p;
     editCounter := editCounter p; startedStreams := startedStreams p;
     documents := documents p; hostCalls := hostCalls p; effects := effects p |}.

Definition setEditorUrl (u : option string) (p : AideAgentSessionProvider) :=
  {| lastThinkingText := lastThinkingText p; editorUrl := u; editsMap := editsMap p;
     openResponseStream := openResponseStream p; responseStreams := responseStreams p;
     editCounter := editCounter p; startedStreams := startedStreams p;
     documents := documents p; hostCalls := hostCalls p; effects := effects p |}.

Definition setEditsMap (m : gmap string EditsManager) (p : AideAgentSessionProvider) :=
  {| lastThinkingText := lastThinkingText p; editorUrl := editorUrl p; editsMap := m;
     openResponseStream := openResponseStream p; responseStreams := responseStreams p;
     editCounter := editCounter p; startedStreams := startedStreams p;
     documents := documents p; hostCalls := hostCalls p; effects := effects p |}.

Definition setResponseStreams (c : AideResponseStreamCollection) (p : AideAgentSessionProvider) :=
  {| lastThinkingText := lastThinkingText p; editorUrl := editorUrl p; editsMap := editsMap p;
     openResponseStream := openResponseStream p; responseStreams := c;
     editCounter := editCounter p; startedStreams := startedStreams p;
     documents := documents p; hostCalls := hostCalls p; effects := effects p |}.

Definition setEditCounter (n : nat) (p : AideAgentSessionProvider) :=
  {| lastThinkingText := lastThinkingText p; editorUrl := editorUrl p; editsMap := editsMap p;
     openResponseStream := openResponseStream p; responseStreams := responseStreams p;
     editCounter := n; startedStreams := startedStreams p;
     documents := documents p; hostCalls := hostCalls p; effects := effects p |}.

Definition setStartedStreams (s : gset string) (p : AideAgentSessionProvider) :=
  {| lastThinkingText := lastThinkingText p; editorUrl := editorUrl p; editsMap := editsMap p;
     openResponseStream := openResponseStream p; responseStreams := responseStreams p;
     editCounter := editCounter p; startedStreams := s;
     documents := documents p; hostCalls := hostCalls p; effects := effects p |}.

Definition setDocuments (d : gmap string string) (p : AideAgentSessionProvider) :=
  {| lastThinkingText := lastThinkingText p; editorUrl := editorUrl p; editsMap := editsMap p;
     openResponseStream := openResponseStream p; responseStreams := responseStreams p;
     editCounter := editCounter p; startedStreams := startedStreams p;
     documents := d; hostCalls := hostCalls p; effects := effects p |}.

Definition tickHost (p : AideAgentSessionProvider) :=
  {| lastThinkingText := lastThinkingText p; editorUrl := editorUrl p; editsMap := editsMap p;
     openResponseStream := openResponseStream p; responseStreams := responseStreams p;
     editCounter := editCounter p; startedStreams := startedStreams p;
     documents := documents p; hostCalls := S (hostCalls p); effects := effects p |}.

Definition emit (e : Effect) (p : AideAgentSessionProvider) :=
  {| lastThinkingText := lastThinkingText p; editorUrl := editorUrl p; editsMap := editsMap p;
     openResponseStream := openResponseStream p; responseStreams := responseStreams p;
     editCounter := editCounter p; startedStreams := startedStreams p;
     documents := documents p; hostCalls := hostCalls p; effects := effects p ++ [e] |}.

(** [responseStream?.stream.<call>(...)] *)
Definition emitOn (responseStream : option AideAgentEventSenderResponse)
    (call : StreamCall) (p : AideAgentSessionProvider) : AideAgentSessionProvider :=
  match responseStream with
  | Some r => emit (onStream (stream r) call) p
  | None => p
  end.

(** [this.responseStreamCollection.getResponseStream(...)], on the provider *)
Definition lookupStream (sessionId exchangeId : string) (p : AideAgentSessionProvider)
  : option AideAgentEventSenderResponse * AideAgentSessionProvider :=
  let '(r, c) := getResponseStream
                   {| sessionId := sessionId; exchangeId := exchangeId |}
                   (responseStreams p) in
  (r, setResponseStreams c p).

Section Provider.

(** The editor host and the sidecar, as oracles. The first argument of each
    is the number of host calls made before it. *)
Variable initResponse : nat → string → option AideAgentEventSenderResponse.
Variable createFileIfNotExists : nat → string → bool.
Variable applyEditsResponse : SidecarApplyEditsRequest → nat → EditResponse.
Variable isPortOpen : Z → bool.

(** *** Port selection *)

(** [while (startFrom < 65535 || !!openPort)]: [openPort] is still [null]
    whenever the condition is evaluated, since the loop is left as soon as it
    is assigned. *)
Equations? getNextOpenPort (startFrom : Z) : option Z
  by wf (Z.to_nat (65535 - startFrom)) lt :=
getNextOpenPort startFrom with decide (startFrom < 65535)%Z => {
  | left _ with isPortOpen startFrom => {
    | true => Some startFrom
    | false => getNextOpenPort (startFrom + 1) }
  | right _ => None }.
Proof. lia. Qed.

Definition defaultPort : Z := 42427.

(** The continuation of [this.getNextOpenPort().then(...)] in the
    constructor. *)
Definition startRequestHandler (p : AideAgentSessionProvider)
  : Completion unit * AideAgentSessionProvider :=
  match getNextOpenPort defaultPort with
  | None => (Thrown (Error "Could not find an open port"), p)
  | Some port =>
      (Returned (),
       setEditorUrl (Some ("http://localhost:" +:+ JsString.ofZ port))
         (emit (listen port) p))
  end.

(** *** Inbound handlers *)

Definition undoLabel (exchangeId : string) (planStep : option nat) : string :=
  match planStep with
  | None => exchangeId
  | Some i => exchangeId +:+ "::" +:+ JsString.ofNat i
  end.

Definition undoEdit (lbl : string) : WorkspaceEdit :=
  [deleteEntry "/undoCheck"
     {| rangeStart := {| line := 0; character := 0 |};
        rangeEnd := {| line := 0; character := 0 |} |}
     {| label := lbl; needsConfirmation := false |}].

Definition undoToCheckpoint (request : SidecarUndoPlanStep) (p : AideAgentSessionProvider)
  : bool * AideAgentSessionProvider :=
  let exchangeId := undo_exchange_id request in
  let sessionId := undo_session_id request in
  let planStep := undo_index request in
  let '(responseStream, p) := lookupStream sessionId exchangeId p in
  match responseStream with
  | None => (false, p)
  | Some r =>
      (true, emit (onStream (stream r) (codeEdit (undoEdit (undoLabel exchangeId planStep)))) p)
  end.

Definition newExchangeIdForSession (sessionId : string) (p : AideAgentSessionProvider)
  : option string * AideAgentSessionProvider :=
  let response := initResponse (hostCalls p) sessionId in
  let p := tickHost p in
  match response with
  | Some r =>
      (Some (responseExchangeId r),
       setResponseStreams
         (addResponseStream
            {| sessionId := sessionId; exchangeId := responseExchangeId r |} r
            (responseStreams p)) p)
  | None => (None, p)
  end.

(** [while (true) { const currentLine = getLine(); if (currentLine === null)
    break; await processLine(currentLine); }] *)
Fixpoint drainLoop (fuel : nat) (m : EditsManager) (p : AideAgentSessionProvider)
  : EditsManager * AideAgentSessionProvider :=
  match fuel with
  | 0 => (m, p)
  | S fuel' =>
      match getLine (answerSplitter m) with
      | None => (m, p)
      | Some (currentLine, a) =>
          let sp := streamProcessor m in
          drainLoop fuel'
            {| answerSplitter := a; streamProcessor := sp |}
            (emit (processLine (sp_uniqueEditId sp) (sp_uri sp) currentLine) p)
      end
  end.

Definition drain (m : EditsManager) (p : AideAgentSessionProvider)
  : EditsManager * AideAgentSessionProvider :=
  drainLoop (S (length (completedLines (answerSplitter m)))) m p.

Definition uniqueEditIdOf (request : EditedCodeStreamingRequest) : string :=
  match plan_step_id request with
  | Some step_id =>
      if JsString.truthy step_id then esr_exchange_id request +:+ "::" +:+ step_id
      else esr_exchange_id request
  | None => esr_exchange_id request
  end.

Definition editFailed : EditResponse := {| fs_file_path := ""; success := false |}.
Definition editDone : EditResponse := {| fs_file_path := ""; success := true |}.

Definition undefinedAnswerSplitter : Exn :=
  TypeError "Cannot read properties of undefined (reading 'answerSplitter')".

(** [vscode.workspace.openTextDocument], then on failure
    [createFileIfNotExists] and a second attempt; a file that had to be
    created is empty. *)
Definition openOrCreateDocument (fileDocument : string) (p : AideAgentSessionProvider)
  : option string * AideAgentSessionProvider :=
  match documents p !! fileDocument with
  | Some text => (Some text, p)
  | None =>
      let created := createFileIfNotExists (hostCalls p) fileDocument in
      let p := tickHost p in
      if created then
        (Some "", setDocuments (<[fileDocument := ""]> (documents p))
                    (emit (onDidCreateFiles fileDocument) p))
      else
        (None,
         emit (showErrorMessage
                 ("File creation at " +:+ fileDocument +:+ " failed, please tell the devs!")) p)
  end.

Definition provideEditStreamed (request : EditedCodeStreamingRequest)
    (p : AideAgentSessionProvider)
  : Completion EditResponse * AideAgentSessionProvider :=
  let '(responseStream, p) :=
    lookupStream (esr_session_id request) (esr_exchange_id request) p in
  let uniqueEditId := uniqueEditIdOf request in
  if negb (esr_apply_directly request)
     && negb (bool_decide (is_Some (openResponseStream p)))
     && negb (bool_decide (is_Some responseStream))
  then (Returned editFailed, p)
  else
    let fileDocument := esr_fs_file_path request in
    match esr_event request with
    | Start =>
        let '(document, p) := openOrCreateDocument fileDocument p in
        match document with
        | None => (Returned editFailed, p)
        | Some text =>
            let documentLines := splitLines "" text in
            let manager :=
              {| answerSplitter := newAnswerSplitter;
                 streamProcessor :=
                   {| sp_stream := stream <$> responseStream;
                      sp_documentLines := documentLines;
                      sp_uri := fileDocument;
                      sp_range := esr_range request;
                      sp_applyDirectly := esr_apply_directly request;
                      sp_uniqueEditId := uniqueEditId |} |} in
            (Returned editDone,
             setEditsMap (<[edit_request_id request := manager]> (editsMap p)) p)
        end
    | End_ =>
        match editsMap p !! edit_request_id request with
        | None => (Thrown undefinedAnswerSplitter, p)
        | Some editsManager =>
            let '(editsManager, p) := drain editsManager p in
            let sp := streamProcessor editsManager in
            let p := emit (cleanup (sp_uniqueEditId sp) (sp_uri sp)) p in
            let p := emit (workspaceSave fileDocument) p in
            let p := setEditsMap (delete (edit_request_id request) (editsMap p)) p in
            let p := setEditCounter (editCounter p + 1) p in
            (Returned editDone, p)
        end
    | Delta fragment =>
        if JsString.truthy fragment then
          match editsMap p !! edit_request_id request with
          | Some editsManager =>
              let editsManager :=
                {| answerSplitter := addDelta fragment (answerSplitter editsManager);
                   streamProcessor := streamProcessor editsManager |} in
              let '(editsManager, p) := drain editsManager p in
              (Returned editDone,
               setEditsMap (<[edit_request_id request := editsManager]> (editsMap p)) p)
          | None => (Returned editDone, p)
          end
        else (Returned editDone, p)
    end.

Definition provideEdit (request : SidecarApplyEditsRequest) (p : AideAgentSessionProvider)
  : EditResponse * AideAgentSessionProvider :=
  if apply_directly request then
    ({| fs_file_path := apply_fs_file_path request; success := true |},
     emit (applyEditsDirectly request) p)
  else
    match openResponseStream p with
    | None => ({| fs_file_path := apply_fs_file_path request; success := true |}, p)
    | Some s => (applyEditsResponse request s, emit (applyEdits request s) p)
    end.

(** *** Events of the sidecar ([SideCarAgentEvent]) *)

(** The declarations of [server/types] are not among the sources: the
    variants below are the ones the dispatcher tests for, each with the
    fields it reads, and one more variant for the rest of each union. *)

Inductive ToolInputPartial :=
| AttemptCompletion
| OpenFileTool (tool_fs_file_path : string)
| AskFollowupQuestions
| OtherTool (toolUseKey : string).

Inductive FrameworkEvent :=
| OpenFile (open_fs_file_path : string)
| ToolThinking (thinking : string)
| ToolParameterFound (field_name field_content_delta : string)
| ToolUseDetected (tool_use_partial_input : option ToolInputPartial)
| ToolCallError (error_string : string)
| OtherFrameworkEvent.

Record SymbolIdentifier := {
  symbol_name : string;
  symbol_fs_file_path : option string;
}.

Inductive SymbolEditEvent :=
| CodeCorrectionTool
| ThinkingForEdit (delta : option string)
| RangeSelectionForEdit
| OtherEditEvent.

Inductive SymbolEventSubStepKind :=
| GoToDefinition
| EditSubStep (editEvent : SymbolEditEvent)
| ProbeSubStep
| OtherSubStep.

Inductive PlanEvent :=
| PlanStepTitleAdded (index : nat) (title : string)
| PlanStepDescriptionUpdate (index : nat) (delta : string)
| OtherPlanEvent.

Inductive ExchangeEvent :=
| PlansExchangeState (edits_state : string)
| EditsExchangeState (edits_state : string)
| ExecutionState (executionState : string)
| FinishedExchange
| OtherExchangeEvent.

(** The envelope carries exactly one of these. *)
Inductive UIEvent :=
| ErrorEvent (message : string)
| FrameworkEv (e : FrameworkEvent)
| SymbolEvent
| SymbolEventSubStep (symbol_identifier : SymbolIdentifier) (e : SymbolEventSubStepKind)
| RequestEvent
| EditRequestFinished
| ChatEvent (delta : option string)
| PlanEv (e : PlanEvent)
| ExchangeEv (e : ExchangeEvent).

Inductive SideCarAgentEvent :=
| keep_alive
| sessionStart (started : bool)
| doneEvent
| uiEvent (request_id exchange_id : string) (event : UIEvent).

(** The asynchronous iterator: the events it yields and, when it fails
    instead of ending, what it throws. *)
Record AgentEventStream := {
  streamEvents : list SideCarAgentEvent;
  streamFailure : option Exn;
}.

(** *** Teardown helpers *)

Definition streamKey (sessionId exchangeId : string) : string :=
  sessionId +:+ "-" +:+ exchangeId.

Definition markLastMessageAsCompleteFor (sessionId exchangeId : string)
    (p : AideAgentSessionProvider) : AideAgentSessionProvider :=
  let '(responseStream, p) := lookupStream sessionId exchangeId p in
  let p := emitOn responseStream markLastMessageAsComplete p in
  setLastThinkingText (delete (streamKey sessionId exchangeId) (lastThinkingText p)) p.

Definition closeAndRemoveResponseStream (sessionId exchangeId : string)
    (p : AideAgentSessionProvider) : AideAgentSessionProvider :=
  let responseStreamIdentifier := {| sessionId := sessionId; exchangeId := exchangeId |} in
  let '(responseStream, p) := lookupStream sessionId exchangeId p in
  let p := emitOn responseStream close p in
  let p := setResponseStreams
             (removeResponseStream responseStreamIdentifier (responseStreams p)) p in
  setLastThinkingText (delete (streamKey sessionId exchangeId) (lastThinkingText p)) p.

(** [for (const openStream of openStreams)
      this.closeAndRemoveResponseStream(sessionId, openStream.exchangeId)] *)
Fixpoint closeEach (sessionId : string) (openStreams : list AideAgentEventSenderResponse)
    (p : AideAgentSessionProvider) : AideAgentSessionProvider :=
  match openStreams with
  | [] => p
  | openStream :: rest =>
      closeEach sessionId rest
        (closeAndRemoveResponseStream sessionId (responseExchangeId openStream) p)
  end.

(** The array returned by [getAllResponseStreams] is a snapshot taken before
    the first removal. *)
Definition closeOpenStreams (sessionId : string) (p : AideAgentSessionProvider)
  : AideAgentSessionProvider :=
  closeEach sessionId (getAllResponseStreams (responseStreams p)) p.

Definition createNewResponseStream (sessionId : string) (p : AideAgentSessionProvider)
  : option AideAgentEventSenderResponse * AideAgentSessionProvider :=
  let '(exchangeId, p) := newExchangeIdForSession sessionId p in
  match exchangeId with
  | Some e => if JsString.truthy e then lookupStream sessionId e p else (None, p)
  | None => (None, p)
  end.

(** [this.responseStreamCollection.latestResponseStream
      ?? await this.createNewResponseStream(sessionId)] *)
Definition latestOrNewResponseStream (sessionId : string) (p : AideAgentSessionProvider)
  : option AideAgentEventSenderResponse * AideAgentSessionProvider :=
  match latestResponseStream (responseStreams p) with
  | Some r => (Some r, p)
  | None => createNewResponseStream sessionId p
  end.

(** *** The agent event dispatcher ([reportAgentEventsToChat]) *)

Record AuthCallbacks := { hasRetried : bool }.

(** The local state of one run: the provider, [streamStarted], and the calls
    of [authCallbacks.onUnauthorized()] made so far, in order. The dispatcher
    does not await that call: the callback runs up to its first [await] at
    the call, and each entry says where it stopped: [None] when it returned
    at once, [Some n] when it asked the host for a session, as the host's
    call number [n], and awaits the answer. What the callback does once it
    has the answer is run by the caller (see [streamResponseWith]). *)
Record DispatchState := {
  provider : AideAgentSessionProvider;
  streamStarted : bool;
  unauthorizedCalls : list (option nat);
}.

Definition onProvider (f : AideAgentSessionProvider → AideAgentSessionProvider)
    (l : DispatchState) : DispatchState :=
  {| provider := f (provider l); streamStarted := streamStarted l;
     unauthorizedCalls := unauthorizedCalls l |}.

Definition setStreamStarted (b : bool) (l : DispatchState) : DispatchState :=
  {| provider := provider l; streamStarted := b;
     unauthorizedCalls := unauthorizedCalls l |}.

(** [authCallbacks?.onUnauthorized()]. The one callbacks object of the
    source is built by [streamResponse], and its [onUnauthorized] tests the
    [hasRetried] that the object carries. Called without [await], it runs
    up to its first [await]: with [hasRetried] it returns; otherwise it calls
    [vscode.csAuthentication.getSession({ hardCheck: true })] and awaits the
    session. *)
Definition callOnUnauthorized (authCallbacks : option AuthCallbacks)
    (l : DispatchState) : DispatchState :=
  match authCallbacks with
  | Some cb =>
      if hasRetried cb then
        {| provider := provider l; streamStarted := streamStarted l;
           unauthorizedCalls := unauthorizedCalls l ++ [None] |}
      else
        {| provider := tickHost (emit (getSessionCalled true) (provider l));
           streamStarted := streamStarted l;
           unauthorizedCalls := unauthorizedCalls l ++ [Some (hostCalls (provider l))] |}
  | None => l
  end.

(** [errorCallback?.()] *)
Definition callErrorCallback (errorCallback : bool) (p : AideAgentSessionProvider)
  : AideAgentSessionProvider :=
  if errorCallback then emit errorCallbackCalled p else p.

Inductive Control :=
| Continue
| Return
| Throw (e : Exn).

Definition wrongToolOutputMessage : string :=
  "The LLM that you're using right now returned a response that does not adhere to the format our framework expects, and thus this request has failed. If you keep seeing this error, this is likely because the LLM is unable to follow our system instructions and it is recommended to switch over to one of our recommended models instead.".

Definition reportSuffix : string :=
  String "." (String newline (String newline
    "We'd appreciate it if you could report this session using the feedback tool above - this is on us. Please try again.")).

Definition unauthorizedToolError : string :=
  "LLM Client error: Unauthorized access to API".

Definition isCancelledByUser (message : string) : bool :=
  JsString.endsWith "cancelled by user" (JsString.toLowerCase message).

Definition isUnauthorizedAccess (message : string) : bool :=
  JsString.includes "unauthorized access" (JsString.toLowerCase message).

(** [if (event.event.Error) { ... }] *)
Definition dispatchError (authCallbacks : option AuthCallbacks) (errorCallback : bool)
    (request_id : string) (message : string) (l : DispatchState)
  : Control * DispatchState :=
  if isCancelledByUser message then
    let l := onProvider (λ p,
               emitOn (latestResponseStream (responseStreams p)) (stage "Cancelled") p) l in
    let l := onProvider (closeOpenStreams request_id) l in
    (Return, setStreamStarted true l)
  else
    let l := if isUnauthorizedAccess message
             then callOnUnauthorized authCallbacks l else l in
    let '(target, p) := latestOrNewResponseStream request_id (provider l) in
    let p :=
      match target with
      | Some r =>
          let p :=
            if JsString.endsWith "wrong tool output" (JsString.toLowerCase message)
            then emit (onStream (stream r) (toolTypeError wrongToolOutputMessage)) p
            else emit (onStream (stream r) (toolTypeError (message +:+ reportSuffix))) p in
          let p := emit (onStream (stream r) (stage "Error")) p in
          let p := callErrorCallback errorCallback p in
          closeOpenStreams request_id p
      | None => p
      end in
    (Return, onProvider (λ _, p) l).

(** The early [ExecutionState === 'Cancelled'] branch. *)
Definition dispatchCancelledState (request_id : string) (l : DispatchState)
  : Control * DispatchState :=
  let l := onProvider (λ p,
             emitOn (latestResponseStream (responseStreams p)) (stage "Cancelled") p) l in
  let l := onProvider (closeOpenStreams request_id) l in
  (Continue, setStreamStarted true l).

Definition dispatchToolParameter (sessionId exchangeId : string) (s : nat)
    (fieldName content : string) (p : AideAgentSessionProvider)
  : AideAgentSessionProvider :=
  if bool_decide (fieldName = "fs_file_path") || bool_decide (fieldName = "directory_path")
  then emit (onStream s (reference content)) p
  else if bool_decide (fieldName = "instruction") || bool_decide (fieldName = "result")
          || bool_decide (fieldName = "question")
  then
    let p := emit (onStream s (markdown (content +:+ String newline ""))) p in
    if bool_decide (fieldName = "question")
    then markLastMessageAsCompleteFor sessionId exchangeId p else p
  else if bool_decide (fieldName = "command")
  then emit (onStream s (markdown ("Running command: `" +:+ content +:+ "`" +:+ String newline ""))) p
  else if bool_decide (fieldName = "regex_pattern")
  then emit (onStream s (markdown (String newline "Searching the codebase: `" +:+ content
                                     +:+ "`" +:+ String newline ""))) p
  else if bool_decide (fieldName = "file_pattern")
  then emit (onStream s (markdown (String newline "Looking for files: `" +:+ content
                                     +:+ "`" +:+ String newline ""))) p
  else p.

(** [FrameworkEvent.ToolThinking]: only what follows the text last seen for
    the exchange is sent. *)
Definition dispatchToolThinking (sessionId exchangeId : string) (s : nat)
    (currentText : string) (p : AideAgentSessionProvider) : AideAgentSessionProvider :=
  let key := streamKey sessionId exchangeId in
  let lastText := default "" (lastThinkingText p !! key) in
  let delta := JsString.slice (String.length lastText) currentText in
  let p := if JsString.truthy delta
           then emit (onStream s (markdown (delta +:+ String newline ""))) p else p in
  setLastThinkingText (<[key := currentText]> (lastThinkingText p)) p.

Definition dispatchToolCallError (authCallbacks : option AuthCallbacks)
    (errorCallback : bool) (sessionId : string) (s : nat) (error_string : string)
    (l : DispatchState) : Control * DispatchState :=
  let l :=
    if bool_decide (error_string = "Cancelled Response")
    then onProvider (emit (onStream s (stage "Cancelled"))) l
    else if bool_decide (error_string = unauthorizedToolError)
    then
      match authCallbacks with
      | Some cb =>
          if hasRetried cb
          then onProvider (λ p, emit (onStream s (toolTypeError "Invalid session"))
                                  (emit (onStream s (stage "Error")) p)) l
          else l
      | None => l
      end
    else if bool_decide (error_string = "LLM Client error: Rate limit exceeded")
    then onProvider (λ p, emit (onStream s (toolTypeError "Usage limit exceeded. Please upgrade."))
                            (emit (onStream s (stage "Error")) p)) l
    else onProvider (λ p, callErrorCallback errorCallback
                            (emit (onStream s (stage "Error"))
                               (emit (onStream s (toolTypeError wrongToolOutputMessage)) p))) l in
  let l := onProvider (closeOpenStreams sessionId) l in
  let l := if bool_decide (error_string = unauthorizedToolError)
           then callOnUnauthorized authCallbacks l else l in
  (Return, l).

Definition dispatchFramework (authCallbacks : option AuthCallbacks) (errorCallback : bool)
    (sessionId exchangeId : string) (s : nat) (e : FrameworkEvent) (l : DispatchState)
  : Control * DispatchState :=
  match e with
  | OpenFile filePath =>
      (Continue,
       if JsString.truthy filePath
       then onProvider (emit (onStream s (reference filePath))) l else l)
  | ToolThinking currentText =>
      (Continue, onProvider (dispatchToolThinking sessionId exchangeId s currentText) l)
  | ToolParameterFound fieldName content =>
      (Continue, onProvider (dispatchToolParameter sessionId exchangeId s fieldName content) l)
  | ToolUseDetected None => (Continue, l)
  | ToolUseDetected (Some AttemptCompletion) =>
      (Return,
       onProvider (λ p, closeOpenStreams sessionId (emit (onStream s (stage "Complete")) p)) l)
  | ToolUseDetected (Some (OpenFileTool filePath)) =>
      (Continue,
       if JsString.truthy filePath
       then onProvider (emit (onStream s (reference filePath))) l else l)
  | ToolUseDetected (Some AskFollowupQuestions) =>
      (Continue,
       onProvider (λ p, closeOpenStreams sessionId (emit (onStream s (stage "Complete")) p)) l)
  | ToolUseDetected (Some (OtherTool _)) => (Continue, l)
  | ToolCallError error_string =>
      dispatchToolCallError authCallbacks errorCallback sessionId s error_string l
  | OtherFrameworkEvent => (Continue, l)
  end.

Definition undefinedThinkingForEdit : Exn :=
  TypeError "Cannot read properties of undefined (reading 'delta')".

Definition optionTruthy (o : option string) : bool :=
  match o with
  | Some x => JsString.truthy x
  | None => false
  end.

Definition dispatchSymbolSubStep (s : nat) (symbol_identifier : SymbolIdentifier)
    (e : SymbolEventSubStepKind) (l : DispatchState) : Control * DispatchState :=
  match e with
  | GoToDefinition => (Continue, l)
  | EditSubStep editEvent =>
      if negb (optionTruthy (symbol_fs_file_path symbol_identifier))
         && negb (JsString.truthy (symbol_name symbol_identifier))
      then (Continue, l)
      else
        match editEvent with
        | ThinkingForEdit delta =>
            (Continue,
             match delta with
             | Some d =>
                 if JsString.truthy d
                 then onProvider (emit (onStream s (markdown d))) l else l
             | None => l
             end)
        | _ => (Throw undefinedThinkingForEdit, l)
        end
  | ProbeSubStep => (Continue, l)
  | OtherSubStep => (Continue, l)
  end.

Definition dispatchPlan (responseStream : option AideAgentEventSenderResponse)
    (e : PlanEvent) (p : AideAgentSessionProvider) : AideAgentSessionProvider :=
  match e with
  | PlanStepTitleAdded index title =>
      emitOn responseStream (step index ("### " +:+ title))
        (emitOn responseStream (stage "Planning") p)
  | PlanStepDescriptionUpdate index delta =>
      emitOn responseStream (step index (String newline delta)) p
  | OtherPlanEvent => p
  end.

Definition dispatchExchange (sessionId exchangeId : string)
    (responseStream : option AideAgentEventSenderResponse) (e : ExchangeEvent)
    (p : AideAgentSessionProvider) : Control * AideAgentSessionProvider :=
  match e with
  | PlansExchangeState editsState =>
      if bool_decide (editsState = "Loading")
      then (Continue, emitOn responseStream (stage "Planning") p)
      else if bool_decide (editsState = "Cancelled")
      then (Continue, markLastMessageAsCompleteFor sessionId exchangeId
                        (emitOn responseStream (stage "Cancelled") p))
      else if bool_decide (editsState = "MarkedComplete")
      then (Return, closeAndRemoveResponseStream sessionId exchangeId
                      (emitOn responseStream (stage "Complete") p))
      else if bool_decide (editsState = "Accepted")
      then (Continue, emitOn responseStream (stage "Accepted") p)
      else (Continue, p)
  | EditsExchangeState editsState =>
      if bool_decide (editsState = "Loading")
      then (Continue, emitOn responseStream (stage "Editing") p)
      else if bool_decide (editsState = "Cancelled")
      then (Continue, markLastMessageAsCompleteFor sessionId exchangeId
                        (emitOn responseStream (stage "Cancelled") p))
      else if bool_decide (editsState = "MarkedComplete")
      then (Return, closeAndRemoveResponseStream sessionId exchangeId
                      (emitOn responseStream (stage "Complete") p))
      else (Continue, p)
  | ExecutionState executionState =>
      if bool_decide (executionState = "Inference")
      then (Continue, emitOn responseStream (stage "Reasoning") p)
      else if bool_decide (executionState = "InReview")
      then (Continue, emitOn responseStream (stage "Review") p)
      else if bool_decide (executionState = "Cancelled")
      then (Continue, markLastMessageAsCompleteFor sessionId exchangeId
                        (emitOn responseStream (stage "Cancelled") p))
      else (Continue, p)
  | FinishedExchange =>
      (Continue, closeAndRemoveResponseStream sessionId exchangeId
                   (emitOn responseStream (stage "Complete") p))
  | OtherExchangeEvent => (Continue, p)
  end.

(** From [const sessionId = event.request_id] on: the events that are routed
    to the stream registered for their exchange. *)
Definition dispatchRouted (authCallbacks : option AuthCallbacks) (errorCallback : bool)
    (sessionId exchangeId : string) (event : UIEvent) (l : DispatchState)
  : Control * DispatchState :=
  let '(responseStream, p) := lookupStream sessionId exchangeId (provider l) in
  let l := onProvider (λ _, p) l in
  match responseStream with
  | None => (Continue, l)
  | Some r =>
      let l := setStreamStarted true l in
      let key := streamKey sessionId exchangeId in
      let l :=
        if bool_decide (key ∈ startedStreams (provider l)) then l
        else onProvider (λ p, setStartedStreams ({[key]} ∪ startedStreams p)
                                (emit (onStream (stream r) (stage "Loading...")) p)) l in
      match event with
      | ErrorEvent _ => (Continue, l)
      | FrameworkEv e =>
          dispatchFramework authCallbacks errorCallback sessionId exchangeId (stream r) e l
      | SymbolEvent => (Continue, l)
      | SymbolEventSubStep symbol_identifier e =>
          dispatchSymbolSubStep (stream r) symbol_identifier e l
      | RequestEvent => (Continue, l)
      | EditRequestFinished => (Continue, l)
      | ChatEvent delta =>
          let '(responseStream, p) := lookupStream sessionId exchangeId (provider l) in
          (Continue,
           onProvider (λ _, match delta with
                            | Some d => emitOn responseStream (markdown d) p
                            | None => p
                            end) l)
      | PlanEv e =>
          let '(responseStream, p) := lookupStream sessionId exchangeId (provider l) in
          (Continue, onProvider (λ _, dispatchPlan responseStream e p) l)
      | ExchangeEv e =>
          let '(responseStream, p) := lookupStream sessionId exchangeId (provider l) in
          let '(c, p) := dispatchExchange sessionId exchangeId responseStream e p in
          (c, onProvider (λ _, p) l)
      end
  end.

(** One turn of [for await (const event of asyncIterable)]. *)
Definition dispatchEvent (authCallbacks : option AuthCallbacks) (errorCallback : bool)
    (event : SideCarAgentEvent) (l : DispatchState) : Control * DispatchState :=
  match event with
  | keep_alive => (Continue, l)
  | sessionStart started =>
      if started then (Continue, l)
      else (Throw SidecarConnectionFailedError, setStreamStarted false l)
  | doneEvent => (Continue, l)
  | uiEvent request_id exchange_id (ErrorEvent message) =>
      dispatchError authCallbacks errorCallback request_id message l
  | uiEvent request_id exchange_id (ExchangeEv (ExecutionState executionState)) =>
      if bool_decide (executionState = "Cancelled")
      then dispatchCancelledState request_id l
      else dispatchRouted authCallbacks errorCallback request_id exchange_id
             (ExchangeEv (ExecutionState executionState)) l
  | uiEvent request_id exchange_id event =>
      dispatchRouted authCallbacks errorCallback request_id exchange_id event l
  end.

Fixpoint dispatchLoop (authCallbacks : option AuthCallbacks) (errorCallback : bool)
    (events : list SideCarAgentEvent) (l : DispatchState) : Control * DispatchState :=
  match events with
  | [] => (Continue, l)
  | event :: rest =>
      match dispatchEvent authCallbacks errorCallback event l with
      | (Continue, l) => dispatchLoop authCallbacks errorCallback rest l
      | stopped => stopped
      end
  end.

Record DispatchResult := {
  outcome : Completion unit;
  after : AideAgentSessionProvider;
  onUnauthorizedCalls : list (option nat);
}.

Definition reportAgentEventsToChat (sessionId : string) (agentStream : AgentEventStream)
    (authCallbacks : option AuthCallbacks) (errorCallback : bool)
    (p : AideAgentSessionProvider) : DispatchResult :=
  let l0 := {| provider := p; streamStarted := false; unauthorizedCalls := [] |} in
  let '(c, l) := dispatchLoop authCallbacks errorCallback (streamEvents agentStream) l0 in
  let c :=
    match c with
    | Continue =>
        match streamFailure agentStream with
        | Some e => Throw e
        | None => if streamStarted l then Return else Throw SidecarConnectionFailedError
        end
    | _ => c
    end in
  match c with
  | Throw error =>
      let '(responseStream, p) := latestOrNewResponseStream sessionId (provider l) in
      match responseStream with
      | None =>
          {| outcome := Thrown error; after := p;
             onUnauthorizedCalls := unauthorizedCalls l |}
      | Some r =>
          let p := emit (onStream (stream r)
                           (toolTypeError (exnMessage error +:+ ". Please try again."))) p in
          let p := emit (onStream (stream r) (stage "Error")) p in
          let p := callErrorCallback errorCallback p in
          {| outcome := Returned (); after := closeOpenStreams sessionId p;
             onUnauthorizedCalls := unauthorizedCalls l |}
      end
  | _ =>
      {| outcome := Returned (); after := provider l;
         onUnauthorizedCalls := unauthorizedCalls l |}
  end.

(** *** The session driver ([processEvent], [streamResponse]) *)

Inductive AideAgentMode := Chat | Edit | Plan | Agentic | OtherMode.
Inductive AideAgentScope := Selection | Codebase | OtherScope.

Record AideAgentRequest := {
  prompt : string;
  req_sessionId : string;
  req_exchangeId : string;
  mode : AideAgentMode;
  scope : AideAgentScope;
  isDevtoolsContext : bool;
}.

(** The sidecar client: the endpoint called, the access token, the request. *)
Variable sidecar : nat → string → string → AideAgentRequest → AgentEventStream.
(** [vscode.csAuthentication.getSession({ hardCheck })]: the access token of
    the session, if there is one. *)
Variable getSession : nat → bool → option string.

(** Which sidecar call a request leads to, if any. *)
Definition endpointFor (event : AideAgentRequest) : option string :=
  match mode event with
  | Chat => Some "agentSessionChat"
  | Edit =>
      match scope event with
      | Selection => Some "agentSessionAnchoredEdit"
      | _ => Some "agentSessionPlanStep"
      end
  | Plan | Agentic => Some "agentSessionPlanStep"
  | OtherMode => None
  end.


(** The [try { ... } catch (error) { ... }] of [streamResponse]: the outcome,
    the provider, and the calls of [authCallbacks.onUnauthorized] that the
    dispatcher made. *)
Definition streamResponseTry (event : AideAgentRequest) (sessionId editorUrl : string)
    (workosAccessToken : string) (hasRetried : bool) (p : AideAgentSessionProvider)
  : Completion unit * AideAgentSessionProvider * list (option nat) :=
  let authCallbacks := {| hasRetried := hasRetried |} in
  match endpointFor event with
  | None => (Returned (), p, [])
  | Some endpoint =>
      let responseStream := sidecar (hostCalls p) endpoint workosAccessToken event in
      let p := tickHost (emit (sidecarCalled endpoint workosAccessToken) p) in
      let r := reportAgentEventsToChat sessionId responseStream (Some authCallbacks) false p in
      match outcome r with
      | Returned _ => (Returned (), after r, onUnauthorizedCalls r)
      | Thrown error =>
          let '(target, p) := latestOrNewResponseStream sessionId (after r) in
          match target with
          | None => (Thrown error, p, onUnauthorizedCalls r)
          | Some t =>
              let p := emit (onStream (stream t)
                               (toolTypeError (exnMessage error +:+ ". Please try again."))) p in
              let p := emit (onStream (stream t) (stage "Error")) p in
              (Returned (), closeOpenStreams sessionId p, onUnauthorizedCalls r)
          end
      end
  end.

(** [authCallbacks.onUnauthorized] from where [callOnUnauthorized] left it:
    a call that returned at once does nothing more; one that awaits the
    session asked for as the host's call [n] takes its token and makes the
    recursive call [this.streamResponse(event, sessionId, editorUrl, newToken,
    true)], which is [restart]. *)
Definition onUnauthorized
    (restart : string → AideAgentSessionProvider → AideAgentSessionProvider)
    (call : option nat) (p : AideAgentSessionProvider) : AideAgentSessionProvider :=
  match call with
  | None => p
  | Some n =>
      let session := getSession n true in
      let newToken := default "" session in
      restart newToken p
  end.

(** [streamResponse] with its recursive call as a parameter. Nothing awaits
    the promise of [onUnauthorized], so when its second half runs is up to
    the host, which resolves the session; here the host answers once the
    call of [streamResponse] that asked is over. *)
Definition streamResponseWith
    (restart : string → AideAgentSessionProvider → AideAgentSessionProvider)
    (event : AideAgentRequest) (sessionId editorUrl : string)
    (workosAccessToken : string) (hasRetried : bool) (p : AideAgentSessionProvider)
  : Completion unit * AideAgentSessionProvider :=
  let p := emit (streamResponseEntered workosAccessToken hasRetried) p in
  let '(c, p, calls) :=
    streamResponseTry event sessionId editorUrl workosAccessToken hasRetried p in
  (c, foldl (λ p call, onUnauthorized restart call p) p calls).

(** The recursion goes through [hasRetried = true] only, where
    [onUnauthorized] returns before it asks for a session and so never
    reaches the recursive call: it is two calls deep at most, and unfolded
    here (see [streamResponse_unfold]). *)
Definition streamResponse (event : AideAgentRequest) (sessionId editorUrl : string)
    (workosAccessToken : string) (hasRetried : bool) (p : AideAgentSessionProvider)
  : Completion unit * AideAgentSessionProvider :=
  streamResponseWith
    (λ newToken p,
       (streamResponseWith (λ _ p, p) event sessionId editorUrl newToken true p).2)
    event sessionId editorUrl workosAccessToken hasRetried p.


(** ** Properties *)

(** *** The registry *)

(** C2. Registering a handle under a key and looking the key up returns the
    handle; once the key is removed (whether or not it was looked up in
    between) looking it up returns none. *)
Theorem register_lookup_remove (k : ResponseStreamIdentifier)
    (h : AideAgentEventSenderResponse) (c : AideResponseStreamCollection) :
  let registered := addResponseStream k h c in
  (getResponseStream k registered).1 = Some h
  ∧ (getResponseStream k (removeResponseStream k registered)).1 = None
  ∧ (getResponseStream k
       (removeResponseStream k (getResponseStream k registered).2)).1 = None.
Proof.
  simpl. rewrite !getResponseStream_fst, !removeResponseStream_collection.
  rewrite getResponseStream_collection. simpl.
  rewrite JsMap.get_set_eq, JsMap.get_remove_eq. done.
Qed.

(** C8 (as the code has it). In every state of the registry: removing a key
    whose composite string is the one held by the latest reference clears
    the reference, and removing a key with another composite string leaves
    the reference as it is. The reference holds the composite string of the
    key that was last looked up with success, so that a key other than that
    one clears it too when the two have the same composite string. *)
Theorem remove_latest (c : AideResponseStreamCollection) (k : ResponseStreamIdentifier) :
  reachable c →
  (∀ h c', getResponseStream k c = (Some h, c') →
           _latestResponseStream c' = Some (getKey k, h)
           ∧ latestResponseStream (removeResponseStream k c') = None)
  ∧ (∀ v, _latestResponseStream c = Some (getKey k, v) →
          latestResponseStream (removeResponseStream k c) = None)
  ∧ (∀ key v, _latestResponseStream c = Some (key, v) → key ≠ getKey k →
              _latestResponseStream (removeResponseStream k c) = Some (key, v))
  ∧ (_latestResponseStream c = None →
     _latestResponseStream (removeResponseStream k c) = None).
Proof.
  intros Hreach.
  assert (Hclear : ∀ c0 v, reachable c0 →
            _latestResponseStream c0 = Some (getKey k, v) →
            latestResponseStream (removeResponseStream k c0) = None).
  { intros c0 v Hr Hl. pose proof (reachable_latestRegistered _ Hr _ _ Hl) as Hreg.
    unfold latestResponseStream, removeResponseStream, JsMap.delete, JsMap.has.
    simpl. rewrite Hl. by rewrite !bool_decide_eq_true_2. }
  split; [|split; [|split]].
  - intros h c' Hget.
    assert (c' = (getResponseStream k c).2) as -> by by rewrite Hget.
    assert (_latestResponseStream (getResponseStream k c).2 = Some (getKey k, h)) as Hl.
    { revert Hget. unfold getResponseStream.
      destruct (JsMap.get _ _); simpl; [|done]. by intros [= ->]. }
    split; [done|]. eapply Hclear; [by constructor|done].
  - intros v. by apply Hclear.
  - intros key v Hl Hne. unfold removeResponseStream, JsMap.delete. simpl.
    rewrite Hl. by rewrite (bool_decide_eq_false_2 _ Hne), andb_false_r.
  - intros Hl. unfold removeResponseStream, JsMap.delete. simpl. by rewrite Hl.
Qed.

(** C9. [getKey] is not injective: the keys ("a-b", "c") and ("a", "b-c")
    differ and have the same composite string, so a handle registered under
    the second takes the place of the one registered under the first (the
    collection does not grow), and looking either key up returns the handle
    registered last. *)
Theorem getKey_not_injective :
  let k1 := {| sessionId := "a-b"; exchangeId := "c" |} in
  let k2 := {| sessionId := "a"; exchangeId := "b-c" |} in
  k1 ≠ k2
  ∧ getKey k1 = getKey k2
  ∧ ∀ (c : AideResponseStreamCollection) (h1 h2 : AideAgentEventSenderResponse),
      let first := addResponseStream k1 h1 c in
      let both := addResponseStream k2 h2 first in
      (getResponseStream k1 first).1 = Some h1
      ∧ (getResponseStream k1 both).1 = Some h2
      ∧ (getResponseStream k2 both).1 = Some h2
      ∧ length (responseStreamCollection both) = length (responseStreamCollection first).
Proof.
  simpl. split; [done|]. split; [done|]. intros c h1 h2.
  rewrite !getResponseStream_fst. simpl.
  change (getKey {| sessionId := "a"; exchangeId := "b-c" |}) with "a-b-c".
  change (getKey {| sessionId := "a-b"; exchangeId := "c" |}) with "a-b-c".
  rewrite !JsMap.get_set_eq. repeat split.
  apply JsMap.set_length_present. by rewrite JsMap.get_set_eq.
Qed.

(** *** The inbound handlers *)

Lemma lookupStream_fst sid eid p :
  (lookupStream sid eid p).1
  = JsMap.get (streamKey sid eid) (responseStreamCollection (responseStreams p)).
Proof.
  unfold lookupStream.
  pose proof (getResponseStream_fst {| sessionId := sid; exchangeId := eid |}
                (responseStreams p)) as H.
  destruct (getResponseStream _ _) as [r c]. exact H.
Qed.

Lemma lookupStream_effects sid eid p :
  effects (lookupStream sid eid p).2 = effects p.
Proof. unfold lookupStream. by destruct (getResponseStream _ _). Qed.

(** C6. [undoToCheckpoint] answers [success = false], emitting nothing, when
    no stream is registered for the request's session and exchange.
    Otherwise it emits on that stream one code edit, a delete of the empty
    range at (0,0) whose label is the exchange id, followed by "::" and the
    index when the request has one, with [needsConfirmation = false], and
    answers [success = true]. *)
Theorem undoToCheckpoint_spec (request : SidecarUndoPlanStep)
    (p : AideAgentSessionProvider) :
  let key := getKey {| sessionId := undo_session_id request;
                       exchangeId := undo_exchange_id request |} in
  let origin := {| line := 0; character := 0 |} in
  let expectedLabel :=
    match undo_index request with
    | None => undo_exchange_id request
    | Some i => undo_exchange_id request +:+ "::" +:+ JsString.ofNat i
    end in
  match JsMap.get key (responseStreamCollection (responseStreams p)) with
  | None =>
      (undoToCheckpoint request p).1 = false
      ∧ effects (undoToCheckpoint request p).2 = effects p
  | Some r =>
      (undoToCheckpoint request p).1 = true
      ∧ effects (undoToCheckpoint request p).2
        = effects p
          ++ [onStream (stream r)
                (codeEdit
                   [deleteEntry "/undoCheck"
                      {| rangeStart := origin; rangeEnd := origin |}
                      {| label := expectedLabel; needsConfirmation := false |}])]
  end.
Proof.
  simpl. unfold undoToCheckpoint.
  pose proof (lookupStream_fst (undo_session_id request) (undo_exchange_id request) p) as Hfst.
  pose proof (lookupStream_effects (undo_session_id request) (undo_exchange_id request) p) as Heff.
  destruct (lookupStream _ _ p) as [r p']. simpl in Hfst, Heff.
  unfold streamKey in Hfst. unfold getKey. simpl. rewrite <- Hfst.
  destruct r as [r|]; simpl; rewrite Heff; done.
Qed.

(** C10. An [applyEdit] request that is not flagged [apply_directly], made
    while no turn-scoped response stream is open, is answered with
    [success = true] and the request's file path, and nothing is applied: the
    provider, its effects included, is left as it was. *)
Theorem provideEdit_without_open_stream (request : SidecarApplyEditsRequest)
    (p : AideAgentSessionProvider) :
  apply_directly request = false →
  openResponseStream p = None →
  provideEdit request p
  = ({| fs_file_path := apply_fs_file_path request; success := true |}, p).
Proof. intros Hd Ho. unfold provideEdit. by rewrite Hd, Ho. Qed.

(** *** Port selection *)

Lemma getNextOpenPort_Some (startFrom port : Z) :
  getNextOpenPort startFrom = Some port →
  (startFrom ≤ port < 65535)%Z
  ∧ isPortOpen port = true
  ∧ ∀ q, (startFrom ≤ q < port)%Z → isPortOpen q = false.
Proof.
  funelim (getNextOpenPort startFrom).
  - done.
  - intros [= <-]. repeat split; [lia|lia|done|lia].
  - intros Hrec.
    match goal with IH : ∀ port, _ → _ |- _ =>
      destruct (IH _ Hrec) as (Hrange & Hopen & Hbusy) end.
    repeat split; [lia|lia|done|].
    intros q Hq. destruct (decide (q = startFrom)) as [->|]; [done|].
    apply Hbusy. lia.
Qed.

Lemma getNextOpenPort_None (startFrom : Z) :
  getNextOpenPort startFrom = None →
  ∀ q, (startFrom ≤ q < 65535)%Z → isPortOpen q = false.
Proof.
  funelim (getNextOpenPort startFrom).
  - intros _ q Hq. lia.
  - done.
  - intros Hrec q Hq.
    destruct (decide (q = startFrom)) as [->|]; [done|].
    match goal with IH : _ → ∀ q, _ → _ |- _ => apply (IH Hrec) end. lia.
Qed.

(** C7. [getNextOpenPort] is a total function of the port states. From the
    default 42427 it answers the lowest free port below 65535, every port
    from 42427 up to it being busy; it answers [null] when every port from
    42427 to 65534 is busy, and then the provider throws
    'Could not find an open port' and neither listens nor sets its URL. When
    a port is found the provider listens on it. *)
Theorem getNextOpenPort_spec (p : AideAgentSessionProvider) :
  defaultPort = 42427%Z
  ∧ match getNextOpenPort defaultPort with
    | Some port =>
        (42427 ≤ port < 65535)%Z
        ∧ isPortOpen port = true
        ∧ (∀ q, (42427 ≤ q < port)%Z → isPortOpen q = false)
        ∧ (startRequestHandler p).1 = Returned ()
        ∧ effects (startRequestHandler p).2 = effects p ++ [listen port]
    | None =>
        (∀ q, (42427 ≤ q < 65535)%Z → isPortOpen q = false)
        ∧ startRequestHandler p = (Thrown (Error "Could not find an open port"), p)
    end.
Proof.
  split; [done|]. unfold startRequestHandler.
  destruct (getNextOpenPort defaultPort) as [port|] eqn:Hport.
  - apply getNextOpenPort_Some in Hport as (? & ? & ?). unfold defaultPort in *.
    repeat split; auto; lia.
  - split; [|done]. by apply getNextOpenPort_None.
Qed.

(** *** The edit stream *)

Lemma getResponseStream_idem k c :
  getResponseStream k (getResponseStream k c).2 = getResponseStream k c.
Proof.
  unfold getResponseStream.
  destruct (JsMap.get (getKey k) (responseStreamCollection c)) as [r|] eqn:Hget;
    simpl; by rewrite Hget.
Qed.

Lemma setResponseStreams_id p : setResponseStreams (responseStreams p) p = p.
Proof. by destruct p. Qed.

(** A second lookup of the same exchange finds the same stream and changes
    nothing. *)
Lemma lookupStream_again sid eid p p1 :
  responseStreams p1 = responseStreams (lookupStream sid eid p).2 →
  lookupStream sid eid p1 = ((lookupStream sid eid p).1, p1).
Proof.
  unfold lookupStream. intros Hc.
  pose proof (getResponseStream_idem {| sessionId := sid; exchangeId := eid |}
                (responseStreams p)) as Hidem.
  destruct (getResponseStream _ (responseStreams p)) as [r c] eqn:Hget.
  simpl in *. rewrite Hc, Hidem. simpl. by rewrite <- Hc, setResponseStreams_id.
Qed.

Lemma drainLoop_frame fuel m p :
  let p' := (drainLoop fuel m p).2 in
  responseStreams p' = responseStreams p
  ∧ openResponseStream p' = openResponseStream p
  ∧ editsMap p' = editsMap p
  ∧ editCounter p' = editCounter p.
Proof.
  revert m p. induction fuel as [|fuel IH]; intros m p; simpl; [done|].
  destruct (getLine (answerSplitter m)) as [[l a]|]; [|done].
  destruct (IH {| answerSplitter := a; streamProcessor := streamProcessor m |}
              (emit (processLine (sp_uniqueEditId (streamProcessor m))
                       (sp_uri (streamProcessor m)) l) p)) as (-> & -> & -> & ->).
  done.
Qed.

(** The fuel given to the drain loop is enough: it stops on [getLine]
    answering [null]. *)
Lemma drainLoop_drained fuel m p :
  length (completedLines (answerSplitter m)) < fuel →
  getLine (answerSplitter (drainLoop fuel m p).1) = None.
Proof.
  revert m p. induction fuel as [|fuel IH]; intros m p Hlen; [lia|]. simpl.
  destruct (getLine (answerSplitter m)) as [[l a]|] eqn:Hget; [|done].
  apply IH. simpl. unfold getLine in Hget.
  destruct (completedLines (answerSplitter m)) as [|l' ls]; [done|].
  injection Hget as _ <-. simpl in *. lia.
Qed.

Lemma drain_drained m p : getLine (answerSplitter (drain m p).1) = None.
Proof. apply drainLoop_drained. lia. Qed.

(** The [Delta] branch guards the same lookup: without a session it returns
    and changes neither the sessions nor the effects. *)
Lemma provideEditStreamed_Delta_without_session request fragment p :
  esr_event request = Delta fragment →
  editsMap p !! edit_request_id request = None →
  ∃ response,
    (provideEditStreamed request p).1 = Returned response
    ∧ editsMap (provideEditStreamed request p).2 = editsMap p
    ∧ effects (provideEditStreamed request p).2 = effects p.
Proof.
  intros Hev Hnone. unfold provideEditStreamed. rewrite Hev.
  assert (editsMap (lookupStream (esr_session_id request) (esr_exchange_id request) p).2
          = editsMap p) as Hmap.
  { unfold lookupStream. by destruct (getResponseStream _ _). }
  pose proof (lookupStream_effects (esr_session_id request) (esr_exchange_id request) p)
    as Heff.
  destruct (lookupStream _ _ p) as [r p0]. cbn [snd] in *.
  destruct (_ && _); [by eexists|].
  destruct (JsString.truthy fragment); [|by eexists].
  rewrite Hmap, Hnone. by eexists.
Qed.

(** C5 (as the code has it). Once an [End] for an edit request has been
    processed with success, the session is gone from [editsMap], and a
    second [End] for the same request does not return: reading
    [answerSplitter] of the missing session throws a [TypeError]. *)
Theorem provideEditStreamed_second_End_throws (request : EditedCodeStreamingRequest)
    (p : AideAgentSessionProvider) :
  esr_event request = End_ →
  (provideEditStreamed request p).1 = Returned editDone →
  let p1 := (provideEditStreamed request p).2 in
  editsMap p1 !! edit_request_id request = None
  ∧ provideEditStreamed request p1 = (Thrown undefinedAnswerSplitter, p1).
Proof.
  intros Hev. unfold provideEditStreamed at 1 2. rewrite Hev.
  pose proof (lookupStream_again (esr_session_id request) (esr_exchange_id request) p)
    as Hagain.
  destruct (lookupStream (esr_session_id request) (esr_exchange_id request) p)
    as [r p0] eqn:Hlook.
  simpl in Hagain.
  destruct (negb (esr_apply_directly request)
            && negb (bool_decide (is_Some (openResponseStream p0)))
            && negb (bool_decide (is_Some r))) eqn:Hgate; [done|].
  destruct (editsMap p0 !! edit_request_id request) as [m|] eqn:Hm; [|done].
  unfold drain.
  pose proof (drainLoop_frame (S (length (completedLines (answerSplitter m)))) m p0)
    as (Hrs & Hopen & Hmap & Hcnt).
  destruct (drainLoop _ m p0) as [m' p'] eqn:Hdrain. simpl in *.
  intros _. split; [by rewrite lookup_delete_eq|].
  unfold provideEditStreamed. rewrite Hev.
  rewrite Hagain by (simpl; done). simpl.
  rewrite Hopen, Hgate. by rewrite lookup_delete_eq.
Qed.

(** *** The dispatcher: thinking text *)

Lemma lookupStream_Some sid eid p r :
  JsMap.get (streamKey sid eid) (responseStreamCollection (responseStreams p)) = Some r →
  lookupStream sid eid p
  = (Some r,
     setResponseStreams
       {| responseStreamCollection := responseStreamCollection (responseStreams p);
          _latestResponseStream := Some (streamKey sid eid, r);
          subscriptions := subscriptions (responseStreams p) |} p).
Proof.
  intros Hget. unfold lookupStream, getResponseStream.
  change (getKey {| sessionId := sid; exchangeId := eid |}) with (streamKey sid eid).
  by rewrite Hget.
Qed.

Lemma lookupStream_None sid eid p :
  JsMap.get (streamKey sid eid) (responseStreamCollection (responseStreams p)) = None →
  lookupStream sid eid p = (None, p).
Proof.
  intros Hget. unfold lookupStream, getResponseStream.
  change (getKey {| sessionId := sid; exchangeId := eid |}) with (streamKey sid eid).
  rewrite Hget. by rewrite setResponseStreams_id.
Qed.

(** What one [ToolThinking] event sends, given the text last seen. *)
Definition thinkingFragment (s : nat) (lastText currentText : string) : list Effect :=
  let delta := JsString.slice (String.length lastText) currentText in
  if JsString.truthy delta then [onStream s (markdown (delta +:+ String newline ""))]
  else [].

Definition loadingOnce (s : nat) (key : string) (started : gset string) : list Effect :=
  if bool_decide (key ∈ started) then [] else [onStream s (stage "Loading...")].

Lemma dispatchToolThinking_spec sid eid s currentText p :
  let p' := dispatchToolThinking sid eid s currentText p in
  effects p'
  = effects p
    ++ thinkingFragment s (default "" (lastThinkingText p !! streamKey sid eid)) currentText
  ∧ lastThinkingText p' = <[streamKey sid eid := currentText]> (lastThinkingText p)
  ∧ responseStreams p' = responseStreams p
  ∧ startedStreams p' = startedStreams p.
Proof.
  unfold dispatchToolThinking, thinkingFragment.
  destruct (JsString.truthy _); simpl; by rewrite ?app_nil_r.
Qed.

(** One [ToolThinking] event on a registered exchange. *)
Lemma dispatch_ToolThinking authCallbacks errorCallback sid eid r currentText l :
  JsMap.get (streamKey sid eid)
    (responseStreamCollection (responseStreams (provider l))) = Some r →
  ∃ l',
    dispatchEvent authCallbacks errorCallback
      (uiEvent sid eid (FrameworkEv (ToolThinking currentText))) l = (Continue, l')
    ∧ JsMap.get (streamKey sid eid)
        (responseStreamCollection (responseStreams (provider l'))) = Some r
    ∧ lastThinkingText (provider l') !! streamKey sid eid = Some currentText
    ∧ streamKey sid eid ∈ startedStreams (provider l')
    ∧ effects (provider l')
      = effects (provider l)
        ++ loadingOnce (stream r) (streamKey sid eid) (startedStreams (provider l))
        ++ thinkingFragment (stream r)
             (default "" (lastThinkingText (provider l) !! streamKey sid eid))
             currentText.
Proof.
  intros Hget. unfold loadingOnce.
  cbn [dispatchEvent]. unfold dispatchRouted.
  rewrite (lookupStream_Some _ _ _ _ Hget).
  cbn [onProvider setStreamStarted provider streamStarted unauthorizedCalls
       dispatchFramework startedStreams setResponseStreams].
  case_bool_decide as Hstarted;
    (eexists; split; [reflexivity|]);
    cbn [onProvider provider];
    match goal with
    | |- context [dispatchToolThinking ?a ?b ?c ?d ?q] =>
        destruct (dispatchToolThinking_spec a b c d q) as (-> & -> & -> & ->)
    end; simpl; rewrite lookup_insert_eq, <- ?app_assoc.
  all: repeat split; try done.
  set_solver.
Qed.

(** C4 (as the code has it). Of two consecutive [ToolThinking] events on a
    registered exchange, the second sends as markdown what its text has
    beyond the length of the first one's text, followed by a newline, and
    sends nothing when there is nothing beyond it; with "abc" then "abcdef"
    it sends "def" and a newline. *)
Theorem toolThinking_sends_delta_and_newline
    (authCallbacks : option AuthCallbacks) (errorCallback : bool)
    (sid eid : string) (r : AideAgentEventSenderResponse)
    (firstText secondText : string) (l : DispatchState) :
  JsMap.get (streamKey sid eid)
    (responseStreamCollection (responseStreams (provider l))) = Some r →
  let thinkingEvent text := uiEvent sid eid (FrameworkEv (ToolThinking text)) in
  let l1 := (dispatchEvent authCallbacks errorCallback (thinkingEvent firstText) l).2 in
  let l2 := (dispatchEvent authCallbacks errorCallback (thinkingEvent secondText) l1).2 in
  let delta := JsString.slice (String.length firstText) secondText in
  (delta ≠ "" →
   effects (provider l2)
   = effects (provider l1)
     ++ [onStream (stream r) (markdown (delta +:+ String newline ""))])
  ∧ (String.length secondText ≤ String.length firstText →
     effects (provider l2) = effects (provider l1))
  ∧ (firstText = "abc" → secondText = "abcdef" →
     effects (provider l2)
     = effects (provider l1)
       ++ [onStream (stream r) (markdown (String "d" (String "e" (String "f"
                                            (String newline "")))))]).
Proof.
  intros Hget thinkingEvent l1 l2 delta. subst thinkingEvent l1 l2 delta.
  destruct (dispatch_ToolThinking authCallbacks errorCallback sid eid r firstText l Hget)
    as (l1 & -> & Hget1 & Hlast1 & Hstarted1 & _).
  cbn [snd].
  destruct (dispatch_ToolThinking authCallbacks errorCallback sid eid r secondText l1 Hget1)
    as (l2 & -> & _ & _ & _ & Heff).
  cbn [snd]. rewrite Heff, Hlast1. cbn [default id].
  unfold loadingOnce. rewrite bool_decide_eq_true_2 by done. simpl.
  unfold thinkingFragment, JsString.truthy.
  split; [|split].
  - intros Hne. by rewrite bool_decide_eq_false_2.
  - intros Hlen. rewrite JsString.slice_all by done. simpl. by rewrite app_nil_r.
  - intros -> ->. done.
Qed.

(** *** The dispatcher: teardown on cancellation *)

Definition isClose (e : Effect) : Prop := ∃ s, e = onStream s close.

Definition closeOf (r : option AideAgentEventSenderResponse) : list Effect :=
  match r with
  | Some h => [onStream (stream h) close]
  | None => []
  end.

Lemma closeAndRemoveResponseStream_spec sid eid p :
  let key := streamKey sid eid in
  let p' := closeAndRemoveResponseStream sid eid p in
  responseStreamCollection (responseStreams p')
  = JsMap.remove key (responseStreamCollection (responseStreams p))
  ∧ effects p'
    = effects p ++ closeOf (JsMap.get key (responseStreamCollection (responseStreams p))).
Proof.
  simpl. unfold closeAndRemoveResponseStream.
  destruct (JsMap.get (streamKey sid eid)
              (responseStreamCollection (responseStreams p))) as [h|] eqn:Hget.
  - rewrite (lookupStream_Some _ _ _ _ Hget). simpl. done.
  - rewrite (lookupStream_None _ _ _ Hget). simpl. by rewrite app_nil_r.
Qed.

Lemma closeEach_effects sid hs p :
  ∃ closes, effects (closeEach sid hs p) = effects p ++ closes ∧ Forall isClose closes.
Proof.
  revert p. induction hs as [|h hs IH]; intros p; simpl.
  - exists []. by rewrite app_nil_r.
  - destruct (IH (closeAndRemoveResponseStream sid (responseExchangeId h) p))
      as (closes & -> & Hall).
    destruct (closeAndRemoveResponseStream_spec sid (responseExchangeId h) p)
      as [_ ->].
    eexists. rewrite <- app_assoc. split; [done|].
    apply Forall_app. split; [|done].
    destruct (JsMap.get _ _); simpl; [|done].
    apply Forall_singleton. by eexists.
Qed.

Lemma closeEach_collection sid hs p key :
  JsMap.get key (responseStreamCollection (responseStreams (closeEach sid hs p)))
  = if bool_decide (key ∈ (λ h, streamKey sid (responseExchangeId h)) <$> hs)
    then None
    else JsMap.get key (responseStreamCollection (responseStreams p)).
Proof.
  revert p. induction hs as [|h hs IH]; intros p; simpl; [done|].
  rewrite IH.
  destruct (closeAndRemoveResponseStream_spec sid (responseExchangeId h) p) as [-> _].
  rewrite JsMap.get_remove.
  destruct (decide (streamKey sid (responseExchangeId h) = key)) as [<-|Hne].
  - rewrite (bool_decide_eq_true_2 (_ ∈ _ :: _)) by left. by case_bool_decide.
  - case_bool_decide as Hin.
    + by rewrite bool_decide_eq_true_2 by by right.
    + rewrite bool_decide_eq_false_2; [done|].
      intros [?|?]%elem_of_cons; [congruence|by apply Hin].
Qed.

(** A stream registered under one of the keys that the loop computes is
    closed by it. *)
Lemma closeEach_closes sid hs p key h :
  JsMap.get key (responseStreamCollection (responseStreams p)) = Some h →
  key ∈ (λ h, streamKey sid (responseExchangeId h)) <$> hs →
  onStream (stream h) close ∈ effects (closeEach sid hs p).
Proof.
  revert p. induction hs as [|h0 hs IH]; intros p Hget; simpl.
  - by intros ?%elem_of_nil.
  - intros Hin.
    destruct (closeAndRemoveResponseStream_spec sid (responseExchangeId h0) p)
      as [Hcoll Heff].
    destruct (decide (streamKey sid (responseExchangeId h0) = key)) as [Heq|Hne].
    + destruct (closeEach_effects sid hs
                  (closeAndRemoveResponseStream sid (responseExchangeId h0) p))
        as (closes & -> & _).
      rewrite Heff, Heq, Hget. simpl.
      apply elem_of_app. left. apply elem_of_app. right. left.
    + apply IH.
      * rewrite Hcoll. by rewrite JsMap.get_remove_ne.
      * apply elem_of_cons in Hin as [?|?]; [congruence|done].
Qed.

(** A stream registered under one of the keys that the loop computes is
    among the streams that the loop closes. *)
Lemma closeEach_closes_all sid hs p :
  ∃ closes,
    effects (closeEach sid hs p) = effects p ++ closes
    ∧ Forall isClose closes
    ∧ ∀ key h,
        JsMap.get key (responseStreamCollection (responseStreams p)) = Some h →
        key ∈ (λ h, streamKey sid (responseExchangeId h)) <$> hs →
        onStream (stream h) close ∈ closes.
Proof.
  revert p. induction hs as [|h0 hs IH]; intros p; simpl.
  - exists []. rewrite app_nil_r. split; [done|]. split; [done|].
    by intros key h _ ?%elem_of_nil.
  - destruct (IH (closeAndRemoveResponseStream sid (responseExchangeId h0) p))
      as (closes & -> & Hall & Hin).
    destruct (closeAndRemoveResponseStream_spec sid (responseExchangeId h0) p)
      as [Hcoll ->].
    exists (closeOf (JsMap.get (streamKey sid (responseExchangeId h0))
                       (responseStreamCollection (responseStreams p))) ++ closes).
    rewrite <- app_assoc. split; [done|]. split.
    + apply Forall_app. split; [|done].
      destruct (JsMap.get _ _); simpl; [|done].
      apply Forall_singleton. by eexists.
    + intros key h Hget Hkey. apply elem_of_app.
      destruct (decide (streamKey sid (responseExchangeId h0) = key)) as [Heq|Hne].
      * left. rewrite Heq, Hget. simpl. left.
      * right. apply (Hin key h).
        -- rewrite Hcoll. by rewrite JsMap.get_remove_ne.
        -- apply elem_of_cons in Hkey as [?|?]; [congruence|done].
Qed.

(** What the teardown loop of the dispatcher does for session [sid]: it
    sends nothing but [close]; every stream registered under the session's id
    and its own exchange id is closed and no longer registered. *)
Lemma closeOpenStreams_closes sid p :
  ∃ closes,
    effects (closeOpenStreams sid p) = effects p ++ closes
    ∧ Forall isClose closes
    ∧ ∀ h, JsMap.get (streamKey sid (responseExchangeId h))
             (responseStreamCollection (responseStreams p)) = Some h →
           JsMap.get (streamKey sid (responseExchangeId h))
             (responseStreamCollection (responseStreams (closeOpenStreams sid p))) = None
           ∧ onStream (stream h) close ∈ closes.
Proof.
  unfold closeOpenStreams.
  destruct (closeEach_closes_all sid (getAllResponseStreams (responseStreams p)) p)
    as (closes & Heff & Hall & Hin).
  exists closes. split; [done|]. split; [done|]. intros h Hget.
  assert (streamKey sid (responseExchangeId h)
          ∈ (λ h, streamKey sid (responseExchangeId h))
              <$> getAllResponseStreams (responseStreams p)) as Hkey.
  { apply list_elem_of_fmap. exists h. split; [done|].
    by eapply JsMap.get_Some_values. }
  split.
  - rewrite (closeEach_collection sid _ p). by rewrite bool_decide_eq_true_2.
  - exact (Hin _ h Hget Hkey).
Qed.

Lemma dispatchError_cancelled authCallbacks errorCallback request_id message l :
  isCancelledByUser message = true →
  dispatchError authCallbacks errorCallback request_id message l
  = (Return,
     setStreamStarted true
       (onProvider (closeOpenStreams request_id)
          (onProvider (λ p, emitOn (latestResponseStream (responseStreams p))
                              (stage "Cancelled") p) l))).
Proof. intros H. unfold dispatchError. by rewrite H. Qed.

(** The loop goes on after a prefix of the events that it does not stop at. *)
Lemma dispatchLoop_app authCallbacks errorCallback before rest l l1 :
  dispatchLoop authCallbacks errorCallback before l = (Continue, l1) →
  dispatchLoop authCallbacks errorCallback (before ++ rest) l
  = dispatchLoop authCallbacks errorCallback rest l1.
Proof.
  revert l. induction before as [|event before IH]; intros l; simpl.
  - by intros [= ->].
  - destruct (dispatchEvent authCallbacks errorCallback event l) as [[] l'];
      [apply IH|done..].
Qed.

(** *** The session driver: retry on an authorization error *)

(** The effects of the driver itself: acquiring a session, entering
    [streamResponse], calling the sidecar. *)
Definition isDriverEffect (e : Effect) : bool :=
  match e with
  | getSessionCalled _ | streamResponseEntered _ _ | sidecarCalled _ _ => true
  | _ => false
  end.

Definition driverTrace (es : list Effect) : list Effect := List.filter isDriverEffect es.

Lemma driverTrace_app es es' : driverTrace (es ++ es') = driverTrace es ++ driverTrace es'.
Proof. apply List.filter_app. Qed.

Lemma driverTrace_closes closes : Forall isClose closes → driverTrace closes = [].
Proof.
  induction 1 as [|e es [s ->] _ IH]; [done|]. simpl. exact IH.
Qed.

Lemma trace_emit e p :
  driverTrace (effects (emit e p)) = driverTrace (effects p) ++ driverTrace [e].
Proof. simpl. apply driverTrace_app. Qed.

Lemma trace_emit_onStream s call p :
  driverTrace (effects (emit (onStream s call) p)) = driverTrace (effects p).
Proof. rewrite trace_emit. simpl. by rewrite app_nil_r. Qed.

Lemma trace_emitOn r call p :
  driverTrace (effects (emitOn r call p)) = driverTrace (effects p).
Proof. destruct r; simpl; [apply trace_emit_onStream|done]. Qed.

Lemma trace_lookupStream sid eid p :
  driverTrace (effects (lookupStream sid eid p).2) = driverTrace (effects p).
Proof. by rewrite lookupStream_effects. Qed.

Lemma trace_callErrorCallback b p :
  driverTrace (effects (callErrorCallback b p)) = driverTrace (effects p).
Proof.
  destruct b; simpl; [|done]. rewrite driverTrace_app. simpl. by rewrite app_nil_r.
Qed.

Lemma trace_markLastMessageAsCompleteFor sid eid p :
  driverTrace (effects (markLastMessageAsCompleteFor sid eid p)) = driverTrace (effects p).
Proof.
  unfold markLastMessageAsCompleteFor.
  pose proof (trace_lookupStream sid eid p) as H.
  destruct (lookupStream sid eid p) as [r p']. simpl in *.
  by rewrite trace_emitOn.
Qed.

Lemma trace_closeAndRemoveResponseStream sid eid p :
  driverTrace (effects (closeAndRemoveResponseStream sid eid p)) = driverTrace (effects p).
Proof.
  destruct (closeAndRemoveResponseStream_spec sid eid p) as [_ ->].
  rewrite driverTrace_app.
  destruct (JsMap.get _ _); simpl; by rewrite app_nil_r.
Qed.

Lemma trace_closeOpenStreams sid p :
  driverTrace (effects (closeOpenStreams sid p)) = driverTrace (effects p).
Proof.
  unfold closeOpenStreams.
  destruct (closeEach_effects sid (getAllResponseStreams (responseStreams p)) p)
    as (closes & -> & Hall).
  by rewrite driverTrace_app, (driverTrace_closes _ Hall), app_nil_r.
Qed.

Lemma trace_latestOrNewResponseStream sid p :
  driverTrace (effects (latestOrNewResponseStream sid p).2) = driverTrace (effects p).
Proof.
  unfold latestOrNewResponseStream, createNewResponseStream, newExchangeIdForSession.
  destruct (latestResponseStream _); [done|].
  destruct (initResponse _ _) as [r|]; simpl; [|done].
  destruct (JsString.truthy _); [|done].
  by rewrite trace_lookupStream.
Qed.

Create Rewrite HintDb frame.
Hint Rewrite trace_emit_onStream trace_emitOn trace_lookupStream trace_callErrorCallback
  trace_markLastMessageAsCompleteFor trace_closeAndRemoveResponseStream
  trace_closeOpenStreams trace_latestOrNewResponseStream : frame.

(** Splits the conditionals of a dispatcher branch and removes from the
    driver trace what the branch sends to streams. *)
Ltac frame :=
  repeat (first [ case_bool_decide | case_match ]; try subst);
  cbn [provider onProvider setStreamStarted unauthorizedCalls fst snd
       effects setLastThinkingText setStartedStreams setResponseStreams];
  autorewrite with frame; try done.

Lemma trace_dispatchCancelledState request_id l :
  driverTrace (effects (provider (dispatchCancelledState request_id l).2))
  = driverTrace (effects (provider l)).
Proof. unfold dispatchCancelledState. frame. Qed.

Lemma trace_dispatchToolParameter sid eid s fieldName content p :
  driverTrace (effects (dispatchToolParameter sid eid s fieldName content p))
  = driverTrace (effects p).
Proof.
  unfold dispatchToolParameter.
  repeat (destruct (bool_decide _); cbn [orb]); autorewrite with frame; done.
Qed.

Lemma trace_dispatchToolThinking sid eid s currentText p :
  driverTrace (effects (dispatchToolThinking sid eid s currentText p))
  = driverTrace (effects p).
Proof.
  destruct (dispatchToolThinking_spec sid eid s currentText p) as (-> & _).
  rewrite driverTrace_app. unfold thinkingFragment.
  destruct (JsString.truthy _); simpl; by rewrite app_nil_r.
Qed.

Hint Rewrite trace_dispatchToolParameter trace_dispatchToolThinking : frame.

Lemma trace_dispatchSymbolSubStep s symbol_identifier e l :
  driverTrace (effects (provider (dispatchSymbolSubStep s symbol_identifier e l).2))
  = driverTrace (effects (provider l)).
Proof. unfold dispatchSymbolSubStep. frame. Qed.

Lemma trace_dispatchPlan r e p :
  driverTrace (effects (dispatchPlan r e p)) = driverTrace (effects p).
Proof. unfold dispatchPlan. frame. Qed.

Lemma trace_dispatchExchange sid eid r e p :
  driverTrace (effects (dispatchExchange sid eid r e p).2) = driverTrace (effects p).
Proof. unfold dispatchExchange. frame. Qed.

(** What a call of [onUnauthorized] leaves behind: its record among the
    calls of the run, and the request for a session among the effects. *)
Definition callRecord (cb : AuthCallbacks) (n : nat) : option nat :=
  if hasRetried cb then None else Some n.

Definition sessionRequest (cb : AuthCallbacks) : list Effect :=
  if hasRetried cb then [] else [getSessionCalled true].

Lemma callOnUnauthorized_Some cb l :
  let l' := callOnUnauthorized (Some cb) l in
  unauthorizedCalls l' = unauthorizedCalls l ++ [callRecord cb (hostCalls (provider l))]
  ∧ effects (provider l') = effects (provider l) ++ sessionRequest cb
  ∧ responseStreams (provider l') = responseStreams (provider l)
  ∧ startedStreams (provider l') = startedStreams (provider l)
  ∧ streamStarted l' = streamStarted l.
Proof.
  unfold callOnUnauthorized, callRecord, sessionRequest.
  destruct (hasRetried cb); simpl; by rewrite ?app_nil_r.
Qed.

Lemma driverTrace_sessionRequest cb : driverTrace (sessionRequest cb) = sessionRequest cb.
Proof. unfold sessionRequest. by destruct (hasRetried cb). Qed.

(** The driver's view of a dispatch state: the calls of [onUnauthorized] and
    the driver's own effects. *)
Definition sameDriver (l l' : DispatchState) : Prop :=
  unauthorizedCalls l' = unauthorizedCalls l
  ∧ driverTrace (effects (provider l')) = driverTrace (effects (provider l)).

(** A step of the dispatcher either leaves the driver's view as it is, or
    calls [onUnauthorized] once and leaves the loop. *)
Definition callsAfterStep (authCallbacks : option AuthCallbacks) (l : DispatchState)
    (step : Control * DispatchState) : Prop :=
  sameDriver l step.2
  ∨ (step.1 ≠ Continue
     ∧ ∃ cb n,
         authCallbacks = Some cb
         ∧ unauthorizedCalls step.2 = unauthorizedCalls l ++ [callRecord cb n]
         ∧ driverTrace (effects (provider step.2))
           = driverTrace (effects (provider l)) ++ sessionRequest cb).

Lemma callsAfterStep_from authCallbacks l l1 step :
  sameDriver l l1 → callsAfterStep authCallbacks l1 step → callsAfterStep authCallbacks l step.
Proof.
  intros [Hc Ht] [[Hc' Ht']|(Hstop & cb & n & -> & Hc' & Ht')].
  - left. split; congruence.
  - right. split; [done|]. exists cb, n. split; [done|]. split; congruence.
Qed.

Lemma callsAfterStep_then authCallbacks l c l1 l2 :
  callsAfterStep authCallbacks l (c, l1) → sameDriver l1 l2 →
  callsAfterStep authCallbacks l (c, l2).
Proof.
  intros [[Hc Ht]|(Hstop & cb & n & -> & Hc & Ht)] [Hc' Ht']; cbn [fst snd] in *.
  - left. split; cbn [snd]; congruence.
  - right. split; [done|]. exists cb, n. split; [done|]. cbn [snd]. split; congruence.
Qed.

Lemma calls_callOnUnauthorized authCallbacks c l :
  c ≠ Continue → callsAfterStep authCallbacks l (c, callOnUnauthorized authCallbacks l).
Proof.
  intros Hc. destruct authCallbacks as [cb|]; [|by left].
  destruct (callOnUnauthorized_Some cb l) as (Hcalls & Heff & _).
  right. split; [done|]. exists cb, (hostCalls (provider l)). split; [done|].
  cbn [snd]. split; [done|].
  by rewrite Heff, driverTrace_app, driverTrace_sessionRequest.
Qed.

Lemma calls_dispatchError authCallbacks errorCallback request_id message l :
  callsAfterStep authCallbacks l
    (dispatchError authCallbacks errorCallback request_id message l).
Proof.
  unfold dispatchError.
  destruct (isCancelledByUser message); [left; split; frame|].
  set (l1 := if isUnauthorizedAccess message
             then callOnUnauthorized authCallbacks l else l).
  assert (callsAfterStep authCallbacks l (Return, l1)) as Hl1.
  { subst l1. destruct (isUnauthorizedAccess message);
      [by apply calls_callOnUnauthorized|by left]. }
  clearbody l1.
  pose proof (trace_latestOrNewResponseStream request_id (provider l1)) as H.
  destruct (latestOrNewResponseStream _ _) as [target p'].
  cbn [snd] in H. eapply callsAfterStep_then; [exact Hl1|].
  split; cbn [unauthorizedCalls provider onProvider]; [done|].
  rewrite <- H. destruct target; frame.
Qed.

Lemma calls_dispatchToolCallError authCallbacks errorCallback sid s error_string l :
  callsAfterStep authCallbacks l
    (dispatchToolCallError authCallbacks errorCallback sid s error_string l).
Proof.
  unfold dispatchToolCallError.
  set (l1 := if bool_decide (error_string = "Cancelled Response") then _ else _).
  assert (sameDriver l (onProvider (closeOpenStreams sid) l1)) as Hsame.
  { subst l1. split; destruct authCallbacks as [[[]]|];
      repeat (destruct (bool_decide _)); frame. }
  clearbody l1.
  eapply callsAfterStep_from; [exact Hsame|].
  destruct (bool_decide (error_string = unauthorizedToolError));
    [by apply calls_callOnUnauthorized|by left].
Qed.

Lemma calls_dispatchFramework authCallbacks errorCallback sid eid s e l :
  callsAfterStep authCallbacks l
    (dispatchFramework authCallbacks errorCallback sid eid s e l).
Proof.
  destruct e as [| | |[[]|]| |]; cbn [dispatchFramework];
    try apply calls_dispatchToolCallError; left; split; cbn [snd]; frame.
Qed.

Lemma calls_dispatchRouted authCallbacks errorCallback sid eid event l :
  callsAfterStep authCallbacks l
    (dispatchRouted authCallbacks errorCallback sid eid event l).
Proof.
  unfold dispatchRouted.
  pose proof (trace_lookupStream sid eid (provider l)) as Hlook.
  destruct (lookupStream sid eid (provider l)) as [[r|] p0]; cbn [snd] in Hlook;
    [|by left].
  set (l1 := if bool_decide (streamKey sid eid ∈ startedStreams _) then _ else _).
  assert (sameDriver l l1) as Hl1.
  { subst l1. split; case_bool_decide;
      cbn [provider onProvider setStreamStarted unauthorizedCalls];
      try done. cbn [effects setStartedStreams]. by rewrite trace_emit_onStream. }
  clearbody l1. eapply callsAfterStep_from; [exact Hl1|].
  destruct event; try (by left).
  - apply calls_dispatchFramework.
  - left. split; [|apply trace_dispatchSymbolSubStep].
    unfold dispatchSymbolSubStep. repeat case_match; done.
  - pose proof (trace_lookupStream sid eid (provider l1)) as H.
    destruct (lookupStream sid eid (provider l1)) as [r' p']; cbn [snd] in *.
    left. split; [done|]. cbn [snd provider onProvider].
    destruct delta; [|done]. by rewrite trace_emitOn.
  - pose proof (trace_lookupStream sid eid (provider l1)) as H.
    destruct (lookupStream sid eid (provider l1)) as [r' p']; cbn [snd] in *.
    left. split; [done|]. cbn [snd provider onProvider]. by rewrite trace_dispatchPlan.
  - pose proof (trace_lookupStream sid eid (provider l1)) as H.
    destruct (lookupStream sid eid (provider l1)) as [r' p']; cbn [snd] in *.
    pose proof (trace_dispatchExchange sid eid r' e p') as H'.
    destruct (dispatchExchange sid eid r' e p') as [c p'']; cbn [snd] in *.
    left. split; [done|]. cbn [snd provider onProvider]. congruence.
Qed.

Lemma calls_dispatchEvent authCallbacks errorCallback event l :
  callsAfterStep authCallbacks l (dispatchEvent authCallbacks errorCallback event l).
Proof.
  destruct event as [|[]| |request_id exchange_id []]; cbn [dispatchEvent];
    try (by left); try apply calls_dispatchRouted.
  - apply calls_dispatchError.
  - destruct e; try apply calls_dispatchRouted.
    case_bool_decide; [|apply calls_dispatchRouted].
    left. split; [done|apply trace_dispatchCancelledState].
Qed.

Lemma calls_dispatchLoop authCallbacks errorCallback events l :
  callsAfterStep authCallbacks l (dispatchLoop authCallbacks errorCallback events l).
Proof.
  revert l. induction events as [|event rest IH]; intros l; simpl; [by left|].
  pose proof (calls_dispatchEvent authCallbacks errorCallback event l) as Hstep.
  destruct (dispatchEvent authCallbacks errorCallback event l) as [[] l'];
    [|done..].
  destruct Hstep as [Hsame|[Hstop _]]; [|done].
  eapply callsAfterStep_from; [exact Hsame|apply IH].
Qed.

(** A loop that has not stopped has not called [onUnauthorized]. *)
Lemma dispatchLoop_Continue authCallbacks errorCallback events l l' :
  dispatchLoop authCallbacks errorCallback events l = (Continue, l') → sameDriver l l'.
Proof.
  intros H. pose proof (calls_dispatchLoop authCallbacks errorCallback events l) as Hc.
  rewrite H in Hc. by destruct Hc as [Hsame|[Hstop _]].
Qed.

(** A run of the dispatcher calls [onUnauthorized] at most once, and the
    driver's effects it adds are those of that call. *)
Lemma calls_reportAgentEventsToChat sid agentStream authCallbacks errorCallback p :
  let r := reportAgentEventsToChat sid agentStream authCallbacks errorCallback p in
  (onUnauthorizedCalls r = []
   ∧ driverTrace (effects (after r)) = driverTrace (effects p))
  ∨ (∃ cb n,
       authCallbacks = Some cb
       ∧ onUnauthorizedCalls r = [callRecord cb n]
       ∧ driverTrace (effects (after r)) = driverTrace (effects p) ++ sessionRequest cb).
Proof.
  unfold reportAgentEventsToChat.
  pose proof (calls_dispatchLoop authCallbacks errorCallback (streamEvents agentStream)
                {| provider := p; streamStarted := false; unauthorizedCalls := [] |}) as H.
  destruct (dispatchLoop _ _ _ _) as [c l].
  assert (∀ r : DispatchResult,
            onUnauthorizedCalls r = unauthorizedCalls l →
            driverTrace (effects (after r)) = driverTrace (effects (provider l)) →
            (onUnauthorizedCalls r = []
             ∧ driverTrace (effects (after r)) = driverTrace (effects p))
            ∨ (∃ cb n,
                 authCallbacks = Some cb
                 ∧ onUnauthorizedCalls r = [callRecord cb n]
                 ∧ driverTrace (effects (after r))
                   = driverTrace (effects p) ++ sessionRequest cb)) as Hr.
  { intros r Hcalls Htrace.
    destruct H as [[Hc Ht]|(_ & cb & n & -> & Hc & Ht)];
      cbn [snd provider unauthorizedCalls app] in *.
    - left. split; congruence.
    - right. exists cb, n. split; [done|]. split; congruence. }
  set (c' := match c with Continue => _ | _ => c end). clearbody c'.
  destruct c'; try (by apply Hr).
  pose proof (trace_latestOrNewResponseStream sid (provider l)) as Hnew.
  destruct (latestOrNewResponseStream sid (provider l)) as [[r|] p']; cbn [snd] in *;
    apply Hr; cbn [after onUnauthorizedCalls]; try done.
  by autorewrite with frame.
Qed.

Definition sidecarCallOf (event : AideAgentRequest) (workosAccessToken : string)
  : list Effect :=
  match endpointFor event with
  | Some endpoint => [sidecarCalled endpoint workosAccessToken]
  | None => []
  end.

Lemma streamResponseTry_spec event sid url token retried p :
  let t := streamResponseTry event sid url token retried p in
  let cb := {| hasRetried := retried |} in
  (t.2 = []
   ∧ driverTrace (effects t.1.2) = driverTrace (effects p) ++ sidecarCallOf event token)
  ∨ (∃ n,
       t.2 = [callRecord cb n]
       ∧ driverTrace (effects t.1.2)
         = driverTrace (effects p) ++ sidecarCallOf event token ++ sessionRequest cb).
Proof.
  unfold streamResponseTry, sidecarCallOf.
  destruct (endpointFor event) as [endpoint|]; cbn [fst snd];
    [|left; by rewrite app_nil_r].
  set (p1 := tickHost (emit (sidecarCalled endpoint token) p)).
  set (r := reportAgentEventsToChat sid _ _ false p1).
  assert (driverTrace (effects p1)
          = driverTrace (effects p) ++ [sidecarCalled endpoint token]) as Hp1.
  { subst p1. cbn [effects tickHost emit]. by rewrite driverTrace_app. }
  pose proof (calls_reportAgentEventsToChat sid
                (sidecar (hostCalls p) endpoint token event)
                (Some {| hasRetried := retried |}) false p1) as Hr.
  cbn zeta in Hr. fold r in Hr.
  assert (∀ (c : Completion unit) q,
            driverTrace (effects q) = driverTrace (effects (after r)) →
            ((c, q, onUnauthorizedCalls r).2 = []
             ∧ driverTrace (effects (c, q, onUnauthorizedCalls r).1.2)
               = driverTrace (effects p) ++ [sidecarCalled endpoint token])
            ∨ (∃ n,
                 (c, q, onUnauthorizedCalls r).2 = [callRecord {| hasRetried := retried |} n]
                 ∧ driverTrace (effects (c, q, onUnauthorizedCalls r).1.2)
                   = driverTrace (effects p) ++ [sidecarCalled endpoint token]
                     ++ sessionRequest {| hasRetried := retried |})) as Hout.
  { intros c q Hq. cbn [fst snd]. rewrite Hq.
    destruct Hr as [[Hc Ht]|(cb & n & [= <-] & Hc & Ht)].
    - left. split; [done|]. congruence.
    - right. exists n. split; [done|]. rewrite Ht, Hp1. by rewrite <- app_assoc. }
  clearbody r. destruct (outcome r) as [[]|error]; [by apply Hout|].
  pose proof (trace_latestOrNewResponseStream sid (after r)) as Hnew.
  destruct (latestOrNewResponseStream sid (after r)) as [[target|] p2];
    cbn [snd] in Hnew; apply Hout; [|done].
  by autorewrite with frame.
Qed.

Lemma foldl_onUnauthorized_ext restart restart' calls p :
  (∀ token q, restart token q = restart' token q) →
  foldl (λ p call, onUnauthorized restart call p) p calls
  = foldl (λ p call, onUnauthorized restart' call p) p calls.
Proof.
  intros Hext. revert p. induction calls as [|[n|] calls IH]; intros p; simpl; [done|..].
  - by rewrite Hext, IH.
  - apply IH.
Qed.

(** With [hasRetried = true] every call of [onUnauthorized] has returned at
    once: the recursive call is never reached. *)
Lemma streamResponseWith_retried restart event sid url token p :
  let t := streamResponseTry event sid url token true
             (emit (streamResponseEntered token true) p) in
  streamResponseWith restart event sid url token true p = (t.1.1, t.1.2).
Proof.
  unfold streamResponseWith. cbn zeta.
  destruct (streamResponseTry_spec event sid url token true
              (emit (streamResponseEntered token true) p)) as [[Hc _]|(n & Hc & _)];
    destruct (streamResponseTry _ _ _ _ _ _) as [[c p'] calls]; cbn [fst snd] in *;
    by subst calls.
Qed.

(** [streamResponse] satisfies the recursive equation of the source. *)
Lemma streamResponse_unfold event sid url token retried p :
  streamResponse event sid url token retried p
  = streamResponseWith (λ newToken q, (streamResponse event sid url newToken true q).2)
      event sid url token retried p.
Proof.
  unfold streamResponse at 1. unfold streamResponseWith at 1 3.
  destruct (streamResponseTry _ _ _ _ _ _) as [[c p'] calls].
  f_equal. apply foldl_onUnauthorized_ext. intros newToken q.
  unfold streamResponse. by rewrite !streamResponseWith_retried.
Qed.

Lemma streamResponse_retried_trace event sid url token p :
  driverTrace (effects (streamResponse event sid url token true p).2)
  = driverTrace (effects p)
    ++ streamResponseEntered token true :: sidecarCallOf event token.
Proof.
  unfold streamResponse. rewrite streamResponseWith_retried. cbn [snd].
  destruct (streamResponseTry_spec event sid url token true
              (emit (streamResponseEntered token true) p)) as [[_ Ht]|(n & _ & Ht)];
    rewrite Ht; cbn [effects emit sessionRequest hasRetried];
    rewrite driverTrace_app, <- ?app_assoc, ?app_nil_r; done.
Qed.

Lemma hostCalls_lookupStream sid eid p : hostCalls (lookupStream sid eid p).2 = hostCalls p.
Proof. unfold lookupStream. by destruct (getResponseStream _ _). Qed.

Lemma hostCalls_closeAndRemoveResponseStream sid eid p :
  hostCalls (closeAndRemoveResponseStream sid eid p) = hostCalls p.
Proof.
  unfold closeAndRemoveResponseStream.
  pose proof (hostCalls_lookupStream sid eid p) as H.
  destruct (lookupStream sid eid p) as [[r|] p']; simpl in *; done.
Qed.

Lemma hostCalls_closeOpenStreams sid p : hostCalls (closeOpenStreams sid p) = hostCalls p.
Proof.
  unfold closeOpenStreams. generalize (getAllResponseStreams (responseStreams p)).
  intros hs. revert p. induction hs as [|h hs IH]; intros p; simpl; [done|].
  by rewrite IH, hostCalls_closeAndRemoveResponseStream.
Qed.

(** The events on which the dispatcher calls [onUnauthorized]: a top-level
    error whose message mentions "unauthorized access" and is no
    cancellation, and a tool-call error with the unauthorized-access string
    on an exchange that has a registered stream. *)
Definition authorizationError (event : SideCarAgentEvent) (p : AideAgentSessionProvider)
  : bool :=
  match event with
  | uiEvent request_id exchange_id (ErrorEvent message) =>
      negb (isCancelledByUser message) && isUnauthorizedAccess message
  | uiEvent request_id exchange_id (FrameworkEv (ToolCallError error_string)) =>
      bool_decide (error_string = unauthorizedToolError)
      && bool_decide (is_Some (JsMap.get (streamKey request_id exchange_id)
                                 (responseStreamCollection (responseStreams p))))
  | _ => false
  end.

(** On such an event the dispatcher calls [onUnauthorized] once, as the
    host's next call, and returns. *)
Lemma authorizationError_calls cb errorCallback event l :
  authorizationError event (provider l) = true →
  ∃ l',
    dispatchEvent (Some cb) errorCallback event l = (Return, l')
    ∧ unauthorizedCalls l'
      = unauthorizedCalls l ++ [callRecord cb (hostCalls (provider l))]
    ∧ driverTrace (effects (provider l'))
      = driverTrace (effects (provider l)) ++ sessionRequest cb.
Proof.
  destruct event as [| | |request_id exchange_id [message|[]| | | | | | |]]; try done.
  - intros [Hnc Hun]%andb_true_iff. apply negb_true_iff in Hnc.
    cbn [dispatchEvent]. unfold dispatchError. rewrite Hnc, Hun.
    destruct (callOnUnauthorized_Some cb l) as (Hcalls & Heff & _).
    pose proof (trace_latestOrNewResponseStream request_id
                  (provider (callOnUnauthorized (Some cb) l))) as H.
    destruct (latestOrNewResponseStream _ _) as [target p']. cbn [snd] in H.
    eexists. split; [reflexivity|]. cbn [unauthorizedCalls provider onProvider].
    split; [done|].
    rewrite Heff, driverTrace_app, driverTrace_sessionRequest in H. rewrite <- H.
    destruct target; frame.
  - intros [Herr Hreg]%andb_true_iff.
    apply bool_decide_eq_true_1 in Herr as ->.
    apply bool_decide_eq_true_1 in Hreg as [r Hget].
    cbn [dispatchEvent]. unfold dispatchRouted.
    rewrite (lookupStream_Some _ _ _ _ Hget).
    set (l1 := if bool_decide (_ ∈ _) then _ else _).
    assert (unauthorizedCalls l1 = unauthorizedCalls l
            ∧ hostCalls (provider l1) = hostCalls (provider l)
            ∧ driverTrace (effects (provider l1)) = driverTrace (effects (provider l)))
      as (Hc1 & Hh1 & Ht1).
    { subst l1. case_bool_decide; cbn; [done|]. split; [done|]. split; [done|].
      rewrite driverTrace_app. simpl. by rewrite app_nil_r. }
    clearbody l1. cbn [dispatchFramework]. unfold dispatchToolCallError.
    rewrite (bool_decide_eq_false_2 (unauthorizedToolError = "Cancelled Response")) by done.
    rewrite !(bool_decide_eq_true_2 (unauthorizedToolError = unauthorizedToolError)) by done.
    set (l2 := onProvider (closeOpenStreams request_id) _).
    assert (unauthorizedCalls l2 = unauthorizedCalls l
            ∧ hostCalls (provider l2) = hostCalls (provider l)
            ∧ driverTrace (effects (provider l2)) = driverTrace (effects (provider l)))
      as (Hc2 & Hh2 & Ht2).
    { subst l2. destruct (hasRetried cb);
        cbn [onProvider provider unauthorizedCalls];
        rewrite hostCalls_closeOpenStreams; autorewrite with frame; done. }
    clearbody l2.
    destruct (callOnUnauthorized_Some cb l2) as (Hcalls & Heff & _).
    eexists. split; [reflexivity|]. rewrite Hcalls, Heff, Hc2, Hh2. split; [done|].
    by rewrite driverTrace_app, driverTrace_sessionRequest, Ht2.
Qed.

Lemma streamResponseWith_retried_trace restart event sid url token p :
  driverTrace (effects (streamResponseWith restart event sid url token true p).2)
  = driverTrace (effects p)
    ++ streamResponseEntered token true :: sidecarCallOf event token.
Proof.
  rewrite streamResponseWith_retried. cbn [snd].
  destruct (streamResponseTry_spec event sid url token true
              (emit (streamResponseEntered token true) p)) as [[_ Ht]|(n & _ & Ht)];
    rewrite Ht; cbn [effects emit sessionRequest hasRetried];
    rewrite driverTrace_app, <- ?app_assoc, ?app_nil_r; done.
Qed.

(** *** The dispatcher: cancellation by the user *)

(** C1 (as the code has it). Wherever it comes in the stream, a top-level
    error event whose message ends with "cancelled by user" makes the
    dispatcher set stage "Cancelled" on the latest stream if there is one
    and then only close streams: every stream registered for the event's
    session (under the composite key of the event's request id and the
    stream's own exchange id) is closed and is no longer registered
    afterwards; [onUnauthorized] is not called; and the dispatcher returns
    without throwing, whatever follows in the stream. [before] is what the
    loop has gone through before the event, and [l] the state it is in. *)
Theorem cancelled_by_user_teardown
    (authCallbacks : option AuthCallbacks) (errorCallback : bool)
    (sessionId request_id exchange_id message : string)
    (before rest : list SideCarAgentEvent) (failure : option Exn)
    (p : AideAgentSessionProvider) (l : DispatchState) :
  JsString.endsWith "cancelled by user" message = true →
  dispatchLoop authCallbacks errorCallback before
    {| provider := p; streamStarted := false; unauthorizedCalls := [] |} = (Continue, l) →
  let r := reportAgentEventsToChat sessionId
             {| streamEvents :=
                  before ++ uiEvent request_id exchange_id (ErrorEvent message) :: rest;
                streamFailure := failure |}
             authCallbacks errorCallback p in
  let cancelled :=
    match latestResponseStream (responseStreams (provider l)) with
    | Some latest => [onStream (stream latest) (stage "Cancelled")]
    | None => []
    end in
  outcome r = Returned ()
  ∧ onUnauthorizedCalls r = []
  ∧ ∃ closes,
      effects (after r) = effects (provider l) ++ cancelled ++ closes
      ∧ Forall isClose closes
      ∧ ∀ h, JsMap.get (streamKey request_id (responseExchangeId h))
               (responseStreamCollection (responseStreams (provider l))) = Some h →
             JsMap.get (streamKey request_id (responseExchangeId h))
               (responseStreamCollection (responseStreams (after r))) = None
             ∧ onStream (stream h) close ∈ closes.
Proof.
  intros Hends Hbefore r cancelled. subst r cancelled.
  assert (isCancelledByUser message = true) as Hcancel.
  { unfold isCancelledByUser. by apply JsString.endsWith_toLowerCase. }
  destruct (dispatchLoop_Continue _ _ _ _ _ Hbefore) as [Hcalls _].
  cbn [unauthorizedCalls] in Hcalls.
  unfold reportAgentEventsToChat. cbn [streamEvents].
  rewrite (dispatchLoop_app _ _ _ _ _ _ Hbefore). cbn [dispatchLoop dispatchEvent].
  rewrite (dispatchError_cancelled _ _ _ _ _ Hcancel).
  cbn [outcome after onUnauthorizedCalls provider onProvider setStreamStarted
       unauthorizedCalls].
  split; [done|]. split; [done|].
  set (p1 := emitOn (latestResponseStream (responseStreams (provider l)))
               (stage "Cancelled") (provider l)).
  assert (responseStreams p1 = responseStreams (provider l)) as Hrs.
  { unfold p1, emitOn. by destruct (latestResponseStream _). }
  assert (effects p1 = effects (provider l) ++
            match latestResponseStream (responseStreams (provider l)) with
            | Some latest => [onStream (stream latest) (stage "Cancelled")]
            | None => []
            end) as Heff.
  { unfold p1, emitOn. destruct (latestResponseStream _); simpl; by rewrite ?app_nil_r. }
  destruct (closeOpenStreams_closes request_id p1) as (closes & -> & Hall & Hin).
  exists closes. rewrite Heff, <- app_assoc. split; [done|]. split; [done|].
  intros h Hget. apply Hin. by rewrite Hrs.
Qed.

(** *** The session driver: the retry *)

(** C3 (as the code has it). On the first attempt ([hasRetried = false]),
    when an authorization error reaches the dispatcher (see
    [authorizationError]; [before] is what the loop has gone through before
    it), the driver asks for a session with [hardCheck = true], as the
    host's next call, and enters [streamResponse] again, once, with the
    token of that session and [hasRetried = true], making the same sidecar
    call; these are all the driver does. On a retried call
    ([hasRetried = true]) the same event makes the dispatcher call
    [onUnauthorized], which returns at once: no session is asked for; and
    the retried call as a whole enters [streamResponse] once and calls the
    sidecar once, whatever its events are. *)
Theorem unauthorized_retry_once (event : AideAgentRequest)
    (sessionId editorUrl token endpoint : string)
    (before rest : list SideCarAgentEvent) (error : SideCarAgentEvent)
    (l : DispatchState) (p : AideAgentSessionProvider) :
  let entered := emit (streamResponseEntered token false) p in
  let called := tickHost (emit (sidecarCalled endpoint token) entered) in
  endpointFor event = Some endpoint →
  streamEvents (sidecar (hostCalls entered) endpoint token event)
  = before ++ error :: rest →
  dispatchLoop (Some {| hasRetried := false |}) false before
    {| provider := called; streamStarted := false; unauthorizedCalls := [] |}
  = (Continue, l) →
  authorizationError error (provider l) = true →
  let newToken := default "" (getSession (hostCalls (provider l)) true) in
  driverTrace (effects (streamResponse event sessionId editorUrl token false p).2)
  = driverTrace (effects p)
    ++ [streamResponseEntered token false; sidecarCalled endpoint token;
        getSessionCalled true;
        streamResponseEntered newToken true; sidecarCalled endpoint newToken]
  ∧ (∀ errorCallback l1,
       authorizationError error (provider l1) = true →
       ∃ l2,
         dispatchEvent (Some {| hasRetried := true |}) errorCallback error l1
         = (Return, l2)
         ∧ unauthorizedCalls l2 = unauthorizedCalls l1 ++ [None]
         ∧ driverTrace (effects (provider l2)) = driverTrace (effects (provider l1)))
  ∧ (∀ retryToken q,
       driverTrace
         (effects (streamResponse event sessionId editorUrl retryToken true q).2)
       = driverTrace (effects q)
         ++ [streamResponseEntered retryToken true; sidecarCalled endpoint retryToken]).
Proof.
  intros entered called Hep Hevents Hbefore Herr newToken.
  assert (∀ tk, sidecarCallOf event tk = [sidecarCalled endpoint tk]) as Hcall.
  { intros tk. unfold sidecarCallOf. by rewrite Hep. }
  split; [|split].
  - destruct (dispatchLoop_Continue _ _ _ _ _ Hbefore) as [Hcalls Htrace].
    cbn [unauthorizedCalls provider] in Hcalls, Htrace.
    destruct (authorizationError_calls {| hasRetried := false |} false error l Herr)
      as (l' & Hstep & Hcalls' & Htrace').
    unfold streamResponse at 1, streamResponseWith at 1. fold entered.
    unfold streamResponseTry. rewrite Hep. fold called.
    unfold reportAgentEventsToChat. rewrite Hevents.
    rewrite (dispatchLoop_app _ _ _ _ _ _ Hbefore). cbn [dispatchLoop].
    rewrite Hstep. cbn [outcome after onUnauthorizedCalls fst snd].
    rewrite Hcalls', Hcalls.
    cbn [app foldl onUnauthorized callRecord hasRetried].
    fold newToken.
    rewrite streamResponseWith_retried_trace, Hcall, Htrace', Htrace.
    subst called entered. cbn [effects tickHost emit sessionRequest hasRetried].
    rewrite !driverTrace_app. cbn. by rewrite <- !app_assoc.
  - intros errorCallback l1 Herr1.
    destruct (authorizationError_calls {| hasRetried := true |} errorCallback error l1 Herr1)
      as (l2 & Hstep & Hcalls & Htrace).
    exists l2. split; [done|]. split; [done|].
    cbn [sessionRequest hasRetried] in Htrace. by rewrite app_nil_r in Htrace.
  - intros retryToken q. rewrite <- Hcall.
    unfold streamResponse. apply streamResponseWith_retried_trace.
Qed.

End Provider.

(** ** Scenarios *)

Definition noResponse : nat → string → option AideAgentEventSenderResponse :=
  λ _ _, None.

Definition streamOne : AideAgentEventSenderResponse :=
  {| stream := 1; responseExchangeId := "e1" |}.
Definition streamTwo : AideAgentEventSenderResponse :=
  {| stream := 2; responseExchangeId := "e2" |}.

(** One exchange open in session "s1". *)
Definition oneSession : AideAgentSessionProvider :=
  setResponseStreams
    (addResponseStream {| sessionId := "s1"; exchangeId := "e1" |} streamOne
       emptyCollection)
    (newProvider ∅).

(** One exchange open in each of the sessions "s1" and "s2". *)
Definition twoSessions : AideAgentSessionProvider :=
  setResponseStreams
    (addResponseStream {| sessionId := "s2"; exchangeId := "e2" |} streamTwo
       (responseStreams oneSession))
    (newProvider ∅).

Definition cancelledStream : AgentEventStream :=
  {| streamEvents := [uiEvent "s1" "e1" (ErrorEvent "Request cancelled by user")];
     streamFailure := None |}.

(** C1, the claim as stated fails: with a stream of another session
    registered, the cancellation of session "s1" does not close and remove
    every registered stream; the stream of "s2" stays registered and open. *)
Lemma cancelled_leaves_other_session_open :
  let r := reportAgentEventsToChat noResponse "s1" cancelledStream None false twoSessions in
  JsString.endsWith "cancelled by user" "Request cancelled by user" = true
  ∧ ¬ (∀ h, h ∈ getAllResponseStreams (responseStreams twoSessions) →
            (h ∉ getAllResponseStreams (responseStreams (after r)))
            ∧ (onStream (stream h) close ∈ effects (after r))).
Proof.
  split; [reflexivity|]. intros Hall.
  destruct (Hall streamTwo) as [Hgone _].
  - vm_compute. right. left.
  - apply Hgone. vm_compute. left.
Qed.

(** The cancellation arrives after the stream has started and an event of
    the exchange has been handled. *)
Definition cancelledLater : list SideCarAgentEvent :=
  [sessionStart true; uiEvent "s1" "e1" (FrameworkEv (ToolThinking "abc"))].

Lemma cancelled_by_user_teardown_witness :
  let l0 := {| provider := twoSessions; streamStarted := false; unauthorizedCalls := [] |} in
  let l := (dispatchLoop noResponse None false cancelledLater l0).2 in
  JsString.endsWith "cancelled by user" "Request cancelled by user" = true
  ∧ dispatchLoop noResponse None false cancelledLater l0 = (Continue, l)
  ∧ streamStarted l = true
  ∧ outcome (reportAgentEventsToChat noResponse "s1"
               {| streamEvents := cancelledLater ++ streamEvents cancelledStream;
                  streamFailure := None |} None false twoSessions)
    = Returned ().
Proof.
  intros l0 l.
  assert (dispatchLoop noResponse None false cancelledLater l0 = (Continue, l)) as Hbefore
    by (vm_compute; reflexivity).
  split; [reflexivity|]. split; [exact Hbefore|]. split; [vm_compute; reflexivity|].
  apply (cancelled_by_user_teardown noResponse None false "s1" "s1" "e1"
           "Request cancelled by user" cancelledLater [] None twoSessions l).
  - reflexivity.
  - exact Hbefore.
Defined.

(** C8, the claim as stated fails: the key ("a", "b-c") is not the key
    ("a-b", "c") that was looked up last, and removing it clears the latest
    reference all the same, the two having the same composite string. *)
Lemma remove_other_key_clears_latest :
  let k1 := {| sessionId := "a-b"; exchangeId := "c" |} in
  let k2 := {| sessionId := "a"; exchangeId := "b-c" |} in
  let looked := getResponseStream k1 (addResponseStream k1 streamOne emptyCollection) in
  k2 ≠ k1
  ∧ looked.1 = Some streamOne
  ∧ latestResponseStream looked.2 = Some streamOne
  ∧ latestResponseStream (removeResponseStream k2 looked.2) = None.
Proof. repeat split; done. Qed.

Lemma remove_latest_witness :
  let k := {| sessionId := "s1"; exchangeId := "e1" |} in
  let c := (getResponseStream k (addResponseStream k streamOne emptyCollection)).2 in
  reachable c ∧ latestResponseStream (removeResponseStream k c) = None.
Proof.
  intros k c.
  assert (reachable c) as Hreach.
  { exact (reachable_get k _ (reachable_add k streamOne _ reachable_new)). }
  split; [exact Hreach|].
  apply (proj1 (proj2 (remove_latest c k Hreach)) streamOne). reflexivity.
Defined.

Definition thinkingEvent (text : string) : SideCarAgentEvent :=
  uiEvent "s1" "e1" (FrameworkEv (ToolThinking text)).

Definition freshRun : DispatchState :=
  {| provider := oneSession; streamStarted := false; unauthorizedCalls := [] |}.

(** C4, the claim as stated fails: after "abc", the event carrying "abcdef"
    does not send the markdown fragment "def"; what it sends ends with a
    newline. *)
Lemma thinking_fragment_is_not_bare_delta :
  let l1 := (dispatchEvent noResponse None false (thinkingEvent "abc") freshRun).2 in
  let l2 := (dispatchEvent noResponse None false (thinkingEvent "abcdef") l1).2 in
  effects (provider l2) ≠ effects (provider l1) ++ [onStream 1 (markdown "def")].
Proof. vm_compute. intros H. discriminate H. Qed.

Lemma toolThinking_sends_delta_and_newline_witness :
  let l1 := (dispatchEvent noResponse None false (thinkingEvent "abc") freshRun).2 in
  let l2 := (dispatchEvent noResponse None false (thinkingEvent "abcdef") l1).2 in
  JsMap.get (streamKey "s1" "e1")
    (responseStreamCollection (responseStreams (provider freshRun))) = Some streamOne
  ∧ effects (provider l2)
    = effects (provider l1)
      ++ [onStream 1 (markdown (String "d" (String "e" (String "f" (String newline "")))))].
Proof.
  split; [reflexivity|].
  apply (toolThinking_sends_delta_and_newline noResponse None false "s1" "e1" streamOne
           "abc" "abcdef" freshRun); reflexivity.
Defined.

Definition originRange : Range :=
  {| rangeStart := {| line := 0; character := 0 |};
     rangeEnd := {| line := 0; character := 0 |} |}.

Definition editRequest (e : EditStreamEvent) : EditedCodeStreamingRequest :=
  {| edit_request_id := "edit-1"; esr_session_id := "s1"; esr_exchange_id := "e1";
     plan_step_id := None; esr_fs_file_path := "/a.ts"; esr_range := originRange;
     esr_apply_directly := true; esr_event := e |}.

Definition creationSucceeds : nat → string → bool := λ _ _, true.

(** The provider after [Start] on an existing file. *)
Definition editStarted : AideAgentSessionProvider :=
  (provideEditStreamed creationSucceeds (editRequest Start)
     (newProvider {["/a.ts" := "x"]})).2.

Lemma provideEditStreamed_second_End_throws_witness :
  let afterEnd := (provideEditStreamed creationSucceeds (editRequest End_) editStarted).2 in
  (provideEditStreamed creationSucceeds (editRequest End_) editStarted).1 = Returned editDone
  ∧ provideEditStreamed creationSucceeds (editRequest End_) afterEnd
    = (Thrown undefinedAnswerSplitter, afterEnd).
Proof.
  split; [reflexivity|].
  apply (provideEditStreamed_second_End_throws creationSucceeds (editRequest End_)
           editStarted); reflexivity.
Defined.

Definition plainEdit : SidecarApplyEditsRequest :=
  {| apply_fs_file_path := "/a.ts"; apply_edited_content := "y";
     apply_selected_range := originRange; apply_directly := false |}.

Definition editApplied : SidecarApplyEditsRequest → nat → EditResponse :=
  λ request _, {| fs_file_path := apply_fs_file_path request; success := true |}.

Lemma provideEdit_without_open_stream_witness :
  apply_directly plainEdit = false
  ∧ openResponseStream oneSession = None
  ∧ provideEdit editApplied plainEdit oneSession
    = ({| fs_file_path := "/a.ts"; success := true |}, oneSession).
Proof.
  split; [reflexivity|]. split; [reflexivity|].
  apply (provideEdit_without_open_stream editApplied plainEdit oneSession); reflexivity.
Defined.

(** A sidecar that answers the first call with a stream that starts, sends
    thinking text and then an unauthorized-access tool error, all on the
    exchange "e1", and every later call with an end of stream. *)
Definition rejectingSidecar : nat → string → string → AideAgentRequest → AgentEventStream :=
  λ calls _ _ _,
    match calls with
    | 0 => {| streamEvents :=
                [sessionStart true;
                 uiEvent "s1" "e1" (FrameworkEv (ToolThinking "abc"));
                 uiEvent "s1" "e1" (FrameworkEv (ToolCallError unauthorizedToolError));
                 doneEvent];
              streamFailure := None |}
    | _ => {| streamEvents := [doneEvent]; streamFailure := None |}
    end.

(** A sidecar whose unauthorized-access tool error is for the exchange "e9". *)
Definition strayErrorSidecar
  : nat → string → string → AideAgentRequest → AgentEventStream :=
  λ _ _ _ _,
    {| streamEvents :=
         [uiEvent "s1" "e9" (FrameworkEv (ToolCallError unauthorizedToolError))];
       streamFailure := None |}.

Definition sessions : nat → bool → option string :=
  λ _ hardCheck, if hardCheck then Some "fresh-token" else Some "stale-token".

Definition chatRequest : AideAgentRequest :=
  {| prompt := "hello"; req_sessionId := "s1"; req_exchangeId := "e1";
     mode := Chat; scope := Selection; isDevtoolsContext := false |}.

(** C3, the claim as stated fails: an authorization error that arrives for
    an exchange without a registered stream (here "e9", with "e1" the only
    one registered) is passed over like any other event for that exchange;
    no session is asked for and the call is not restarted. *)
Lemma unauthorized_error_without_stream_not_retried :
  let result := streamResponse noResponse strayErrorSidecar sessions chatRequest "s1"
                  "http://localhost:42427" "stale-token" false oneSession in
  streamEvents (strayErrorSidecar 0 "agentSessionChat" "stale-token" chatRequest)
  = [uiEvent "s1" "e9" (FrameworkEv (ToolCallError unauthorizedToolError))]
  ∧ driverTrace (effects result.2)
    = [streamResponseEntered "stale-token" false;
       sidecarCalled "agentSessionChat" "stale-token"].
Proof. split; vm_compute; reflexivity. Qed.

Lemma unauthorized_retry_once_witness :
  let entered := emit (streamResponseEntered "stale-token" false) oneSession in
  let called := tickHost (emit (sidecarCalled "agentSessionChat" "stale-token") entered) in
  let l0 := {| provider := called; streamStarted := false; unauthorizedCalls := [] |} in
  let before := [sessionStart true; uiEvent "s1" "e1" (FrameworkEv (ToolThinking "abc"))] in
  let error := uiEvent "s1" "e1" (FrameworkEv (ToolCallError unauthorizedToolError)) in
  let l := (dispatchLoop noResponse (Some {| hasRetried := false |}) false before l0).2 in
  endpointFor chatRequest = Some "agentSessionChat"
  ∧ streamEvents (rejectingSidecar (hostCalls entered) "agentSessionChat" "stale-token"
                    chatRequest) = before ++ error :: [doneEvent]
  ∧ dispatchLoop noResponse (Some {| hasRetried := false |}) false before l0 = (Continue, l)
  ∧ authorizationError error (provider l) = true
  ∧ driverTrace
      (effects (streamResponse noResponse rejectingSidecar sessions chatRequest "s1"
                  "http://localhost:42427" "stale-token" false oneSession).2)
    = [streamResponseEntered "stale-token" false;
       sidecarCalled "agentSessionChat" "stale-token";
       getSessionCalled true;
       streamResponseEntered "fresh-token" true;
       sidecarCalled "agentSessionChat" "fresh-token"].
Proof.
  intros entered called l0 before error l.
  assert (dispatchLoop noResponse (Some {| hasRetried := false |}) false before l0
          = (Continue, l)) as Hbefore by (vm_compute; reflexivity).
  assert (authorizationError error (provider l) = true) as Herr
    by (vm_compute; reflexivity).
  split; [reflexivity|]. split; [reflexivity|]. split; [exact Hbefore|].
  split; [exact Herr|].
  exact (proj1 (unauthorized_retry_once noResponse rejectingSidecar sessions chatRequest
                  "s1" "http://localhost:42427" "stale-token" "agentSessionChat"
                  before [doneEvent] error l oneSession
                  eq_refl eq_refl Hbefore Herr)).
Defined.

(** * Indentation detection ([completions/detectIndent.ts]) *)

Module DetectIndent.

(** ** A [Map] in insertion order whose keys may be [undefined] *)

Section Indents.
Context {V : Type}.

Fixpoint get (k : option string) (m : list (option string * V)) : option V :=
  match m with
  | [] => None
  | (k', v) :: m' => if decide (k' = k) then Some v else get k m'
  end.

Fixpoint set (k : option string) (v : V) (m : list (option string * V))
  : list (option string * V) :=
  match m with
  | [] => [(k, v)]
  | (k', v') :: m' =>
      if decide (k' = k) then (k, v) :: m' else (k', v') :: set k v m'
  end.

End Indents.

Definition tab : ascii := "009"%char.
Definition space : ascii := " "%char.

Definition INDENT_TYPE_SPACE : string := "space".
Definition INDENT_TYPE_TAB : string := "tab".

(** [string.split(/\n/g)]; [cur] is the line being read. *)
Fixpoint splitNewline (cur : string) (text : string) : list string :=
  match text with
  | EmptyString => [cur]
  | String c rest =>
      if decide (c = newline) then cur :: splitNewline "" rest
      else splitNewline (cur +:+ String c "") rest
  end.

(** The longest prefix of [s] made of the character [c]. *)
Fixpoint leading (c : ascii) (s : string) : string :=
  match s with
  | EmptyString => EmptyString
  | String a s' => if decide (a = c) then String a (leading c s') else EmptyString
  end.

(** [line.match(INDENT_REGEX)] with [INDENT_REGEX = /^(?:( )+|\t+)/]: the
    match [matches[0]] and the group [matches[1]], which is a space when the
    first alternative matched and [undefined] otherwise; [None] is [null]. *)
Definition matchIndent (line : string) : option (string * option string) :=
  match line with
  | EmptyString => None
  | String a _ =>
      if decide (a = space) then Some (leading space line, Some (String space ""))
      else if decide (a = tab) then Some (leading tab line, None)
      else None
  end.

(** Encode the indent type and amount as a string (e.g. 's4'). *)
Definition encodeIndentsKey (indentType : string) (indentAmount : nat) : string :=
  let typeCharacter := if decide (indentType = INDENT_TYPE_SPACE) then "s" else "t" in
  typeCharacter +:+ JsString.ofNat indentAmount.

(** [Number(s)] for [s] a string of decimal digits (the empty string
    gives 0); [None] on every other string, which the embedding does not
    cover. The keys of the indents map are a type character followed by
    decimal digits. *)
Fixpoint Number (s : string) : option nat :=
  match s with
  | EmptyString => Some 0
  | String c s' =>
      d ← Ascii.is_nat c;
      v ← Number s';
      Some (d * 10 ^ String.length s' + v)
  end.

(** Extract the indent type and amount from a key of the indents map. *)
Definition decodeIndentsKey (indentsKey : string) : string * option nat :=
  let keyHasTypeSpace :=
    match indentsKey with
    | String c _ => bool_decide (c = "s"%char)
    | EmptyString => false
    end in
  let type := if keyHasTypeSpace then INDENT_TYPE_SPACE else INDENT_TYPE_TAB in
  let amount := Number (JsString.slice 1 indentsKey) in
  (type, amount).

Record IndentsState := {
  indents : list (option string * (nat * nat));
  previousSize : nat;
  (** [None] is [undefined] *)
  previousIndentType : option string;
  key : option string;
}.

Definition initialState : IndentsState :=
  {| indents := []; previousSize := 0; previousIndentType := None; key := None |}.

(** One turn of [for (const line of string.split(/\n/g))]. *)
Definition indentsStep (ignoreSingleSpaces : bool) (st : IndentsState) (line : string)
  : IndentsState :=
  if bool_decide (line = "") then st
  else
    match matchIndent line with
    | None =>
        {| indents := indents st; previousSize := 0;
           previousIndentType := Some ""; key := key st |}
    | Some (matches0, matches1) =>
        let indent := String.length matches0 in
        let indentType :=
          if optionTruthy matches1 then INDENT_TYPE_SPACE else INDENT_TYPE_TAB in
        if ignoreSingleSpaces && bool_decide (indentType = INDENT_TYPE_SPACE)
           && bool_decide (indent = 1)
        then st
        else
          let previousSize0 :=
            if bool_decide (Some indentType = previousIndentType st)
            then previousSize st else 0 in
          let indentDifference := (Z.of_nat indent - Z.of_nat previousSize0)%Z in
          let '(use, weight, key') :=
            if bool_decide (indentDifference = 0%Z) then (0, 1, key st)
            else
              let absoluteIndentDifference :=
                if bool_decide (0 < indentDifference)%Z
                then indentDifference else (- indentDifference)%Z in
              (1, 0, Some (encodeIndentsKey indentType (Z.to_nat absoluteIndentDifference))) in
          let entry :=
            match get key' (indents st) with
            | None => (1, 0)
            | Some (used, w) => (used + use, w + weight)
            end in
          {| indents := set key' entry (indents st); previousSize := indent;
             previousIndentType := Some indentType; key := key' |}
    end.

Definition makeIndentsMap (text : string) (ignoreSingleSpaces : bool)
  : list (option string * (nat * nat)) :=
  indents (foldl (indentsStep ignoreSingleSpaces) initialState (splitNewline "" text)).

(** The loop of [getMostUsedKey]: [result], [maxUsed], [maxWeight]. *)
Definition mostUsedStep (acc : option string * nat * nat)
    (entry : option string * (nat * nat)) : option string * nat * nat :=
  let '(result, maxUsed, maxWeight) := acc in
  let '(k, (usedCount, weight)) := entry in
  if bool_decide (maxUsed < usedCount)
     || (bool_decide (usedCount = maxUsed) && bool_decide (maxWeight < weight))
  then (k, usedCount, weight)
  else acc.

(** Return the key from the indents map that represents the most common
    indent, or [None] ([undefined]) if there are no indents. *)
Definition getMostUsedKey (m : list (option string * (nat * nat))) : option string :=
  (foldl mostUsedStep (None, 0, 0) m).1.1.

Fixpoint repeatChar (c : ascii) (amount : nat) : string :=
  match amount with
  | 0 => EmptyString
  | S n => String c (repeatChar c n)
  end.

Definition makeIndentString (type : string) (amount : nat) : string :=
  let indentCharacter := if decide (type = INDENT_TYPE_SPACE) then space else tab in
  repeatChar indentCharacter amount.

Record Indent := {
  amount : option nat;
  type : option string;
  indent : string;
}.

(** [detectIndent]. The amount is [Some n] for the number [n]; it is [None]
    only where [Number] is. *)
Definition detectIndent (text : string) : Indent :=
  let indents0 := makeIndentsMap text true in
  let indents1 :=
    if bool_decide (length indents0 = 0) then makeIndentsMap text false else indents0 in
  match getMostUsedKey indents1 with
  | Some keyOfMostUsedIndent =>
      let '(type, amount) := decodeIndentsKey keyOfMostUsedIndent in
      {| amount := amount; type := Some type;
         indent := match amount with
                   | Some n => makeIndentString type n
                   | None => ""
                   end |}
  | None => {| amount := Some 0; type := None; indent := "" |}
  end.

(** ** Keys: encoding and decoding *)

Lemma is_nat_pretty_N_char (x : N) :
  (x < 10)%N → Ascii.is_nat (pretty_N_char x) = Some (N.to_nat x).
Proof.
  intros Hx.
  assert (x = 0 ∨ x = 1 ∨ x = 2 ∨ x = 3 ∨ x = 4 ∨ x = 5 ∨ x = 6 ∨ x = 7
          ∨ x = 8 ∨ x = 9)%N as Hcases by lia.
  repeat (destruct Hcases as [->|Hcases]; [reflexivity|]). by subst.
Qed.

Lemma Number_pretty_N_go (x : N) (s : string) (v : nat) :
  Number s = Some v →
  Number (pretty_N_go x s) = Some (N.to_nat x * 10 ^ String.length s + v).
Proof.
  revert s v. induction (N.lt_wf_0 x) as [x _ IH]; intros s v Hs.
  destruct (decide (x = 0)%N) as [->|Hx].
  - rewrite pretty_N_go_0, Hs. done.
  - rewrite pretty_N_go_step by lia.
    erewrite IH; [| apply N.div_lt; lia |].
    2:{ simpl. rewrite is_nat_pretty_N_char by (apply N.mod_lt; lia).
        simpl. rewrite Hs. simpl. reflexivity. }
    f_equal. simpl String.length.
    pose proof (N.div_mod x 10 ltac:(lia)) as Hdm.
    assert (N.to_nat x = 10 * N.to_nat (x `div` 10) + N.to_nat (x `mod` 10)) as ->.
    { rewrite <- (N2Nat.inj_mul 10), <- N2Nat.inj_add. by rewrite <- Hdm. }
    rewrite Nat.pow_succ_r'. lia.
Qed.

(** [Number(String(n)) = n] *)
Lemma Number_ofNat (n : nat) : Number (JsString.ofNat n) = Some n.
Proof.
  unfold JsString.ofNat, pretty, pretty_nat, pretty, pretty_N.
  destruct (decide (N.of_nat n = 0)%N) as [H0|Hn].
  - assert (n = 0) as -> by lia. reflexivity.
  - rewrite (Number_pretty_N_go _ "" 0) by done. f_equal. simpl. lia.
Qed.

Lemma decodeIndentsKey_encodeIndentsKey (indentType : string) (indentAmount : nat) :
  decodeIndentsKey (encodeIndentsKey indentType indentAmount)
  = (if decide (indentType = INDENT_TYPE_SPACE) then INDENT_TYPE_SPACE
     else INDENT_TYPE_TAB,
     Some indentAmount).
Proof.
  unfold decodeIndentsKey, encodeIndentsKey.
  destruct (decide (indentType = INDENT_TYPE_SPACE)).
  - change ("s" +:+ JsString.ofNat indentAmount)
      with (String "s" (JsString.ofNat indentAmount)).
    simpl. by rewrite Number_ofNat.
  - change ("t" +:+ JsString.ofNat indentAmount)
      with (String "t" (JsString.ofNat indentAmount)).
    simpl. by rewrite Number_ofNat.
Qed.

(** X1. A key decodes to the type and amount it was made from; a type that
    is not 'space' is encoded, and so decoded, as a tab. *)
Theorem decode_encode_indents_key (indentType : string) (indentAmount : nat) :
  decodeIndentsKey (encodeIndentsKey indentType indentAmount)
  = (if decide (indentType = INDENT_TYPE_SPACE) then INDENT_TYPE_SPACE
     else INDENT_TYPE_TAB,
     Some indentAmount).
Proof. apply decodeIndentsKey_encodeIndentsKey. Qed.

Lemma length_repeatChar c n : String.length (repeatChar c n) = n.
Proof. induction n as [|n IH]; simpl; auto. Qed.

Lemma leading_repeatChar c s : leading c s = repeatChar c (String.length (leading c s)).
Proof.
  induction s as [|a s IH]; simpl; [done|].
  destruct (decide (a = c)) as [->|]; simpl; [|done]. by rewrite <- IH.
Qed.

(** ** The most used key *)

(** [(u', w')] does not come before [(u, w)]: fewer uses, or as many uses
    and no more weight. *)
Definition notAbove (u' w' u w : nat) : Prop := u' < u ∨ (u' = u ∧ w' ≤ w).

Lemma mostUsed_fold (m : list (option string * (nat * nat)))
    (result : option string) (maxUsed maxWeight : nat) :
  ∃ r u w,
    foldl mostUsedStep (result, maxUsed, maxWeight) m = (r, u, w)
    ∧ notAbove maxUsed maxWeight u w
    ∧ (∀ k' u' w', (k', (u', w')) ∈ m → notAbove u' w' u w)
    ∧ ((r, u, w) = (result, maxUsed, maxWeight)
       ∨ ((r, (u, w)) ∈ m ∧ (maxUsed < u ∨ (maxUsed = u ∧ maxWeight < w)))).
Proof.
  revert result maxUsed maxWeight.
  induction m as [|[k [used weight]] m IH]; intros result maxUsed maxWeight.
  - exists result, maxUsed, maxWeight. unfold notAbove. simpl.
    repeat split; [lia| |by left]. by intros ??? ?%elem_of_nil.
  - simpl.
    destruct (bool_decide (maxUsed < used)
              || bool_decide (used = maxUsed) && bool_decide (maxWeight < weight))
      eqn:Hcmp.
    + destruct (IH k used weight) as (r & u & w & -> & Hle & Hall & Hfrom).
      exists r, u, w. split; [done|].
      assert (maxUsed < used ∨ (used = maxUsed ∧ maxWeight < weight)) as Hbeat.
      { apply orb_prop in Hcmp as [H%bool_decide_eq_true|H]; [by left|].
        apply andb_prop in H as [?%bool_decide_eq_true ?%bool_decide_eq_true].
        by right. }
      unfold notAbove in *. repeat split.
      * lia.
      * intros k' u' w' [[= -> -> ->]|Hin]%elem_of_cons; [lia|eauto].
      * right. destruct Hfrom as [[= -> -> ->]|[Hin Hgt]].
        -- split; [left|lia].
        -- split; [by right|lia].
    + destruct (IH result maxUsed maxWeight) as (r & u & w & -> & Hle & Hall & Hfrom).
      exists r, u, w. split; [done|].
      assert (notAbove used weight maxUsed maxWeight) as Hnot.
      { apply orb_false_elim in Hcmp as [H1%bool_decide_eq_false H2].
        apply andb_false_elim in H2 as [H2%bool_decide_eq_false|H2%bool_decide_eq_false];
          unfold notAbove; lia. }
      unfold notAbove in *. repeat split.
      * lia.
      * intros k' u' w' [[= -> -> ->]|Hin]%elem_of_cons; [lia|eauto].
      * destruct Hfrom as [Heq|[Hin Hgt]]; [by left|].
        right. split; [by right|lia].
Qed.

Lemma getMostUsedKey_spec (m : list (option string * (nat * nat))) :
  (∀ k, getMostUsedKey m = Some k →
        ∃ u w, (Some k, (u, w)) ∈ m
               ∧ ∀ k' u' w', (k', (u', w')) ∈ m → notAbove u' w' u w)
  ∧ ((∀ k' u' w', (k', (u', w')) ∈ m → is_Some k' ∧ 1 ≤ u') →
     m ≠ [] → is_Some (getMostUsedKey m)).
Proof.
  unfold getMostUsedKey.
  destruct (mostUsed_fold m None 0 0) as (r & u & w & -> & _ & Hall & Hfrom). simpl.
  split.
  - intros k ->. destruct Hfrom as [[=]|[Hin _]]. eauto.
  - intros Hkeys Hne. destruct Hfrom as [[= -> -> ->]|[Hin _]].
    + destruct m as [|[k' [u' w']] m]; [done|].
      destruct (Hkeys k' u' w') as [_ Hu]; [left|].
      destruct (Hall k' u' w') as [?|[? ?]]; [left|lia..].
    + by destruct (Hkeys _ _ _ Hin).
Qed.

(** X2. The key returned by [getMostUsedKey] is the key of an entry of the
    map that no entry beats: none has more uses, and none with as many uses
    has more weight. When every entry has a key and at least one use, a key
    is returned unless the map is empty. *)
Theorem getMostUsedKey_most_used (m : list (option string * (nat * nat))) :
  (∀ k, getMostUsedKey m = Some k →
        ∃ u w, (Some k, (u, w)) ∈ m
               ∧ ∀ k' u' w', (k', (u', w')) ∈ m → notAbove u' w' u w)
  ∧ ((∀ k' u' w', (k', (u', w')) ∈ m → is_Some k' ∧ 1 ≤ u') →
     m ≠ [] → is_Some (getMostUsedKey m)).
Proof. apply getMostUsedKey_spec. Qed.

(** ** The indents map *)

Definition typeOfMatch (matches1 : option string) : string :=
  if optionTruthy matches1 then INDENT_TYPE_SPACE else INDENT_TYPE_TAB.

(** A key made by [encodeIndentsKey] from a type satisfying [P] and a
    positive amount. *)
Definition goodKey (P : string → Prop) (k : option string) : Prop :=
  ∃ t n, k = Some (encodeIndentsKey t n) ∧ P t ∧ 1 ≤ n.

Definition lineTypes (P : string → Prop) (line : string) : Prop :=
  ∀ matches0 matches1,
    matchIndent line = Some (matches0, matches1) → P (typeOfMatch matches1).

(** What the loop of [makeIndentsMap] keeps true: every key of the map is an
    encoded key and every entry has at least one use; and the key of the
    previous turn is defined whenever the previous size is not zero, which
    is when a turn reuses it. *)
Definition indentsInvariant (P : string → Prop) (st : IndentsState) : Prop :=
  (∀ k e, (k, e) ∈ indents st → goodKey P k ∧ 1 ≤ e.1)
  ∧ (previousSize st ≠ 0 → goodKey P (key st)).

Lemma elem_of_set {V} (k k' : option string) (v v' : V) m :
  (k, v) ∈ set k' v' m → (k, v) = (k', v') ∨ (k, v) ∈ m.
Proof.
  induction m as [|[k0 v0] m IH]; simpl.
  - intros ?%list_elem_of_singleton. by left.
  - destruct (decide (k0 = k')).
    + intros [?|?]%elem_of_cons; [by left|right; by right].
    + intros [->|?]%elem_of_cons; [right; left|].
      destruct IH as [?|?]; [done|by left|right; by right].
Qed.

Lemma get_elem_of {V} (k : option string) (v : V) m : get k m = Some v → (k, v) ∈ m.
Proof.
  induction m as [|[k0 v0] m IH]; simpl; [done|].
  destruct (decide (k0 = k)) as [->|].
  - intros [= ->]. left.
  - intros ?. right. auto.
Qed.

Lemma set_nonempty {V} (k : option string) (v : V) m : set k v m ≠ [].
Proof. destruct m as [|[k0 v0] m]; simpl; [done|]. by destruct (decide _). Qed.

Lemma matchIndent_length line matches0 matches1 :
  matchIndent line = Some (matches0, matches1) → 1 ≤ String.length matches0.
Proof.
  destruct line as [|a line]; simpl; [done|].
  destruct (decide (a = space)) as [->|].
  - intros [= <- _]. cbn [leading].
    destruct (decide (space = space)); [simpl; lia|done].
  - destruct (decide (a = tab)) as [->|]; [|done].
    intros [= <- _]. cbn [leading].
    destruct (decide (tab = tab)); [simpl; lia|done].
Qed.

Lemma indentsStep_invariant P ignoreSingleSpaces st line :
  lineTypes P line →
  indentsInvariant P st →
  indentsInvariant P (indentsStep ignoreSingleSpaces st line).
Proof.
  intros Hline [Hmap Hkey]. unfold indentsStep.
  case_bool_decide; [done|].
  destruct (matchIndent line) as [[matches0 matches1]|] eqn:Hmatch;
    [|split; [done|by simpl]].
  pose proof (matchIndent_length _ _ _ Hmatch) as Hlen.
  specialize (Hline _ _ Hmatch). fold (typeOfMatch matches1).
  destruct (_ && _ && _); [done|].
  set (previousSize0 := if bool_decide (_ = previousIndentType st) then _ else _).
  assert (previousSize0 ≠ 0 → goodKey P (key st)) as Hkey0.
  { subst previousSize0. case_bool_decide; [done|]. done. }
  clearbody previousSize0.
  case_bool_decide as Hdiff.
  - assert (goodKey P (key st)) as Hgood by (apply Hkey0; lia).
    split; [|done]. simpl. intros k e [[= -> ->]|Hin]%elem_of_set; [|by apply Hmap].
    split; [done|].
    destruct (get _ _) as [[used w]|] eqn:Hget; simpl; [|lia].
    apply get_elem_of, Hmap in Hget as [_ Hused]. simpl in Hused. lia.
  - set (absolute := if bool_decide (0 < _)%Z then _ else _).
    assert (goodKey P (Some (encodeIndentsKey (typeOfMatch matches1) (Z.to_nat absolute))))
      as Hgood.
    { eexists _, _. split; [done|]. split; [done|].
      subst absolute. case_bool_decide; lia. }
    split; [|done]. simpl. intros k e [[= -> ->]|Hin]%elem_of_set; [|by apply Hmap].
    split; [done|]. destruct (get _ _) as [[used w]|]; simpl; lia.
Qed.

Lemma indentsFold_invariant P ignoreSingleSpaces lines st :
  (∀ line, line ∈ lines → lineTypes P line) →
  indentsInvariant P st →
  indentsInvariant P (foldl (indentsStep ignoreSingleSpaces) st lines).
Proof.
  revert st. induction lines as [|line lines IH]; intros st Hlines Hinv; [done|].
  simpl. apply IH.
  - intros l Hl. apply Hlines. by right.
  - apply indentsStep_invariant; [|done]. apply Hlines. left.
Qed.

Lemma initialState_invariant P : indentsInvariant P initialState.
Proof. split; [by intros ?? ?%elem_of_nil|done]. Qed.

(** The type of a line that [INDENT_REGEX] matches is one of the two. *)
Lemma typeOfMatch_cases matches1 :
  typeOfMatch matches1 = INDENT_TYPE_SPACE ∨ typeOfMatch matches1 = INDENT_TYPE_TAB.
Proof. unfold typeOfMatch. destruct (optionTruthy _); auto. Qed.

Lemma makeIndentsMap_aux (text : string) (ignoreSingleSpaces : bool) :
  ∀ k used weight,
    (k, (used, weight)) ∈ makeIndentsMap text ignoreSingleSpaces →
    1 ≤ used
    ∧ ∃ indentType n,
        k = Some (encodeIndentsKey indentType n)
        ∧ (indentType = INDENT_TYPE_SPACE ∨ indentType = INDENT_TYPE_TAB)
        ∧ 1 ≤ n.
Proof.
  intros k used weight Hin. unfold makeIndentsMap in Hin.
  destruct (indentsFold_invariant
              (λ t, t = INDENT_TYPE_SPACE ∨ t = INDENT_TYPE_TAB)
              ignoreSingleSpaces (splitNewline "" text) initialState) as [Hmap _].
  - intros line _ m0 m1 _. apply typeOfMatch_cases.
  - apply initialState_invariant.
  - destruct (Hmap _ _ Hin) as [(t & n & -> & Ht & Hn) Hused]. eauto 10.
Qed.

(** X3. In the map that [makeIndentsMap] returns, no key is [undefined]:
    every key is a type character followed by a positive amount, and every
    entry counts at least one use. *)
Theorem makeIndentsMap_keys (text : string) (ignoreSingleSpaces : bool) :
  ∀ k used weight,
    (k, (used, weight)) ∈ makeIndentsMap text ignoreSingleSpaces →
    1 ≤ used
    ∧ ∃ indentType n,
        k = Some (encodeIndentsKey indentType n)
        ∧ (indentType = INDENT_TYPE_SPACE ∨ indentType = INDENT_TYPE_TAB)
        ∧ 1 ≤ n.
Proof. apply makeIndentsMap_aux. Qed.

(** ** [detectIndent] *)

(** A line that [INDENT_REGEX] matches: it starts with a space or a tab. *)
Definition indented (line : string) : Prop :=
  ∃ c rest, line = String c rest ∧ (c = space ∨ c = tab).

Lemma matchIndent_Some line matches0 matches1 :
  matchIndent line = Some (matches0, matches1) →
  ∃ c rest, line = String c rest
            ∧ ((c = space ∧ typeOfMatch matches1 = INDENT_TYPE_SPACE)
               ∨ (c = tab ∧ typeOfMatch matches1 = INDENT_TYPE_TAB)).
Proof.
  destruct line as [|a line]; simpl; [done|].
  destruct (decide (a = space)) as [->|].
  - intros [= ? <-]. eexists _, _. split; [done|]. by left.
  - destruct (decide (a = tab)) as [->|]; [|done].
    intros [= ? <-]. eexists _, _. split; [done|]. by right.
Qed.

Lemma matchIndent_indented line : indented line → is_Some (matchIndent line).
Proof.
  intros (c & rest & -> & [-> | ->]); simpl.
  - destruct (decide (space = space)); [eauto|done].
  - destruct (decide (tab = space)); [done|].
    destruct (decide (tab = tab)); [eauto|done].
Qed.

Definition noIndent : Indent := {| amount := Some 0; type := None; indent := "" |}.

Lemma detectIndent_cases (P : string → Prop) (text : string) :
  (∀ line, line ∈ splitNewline "" text → lineTypes P line) →
  (∀ t, P t → t = INDENT_TYPE_SPACE ∨ t = INDENT_TYPE_TAB) →
  detectIndent text = noIndent
  ∨ ∃ t n, P t ∧ 1 ≤ n
           ∧ detectIndent text
             = {| amount := Some n; type := Some t; indent := makeIndentString t n |}.
Proof.
  intros Hlines HP. unfold detectIndent.
  set (indents1 := if bool_decide _ then _ else _).
  assert (∀ k e, (k, e) ∈ indents1 → goodKey P k) as Hkeys.
  { intros k e Hin. subst indents1. unfold makeIndentsMap in Hin.
    destruct (bool_decide _);
      match type of Hin with
      | _ ∈ indents (foldl (indentsStep ?b) _ _) =>
          destruct (indentsFold_invariant P b (splitNewline "" text) initialState
                      Hlines (initialState_invariant P)) as [Hmap _]
      end; by destruct (Hmap _ _ Hin). }
  clearbody indents1.
  destruct (getMostUsedKey indents1) as [k|] eqn:Hkey; [|by left].
  right. destruct (proj1 (getMostUsedKey_spec indents1) k Hkey) as (u & w & Hin & _).
  destruct (Hkeys _ _ Hin) as (t & n & [= ->] & Ht & Hn).
  exists t, n. split; [done|]. split; [done|].
  rewrite decodeIndentsKey_encodeIndentsKey.
  destruct (HP _ Ht) as [-> | ->]; done.
Qed.

(** X4. [detectIndent] answers either no indentation (amount 0, no type,
    empty indent), or a type that is 'space' or 'tab' with an amount of at
    least 1 and an indent string made of exactly that many spaces or
    tabs. *)
Theorem detectIndent_result (text : string) :
  detectIndent text = noIndent
  ∨ ∃ t n,
      (t = INDENT_TYPE_SPACE ∨ t = INDENT_TYPE_TAB)
      ∧ 1 ≤ n
      ∧ detectIndent text
        = {| amount := Some n; type := Some t;
             indent := repeatChar (if decide (t = INDENT_TYPE_SPACE) then space else tab) n |}
      ∧ String.length (indent (detectIndent text)) = n.
Proof.
  destruct (detectIndent_cases (λ t, t = INDENT_TYPE_SPACE ∨ t = INDENT_TYPE_TAB) text)
    as [Hnone|(t & n & Ht & Hn & Hres)].
  - intros line _ m0 m1 _. apply typeOfMatch_cases.
  - done.
  - by left.
  - right. exists t, n. split; [done|]. split; [done|]. split; [done|].
    rewrite Hres. apply length_repeatChar.
Qed.

Lemma detectIndent_type_occurs_aux (text : string) (t : string) :
  type (detectIndent text) = Some t →
  ∃ line rest,
    line ∈ splitNewline "" text
    ∧ ((t = INDENT_TYPE_SPACE ∧ line = String space rest)
       ∨ (t = INDENT_TYPE_TAB ∧ line = String tab rest)).
Proof.
  set (P := λ t : string,
         ∃ line rest, line ∈ splitNewline "" text
                      ∧ ((t = INDENT_TYPE_SPACE ∧ line = String space rest)
                         ∨ (t = INDENT_TYPE_TAB ∧ line = String tab rest))).
  destruct (detectIndent_cases P text) as [->|(t' & n & Ht & _ & ->)].
  - intros line Hline m0 m1 Hmatch.
    destruct (matchIndent_Some _ _ _ Hmatch) as (c & rest & Hl & [[Hc Ht]|[Hc Ht]]);
      subst; rewrite Ht; eexists _, rest; (split; [done|]); [left|right]; done.
  - intros t' (_ & _ & _ & [[-> _] | [-> _]]); auto.
  - done.
  - simpl. intros [= <-]. exact Ht.
Qed.

(** X5. The type that [detectIndent] answers is the type of a line of the
    text: 'space' only if some line starts with a space, 'tab' only if some
    line starts with a tab. *)
Theorem detectIndent_type_occurs (text : string) (t : string) :
  type (detectIndent text) = Some t →
  ∃ line rest,
    line ∈ splitNewline "" text
    ∧ ((t = INDENT_TYPE_SPACE ∧ line = String space rest)
       ∨ (t = INDENT_TYPE_TAB ∧ line = String tab rest)).
Proof. apply detectIndent_type_occurs_aux. Qed.

Lemma indentsStep_keeps ignoreSingleSpaces st line :
  indents st ≠ [] → indents (indentsStep ignoreSingleSpaces st line) ≠ [].
Proof.
  intros Hne. unfold indentsStep.
  repeat case_match; simpl; try done; apply set_nonempty.
Qed.

Lemma indentsStep_records st line :
  indented line → indents (indentsStep false st line) ≠ [].
Proof.
  intros Hind. pose proof (matchIndent_indented _ Hind) as [[m0 m1] Hmatch].
  unfold indentsStep. rewrite bool_decide_eq_false_2.
  2:{ intros ->. by destruct Hind as (? & ? & ? & _). }
  rewrite Hmatch. cbn [andb].
  repeat case_match; simpl; apply set_nonempty.
Qed.

Lemma indentsFold_keeps ignoreSingleSpaces lines st :
  indents st ≠ [] → indents (foldl (indentsStep ignoreSingleSpaces) st lines) ≠ [].
Proof.
  revert st. induction lines as [|line lines IH]; intros st Hne; [done|].
  simpl. by apply IH, indentsStep_keeps.
Qed.

Lemma indentsFold_records lines st :
  (∃ line, line ∈ lines ∧ indented line) →
  indents (foldl (indentsStep false) st lines) ≠ [].
Proof.
  revert st. induction lines as [|line lines IH]; intros st (l & Hin & Hind).
  - by apply elem_of_nil in Hin.
  - simpl. apply elem_of_cons in Hin as [->|Hin].
    + by apply indentsFold_keeps, indentsStep_records.
    + apply IH. eauto.
Qed.

(** X6. [detectIndent] answers a type exactly when some line of the text
    starts with a space or a tab: single-space indents, skipped by the first
    pass, are picked up by the second pass when nothing else is found. *)
Theorem detectIndent_type_iff_indented (text : string) :
  is_Some (type (detectIndent text))
  ↔ ∃ line, line ∈ splitNewline "" text ∧ indented line.
Proof.
  split.
  - intros [t Ht]. destruct (detectIndent_type_occurs_aux text t Ht)
      as (line & rest & Hin & [[_ ->] | [_ ->]]).
    + exists (String space rest). split; [done|]. exists space, rest. auto.
    + exists (String tab rest). split; [done|]. exists tab, rest. auto.
  - intros Hex. unfold detectIndent.
    set (indents1 := if bool_decide _ then _ else _).
    assert (indents1 ≠ []) as Hne.
    { subst indents1. case_bool_decide as Hlen.
      - by apply indentsFold_records.
      - intros Hnil. by rewrite Hnil in Hlen. }
    assert (is_Some (getMostUsedKey indents1)) as [k ->].
    { apply getMostUsedKey_spec; [|done]. intros k' u' w' Hin.
      subst indents1. destruct (bool_decide _);
        destruct (makeIndentsMap_aux _ _ _ _ _ Hin) as (Hu & ? & ? & -> & _); eauto. }
    destruct (decodeIndentsKey k). simpl. eauto.
Qed.

End DetectIndent.

(** * More on the provider *)

(** ** The registry: absent keys, stale and cleared latest reference *)

Lemma JsMap_remove_absent {V} (k : string) (m : list (string * V)) :
  JsMap.get k m = None → JsMap.remove k m = m.
Proof.
  unfold JsMap.remove. induction m as [|[k' v'] m IH]; simpl; [done|].
  destruct (decide (k' = k)) as [->|Hne]; [done|]. intros Hget.
  rewrite filter_cons. simpl. rewrite decide_True by done. by rewrite IH.
Qed.

(** X7. On a key that is not registered, a lookup returns none and a removal
    does nothing: both leave the collection, its latest reference included,
    exactly as it was. *)
Theorem registry_absent_key (k : ResponseStreamIdentifier)
    (c : AideResponseStreamCollection) :
  JsMap.get (getKey k) (responseStreamCollection c) = None →
  getResponseStream k c = (None, c) ∧ removeResponseStream k c = c.
Proof.
  intros Hget. split.
  - unfold getResponseStream. by rewrite Hget.
  - unfold removeResponseStream, JsMap.delete, JsMap.has.
    rewrite (JsMap_remove_absent _ _ Hget), Hget.
    rewrite bool_decide_eq_false_2 by by intros [? ?].
    destruct c as [coll [[kl vl]|] subs]; done.
Qed.

(** X8. Registering does not touch the latest reference: after a handle has
    been looked up, registering another handle under the same key makes
    lookups return the new handle while the latest reference still holds the
    replaced one, until the key is looked up again. *)
Theorem latest_reference_goes_stale (k : ResponseStreamIdentifier)
    (old new : AideAgentEventSenderResponse) (c : AideResponseStreamCollection) :
  let lookedUp := (getResponseStream k (addResponseStream k old c)).2 in
  let replaced := addResponseStream k new lookedUp in
  latestResponseStream lookedUp = Some old
  ∧ latestResponseStream replaced = Some old
  ∧ (getResponseStream k replaced).1 = Some new
  ∧ latestResponseStream (getResponseStream k replaced).2 = Some new.
Proof.
  simpl. unfold getResponseStream at 1 2 3 4. simpl.
  rewrite JsMap.get_set_eq. simpl.
  unfold getResponseStream. simpl. rewrite !JsMap.get_set_eq. done.
Qed.

(** X9. In every state the collection can reach, the key held by the latest
    reference is a registered key; so once every stream has been removed
    there is no latest stream. *)
Theorem latest_reference_is_registered (c : AideResponseStreamCollection) :
  reachable c →
  (∀ key h, _latestResponseStream c = Some (key, h) →
            is_Some (JsMap.get key (responseStreamCollection c)))
  ∧ (getAllResponseStreams c = [] → latestResponseStream c = None).
Proof.
  intros Hreach. pose proof (reachable_latestRegistered c Hreach) as Hinv.
  split; [exact Hinv|].
  intros Hnone. unfold latestResponseStream.
  destruct (_latestResponseStream c) as [[key h]|] eqn:Hl; [|done].
  destruct (Hinv _ _ Hl) as [v Hv%JsMap.get_Some_values].
  unfold getAllResponseStreams in Hnone. rewrite Hnone in Hv.
  by apply elem_of_nil in Hv.
Qed.

Section ProviderMore.

Variable initResponse : nat → string → option AideAgentEventSenderResponse.
Variable createFileIfNotExists : nat → string → bool.
Variable sidecar : nat → string → string → AideAgentRequest → AgentEventStream.
Variable getSession : nat → bool → option string.

(** ** Opening exchanges *)

(** X10. [newExchangeIdForSession] asks the host once. When the host opens a
    response, its exchange id is returned and the response is registered
    under the session and that id, so that looking this pair up returns it;
    the latest reference is not changed. When the host declines, none is
    returned and nothing is registered. Nothing is sent to any stream. *)
Theorem newExchangeIdForSession_registers (sessionId : string)
    (p : AideAgentSessionProvider) :
  let result := newExchangeIdForSession initResponse sessionId p in
  hostCalls result.2 = S (hostCalls p)
  ∧ effects result.2 = effects p
  ∧ match initResponse (hostCalls p) sessionId with
    | Some response =>
        result.1 = Some (responseExchangeId response)
        ∧ (lookupStream sessionId (responseExchangeId response) result.2).1 = Some response
        ∧ latestResponseStream (responseStreams result.2)
          = latestResponseStream (responseStreams p)
    | None => result = (None, tickHost p)
    end.
Proof.
  unfold newExchangeIdForSession.
  destruct (initResponse (hostCalls p) sessionId) as [response|]; simpl; [|done].
  repeat split. rewrite lookupStream_fst. simpl. apply JsMap.get_set_eq.
Qed.

Lemma createNewResponseStream_aux (sessionId : string)
    (p : AideAgentSessionProvider) :
  let result := createNewResponseStream initResponse sessionId p in
  match initResponse (hostCalls p) sessionId with
  | Some response =>
      JsMap.get (streamKey sessionId (responseExchangeId response))
        (responseStreamCollection (responseStreams result.2)) = Some response
      ∧ if bool_decide (responseExchangeId response = "")
        then result.1 = None
             ∧ latestResponseStream (responseStreams result.2)
               = latestResponseStream (responseStreams p)
        else result.1 = Some response
             ∧ latestResponseStream (responseStreams result.2) = Some response
  | None => result = (None, tickHost p)
  end.
Proof.
  unfold createNewResponseStream, newExchangeIdForSession.
  destruct (initResponse (hostCalls p) sessionId) as [response|]; simpl; [|done].
  unfold JsString.truthy. case_bool_decide as Hid; simpl.
  - split; [|done]. apply JsMap.get_set_eq.
  - rewrite lookupStream_Some with (r := response) by apply JsMap.get_set_eq.
    simpl. split; [|done]. apply JsMap.get_set_eq.
Qed.

(** X11. [createNewResponseStream] returns the response the host opens and
    makes it the latest stream, except when its exchange id is the empty
    string: then none is returned although the response has been registered.
    When the host declines, none is returned and nothing is registered. *)
Theorem createNewResponseStream_result (sessionId : string)
    (p : AideAgentSessionProvider) :
  let result := createNewResponseStream initResponse sessionId p in
  match initResponse (hostCalls p) sessionId with
  | Some response =>
      JsMap.get (streamKey sessionId (responseExchangeId response))
        (responseStreamCollection (responseStreams result.2)) = Some response
      ∧ if bool_decide (responseExchangeId response = "")
        then result.1 = None
             ∧ latestResponseStream (responseStreams result.2)
               = latestResponseStream (responseStreams p)
        else result.1 = Some response
             ∧ latestResponseStream (responseStreams result.2) = Some response
  | None => result = (None, tickHost p)
  end.
Proof. apply createNewResponseStream_aux. Qed.

(** ** The dispatcher: routing *)

(** The events that are routed to the stream registered for their exchange:
    all but top-level errors and the execution state 'Cancelled'. *)
Definition routed (event : UIEvent) : bool :=
  match event with
  | ErrorEvent _ => false
  | ExchangeEv (ExecutionState executionState) =>
      negb (bool_decide (executionState = "Cancelled"))
  | _ => true
  end.

Lemma onProvider_same l : onProvider (λ _, provider l) l = l.
Proof. by destruct l. Qed.

Lemma dispatchEvent_routed authCallbacks errorCallback request_id exchange_id event l :
  routed event = true →
  dispatchEvent initResponse authCallbacks errorCallback
    (uiEvent request_id exchange_id event) l
  = dispatchRouted authCallbacks errorCallback request_id exchange_id event l.
Proof.
  destruct event as [| | | | | | | |[]]; try done. simpl.
  case_bool_decide; done.
Qed.

(** X12. An event for an exchange that has no registered stream is skipped:
    the loop continues and nothing at all changes, neither the provider nor
    [streamStarted]. This holds for every event kind that is routed by its
    ids. *)
Theorem unregistered_exchange_event_skipped
    (authCallbacks : option AuthCallbacks) (errorCallback : bool)
    (request_id exchange_id : string) (event : UIEvent) (l : DispatchState) :
  routed event = true →
  JsMap.get (streamKey request_id exchange_id)
    (responseStreamCollection (responseStreams (provider l))) = None →
  dispatchEvent initResponse authCallbacks errorCallback
    (uiEvent request_id exchange_id event) l = (Continue, l).
Proof.
  intros Hrouted Hget. rewrite dispatchEvent_routed by done.
  unfold dispatchRouted. rewrite (lookupStream_None _ _ _ Hget).
  by rewrite onProvider_same.
Qed.

(** ** The dispatcher: teardown *)

Definition sessionKeys (sessionId : string) (p : AideAgentSessionProvider) : list string :=
  (λ h, streamKey sessionId (responseExchangeId h))
    <$> getAllResponseStreams (responseStreams p).

Lemma lookupStream_lastThinkingText sid eid p :
  lastThinkingText (lookupStream sid eid p).2 = lastThinkingText p.
Proof. unfold lookupStream. by destruct (getResponseStream _ _). Qed.

Lemma closeAndRemoveResponseStream_lastThinkingText sid eid p :
  lastThinkingText (closeAndRemoveResponseStream sid eid p)
  = delete (streamKey sid eid) (lastThinkingText p).
Proof.
  unfold closeAndRemoveResponseStream.
  pose proof (lookupStream_lastThinkingText sid eid p) as H.
  destruct (lookupStream sid eid p) as [[r|] p']; simpl in *; by rewrite H.
Qed.

Lemma closeEach_lastThinkingText sid hs p key :
  lastThinkingText (closeEach sid hs p) !! key
  = if bool_decide (key ∈ (λ h, streamKey sid (responseExchangeId h)) <$> hs)
    then None
    else lastThinkingText p !! key.
Proof.
  revert p. induction hs as [|h hs IH]; intros p; simpl; [done|].
  rewrite IH, closeAndRemoveResponseStream_lastThinkingText, lookup_delete.
  destruct (decide (streamKey sid (responseExchangeId h) = key)) as [<-|Hne].
  - rewrite (bool_decide_eq_true_2 (_ ∈ _ :: _)) by left. by case_bool_decide.
  - case_bool_decide as Hin.
    + by rewrite bool_decide_eq_true_2 by by right.
    + rewrite bool_decide_eq_false_2; [done|].
      intros [?|?]%elem_of_cons; [congruence|by apply Hin].
Qed.

Lemma closeOpenStreams_spec (sessionId : string) (p : AideAgentSessionProvider) :
  let p' := closeOpenStreams sessionId p in
  (∃ closes, effects p' = effects p ++ closes ∧ Forall isClose closes)
  ∧ (∀ key, key ∈ sessionKeys sessionId p →
       JsMap.get key (responseStreamCollection (responseStreams p')) = None
       ∧ lastThinkingText p' !! key = None
       ∧ ∀ h, JsMap.get key (responseStreamCollection (responseStreams p)) = Some h →
              onStream (stream h) close ∈ effects p')
  ∧ (∀ key, key ∉ sessionKeys sessionId p →
       JsMap.get key (responseStreamCollection (responseStreams p'))
       = JsMap.get key (responseStreamCollection (responseStreams p))).
Proof.
  unfold closeOpenStreams, sessionKeys. split; [apply closeEach_effects|]. split.
  - intros key Hin. split; [|split].
    + rewrite closeEach_collection. by rewrite bool_decide_eq_true_2.
    + rewrite closeEach_lastThinkingText. by rewrite bool_decide_eq_true_2.
    + intros h Hget. by eapply closeEach_closes.
  - intros key Hnin. rewrite closeEach_collection.
    by rewrite bool_decide_eq_false_2.
Qed.

(** X13. Tearing down the streams of a session closes and removes the
    streams registered under the session's keys and evicts their thinking
    text; it sends nothing but [close], closes no stream that is not
    registered under one of those keys, and every stream registered under
    another key stays registered. *)
Theorem closeOpenStreams_scope (sessionId : string) (p : AideAgentSessionProvider) :
  let p' := closeOpenStreams sessionId p in
  (∃ closes, effects p' = effects p ++ closes ∧ Forall isClose closes)
  ∧ (∀ key, key ∈ sessionKeys sessionId p →
       JsMap.get key (responseStreamCollection (responseStreams p')) = None
       ∧ lastThinkingText p' !! key = None
       ∧ ∀ h, JsMap.get key (responseStreamCollection (responseStreams p)) = Some h →
              onStream (stream h) close ∈ effects p')
  ∧ (∀ key, key ∉ sessionKeys sessionId p →
       JsMap.get key (responseStreamCollection (responseStreams p'))
       = JsMap.get key (responseStreamCollection (responseStreams p))).
Proof. apply closeOpenStreams_spec. Qed.

(** ** The dispatcher: terminal and failing streams *)

(** The teardown of the streams of session [sessionId], from [p] to [p'],
    sending [closes]: nothing but [close] is sent; every stream registered
    under the session's id and its own exchange id is closed and no longer
    registered; what is registered under other keys stays. *)
Definition sessionTornDown (sessionId : string) (p p' : AideAgentSessionProvider)
    (closes : list Effect) : Prop :=
  Forall isClose closes
  ∧ (∀ h, JsMap.get (streamKey sessionId (responseExchangeId h))
            (responseStreamCollection (responseStreams p)) = Some h →
          JsMap.get (streamKey sessionId (responseExchangeId h))
            (responseStreamCollection (responseStreams p')) = None
          ∧ onStream (stream h) close ∈ closes)
  ∧ (∀ key, key ∉ sessionKeys sessionId p →
            JsMap.get key (responseStreamCollection (responseStreams p'))
            = JsMap.get key (responseStreamCollection (responseStreams p))).

Lemma closeOpenStreams_tornDown (sessionId : string) (p0 p : AideAgentSessionProvider) :
  responseStreams p = responseStreams p0 →
  ∃ closes,
    effects (closeOpenStreams sessionId p) = effects p ++ closes
    ∧ sessionTornDown sessionId p0 (closeOpenStreams sessionId p) closes.
Proof.
  intros Hrs.
  destruct (closeOpenStreams_closes sessionId p) as (closes & Heff & Hall & Hin).
  destruct (closeOpenStreams_spec sessionId p) as (_ & _ & Hout).
  exists closes. split; [done|]. unfold sessionTornDown, sessionKeys in *.
  rewrite <- Hrs. done.
Qed.

Definition errorCallbackEffect (errorCallback : bool) : list Effect :=
  if errorCallback then [errorCallbackCalled] else [].

Lemma callErrorCallback_effects errorCallback p :
  effects (callErrorCallback errorCallback p)
  = effects p ++ errorCallbackEffect errorCallback
  ∧ responseStreams (callErrorCallback errorCallback p) = responseStreams p.
Proof. destruct errorCallback; simpl; by rewrite ?app_nil_r. Qed.

(** The initial state of a run of the dispatcher. *)
Definition runFrom (p : AideAgentSessionProvider) : DispatchState :=
  {| provider := p; streamStarted := false; unauthorizedCalls := [] |}.

(** X14. Wherever it comes in the stream, a [ToolUseDetected] event for the
    'AttemptCompletion' tool on a registered exchange sets stage "Complete"
    on the exchange's stream (after "Loading..." if the exchange had not
    started), then tears down the streams of the event's session: each is
    closed and removed, and nothing else is sent. The dispatcher returns
    without throwing and without looking at the rest of the stream.
    [before] is what the loop has gone through before the event, and [l]
    the state it is in. *)
Theorem attempt_completion_teardown
    (authCallbacks : option AuthCallbacks) (errorCallback : bool)
    (sessionId request_id exchange_id : string) (r : AideAgentEventSenderResponse)
    (before rest : list SideCarAgentEvent) (failure : option Exn)
    (p : AideAgentSessionProvider) (l : DispatchState) :
  dispatchLoop initResponse authCallbacks errorCallback before (runFrom p) = (Continue, l) →
  JsMap.get (streamKey request_id exchange_id)
    (responseStreamCollection (responseStreams (provider l))) = Some r →
  let res := reportAgentEventsToChat initResponse sessionId
               {| streamEvents :=
                    before
                    ++ uiEvent request_id exchange_id
                         (FrameworkEv (ToolUseDetected (Some AttemptCompletion))) :: rest;
                  streamFailure := failure |}
               authCallbacks errorCallback p in
  outcome res = Returned ()
  ∧ onUnauthorizedCalls res = []
  ∧ ∃ closes,
      effects (after res)
      = effects (provider l)
        ++ loadingOnce (stream r) (streamKey request_id exchange_id)
             (startedStreams (provider l))
        ++ [onStream (stream r) (stage "Complete")] ++ closes
      ∧ sessionTornDown request_id (provider l) (after res) closes.
Proof.
  intros Hbefore Hget res. subst res.
  destruct (dispatchLoop_Continue _ _ _ _ _ _ Hbefore) as [Hcalls _].
  cbn [runFrom unauthorizedCalls] in Hcalls.
  unfold reportAgentEventsToChat. cbn [streamEvents]. fold (runFrom p).
  rewrite (dispatchLoop_app _ _ _ _ _ _ _ Hbefore).
  cbn [dispatchLoop dispatchEvent]. unfold dispatchRouted.
  rewrite (lookupStream_Some _ _ _ _ Hget).
  cbn [onProvider setStreamStarted provider streamStarted unauthorizedCalls].
  set (l1 := if bool_decide (_ ∈ _) then _ else _).
  assert (unauthorizedCalls l1 = []
          ∧ responseStreamCollection (responseStreams (provider l1))
            = responseStreamCollection (responseStreams (provider l))
          ∧ subscriptions (responseStreams (provider l1))
            = subscriptions (responseStreams (provider l))
          ∧ effects (provider l1)
            = effects (provider l)
              ++ loadingOnce (stream r) (streamKey request_id exchange_id)
                   (startedStreams (provider l))) as (Hcalls1 & Hcoll & Hsub & Heff).
  { subst l1. unfold loadingOnce. simpl. case_bool_decide; simpl;
      by rewrite ?app_nil_r. }
  clearbody l1. cbn [dispatchFramework onProvider provider streamStarted
                     unauthorizedCalls outcome after onUnauthorizedCalls].
  split; [done|]. split; [done|].
  set (p1 := emit (onStream (stream r) (stage "Complete")) (provider l1)).
  destruct (closeOpenStreams_closes request_id p1) as (closes & Hcl & Hall & Hin).
  destruct (closeOpenStreams_spec request_id p1) as (_ & _ & Hout).
  exists closes. split.
  - rewrite Hcl. subst p1. simpl. rewrite Heff. by rewrite <- !app_assoc.
  - unfold sessionTornDown, sessionKeys, getAllResponseStreams in *.
    subst p1. cbn [responseStreams emit] in *. rewrite Hcoll in *. done.
Qed.

(** X15. The execution state 'Cancelled' is handled before the event's ids
    are looked at, in every state of the loop: stage "Cancelled" goes to the
    latest stream if there is one, the streams of the event's session are
    torn down (each is closed and removed, and nothing else is sent), the
    loop goes on with the next event, [onUnauthorized] is not called, and
    [streamStarted] is set, so that a stream made of this event alone ends
    without a connection error. *)
Theorem cancelled_execution_state_continues
    (authCallbacks : option AuthCallbacks) (errorCallback : bool)
    (sessionId request_id exchange_id : string) (l : DispatchState) :
  let event := uiEvent request_id exchange_id (ExchangeEv (ExecutionState "Cancelled")) in
  let step := dispatchEvent initResponse authCallbacks errorCallback event l in
  let cancelled :=
    match latestResponseStream (responseStreams (provider l)) with
    | Some latest => [onStream (stream latest) (stage "Cancelled")]
    | None => []
    end in
  step.1 = Continue
  ∧ streamStarted step.2 = true
  ∧ unauthorizedCalls step.2 = unauthorizedCalls l
  ∧ (∃ closes,
       effects (provider step.2) = effects (provider l) ++ cancelled ++ closes
       ∧ sessionTornDown request_id (provider l) (provider step.2) closes)
  ∧ outcome (reportAgentEventsToChat initResponse sessionId
               {| streamEvents := [event]; streamFailure := None |}
               authCallbacks errorCallback (provider l)) = Returned ().
Proof.
  simpl. unfold dispatchCancelledState. simpl.
  split; [done|]. split; [done|]. split; [done|]. split; [|done].
  set (p1 := emitOn _ _ _).
  destruct (closeOpenStreams_tornDown request_id (provider l) p1)
    as (closes & -> & Htorn).
  { subst p1. unfold emitOn. by destruct (latestResponseStream _). }
  exists closes. split; [|done]. subst p1. unfold emitOn.
  destruct (latestResponseStream _); simpl; by rewrite <- ?app_assoc.
Qed.

(** The events the loop passes over. *)
Definition ignorable (event : SideCarAgentEvent) : bool :=
  match event with
  | keep_alive | doneEvent | sessionStart true => true
  | _ => false
  end.

Lemma dispatchLoop_ignorable authCallbacks errorCallback events l :
  Forall (λ e, ignorable e = true) events →
  dispatchLoop initResponse authCallbacks errorCallback events l = (Continue, l).
Proof.
  induction 1 as [|e es He _ IH]; [done|]. simpl.
  destruct e as [|[]| |]; try done.
Qed.

Lemma dispatchLoop_app_ignorable authCallbacks errorCallback idle events l :
  Forall (λ e, ignorable e = true) idle →
  dispatchLoop initResponse authCallbacks errorCallback (idle ++ events) l
  = dispatchLoop initResponse authCallbacks errorCallback events l.
Proof.
  induction 1 as [|e es He _ IH]; [done|]. simpl.
  destruct e as [|[]| |]; try done.
Qed.

(** What the [catch] of the dispatcher sends for [error] on [target]. *)
Definition errorReport (target : AideAgentEventSenderResponse) (error : Exn)
    (errorCallback : bool) : list Effect :=
  [onStream (stream target) (toolTypeError (exnMessage error +:+ ". Please try again."));
   onStream (stream target) (stage "Error")]
  ++ errorCallbackEffect errorCallback.

(** What the [catch] of the dispatcher does with a stream to report on. *)
Definition reportCaught (sessionId : string) (error : Exn) (errorCallback : bool)
    (target : AideAgentEventSenderResponse) (q : AideAgentSessionProvider)
  : AideAgentSessionProvider :=
  closeOpenStreams sessionId
    (callErrorCallback errorCallback
       (emit (onStream (stream target) (stage "Error"))
          (emit (onStream (stream target)
                   (toolTypeError (exnMessage error +:+ ". Please try again."))) q))).

Lemma reportCaught_spec sessionId error errorCallback target q :
  ∃ closes,
    effects (reportCaught sessionId error errorCallback target q)
    = effects q ++ errorReport target error errorCallback ++ closes
    ∧ sessionTornDown sessionId q (reportCaught sessionId error errorCallback target q)
        closes.
Proof.
  unfold reportCaught. set (p1 := emit _ (emit _ q)).
  destruct (callErrorCallback_effects errorCallback p1) as [Heff Hrs].
  destruct (closeOpenStreams_tornDown sessionId q (callErrorCallback errorCallback p1))
    as (closes & -> & Htorn); [by rewrite Hrs|].
  exists closes. split; [|done]. rewrite Heff. subst p1. unfold errorReport. simpl.
  by rewrite <- !app_assoc.
Qed.

(** The ways in which the loop of the dispatcher ends in its [catch]: a
    branch throws, the iterator throws, or the stream ends unstarted. *)
Definition loopFails (agentStream : AgentEventStream) (c : Control) (l : DispatchState)
    (error : Exn) : Prop :=
  c = Throw error
  ∨ (c = Continue ∧ streamFailure agentStream = Some error)
  ∨ (c = Continue ∧ streamFailure agentStream = None ∧ streamStarted l = false
     ∧ error = SidecarConnectionFailedError).

Lemma reportAgentEventsToChat_caught sessionId agentStream authCallbacks errorCallback
    p c l error :
  dispatchLoop initResponse authCallbacks errorCallback (streamEvents agentStream)
    (runFrom p) = (c, l) →
  loopFails agentStream c l error →
  reportAgentEventsToChat initResponse sessionId agentStream authCallbacks errorCallback p
  = match latestOrNewResponseStream initResponse sessionId (provider l) with
    | (Some target, q) =>
        {| outcome := Returned ();
           after := reportCaught sessionId error errorCallback target q;
           onUnauthorizedCalls := unauthorizedCalls l |}
    | (None, q) =>
        {| outcome := Thrown error; after := q;
           onUnauthorizedCalls := unauthorizedCalls l |}
    end.
Proof.
  intros Hloop Hfails. unfold reportAgentEventsToChat. fold (runFrom p). rewrite Hloop.
  set (c' := match c with Continue => _ | _ => c end).
  assert (c' = Throw error) as ->.
  { subst c'. destruct Hfails as [->|[[-> ->]|(-> & -> & -> & ->)]]; done. }
  by destruct (latestOrNewResponseStream _ _ _) as [[target|] q].
Qed.

(** X16. A stream that ends although nothing has set [streamStarted], be it
    after nothing but keep-alives, start acknowledgements and 'done'
    markers, or that reports at any point that it did not start, is a
    connection failure. With a latest stream, the connection error message
    and stage "Error" are sent to it, the error callback is called if there
    is one, the streams of [sessionId] are torn down (each is closed and
    removed), and the dispatcher returns. With no latest stream and a host
    that declines to open one, the error is thrown to the caller and nothing
    is sent. [before] is what the loop has gone through, ending in state
    [l], and [idle] are events it passes over after that. *)
Theorem unstarted_stream_is_connection_failure
    (authCallbacks : option AuthCallbacks) (errorCallback : bool)
    (sessionId : string) (before idle tail : list SideCarAgentEvent)
    (p : AideAgentSessionProvider) (l : DispatchState) :
  dispatchLoop initResponse authCallbacks errorCallback before (runFrom p) = (Continue, l) →
  Forall (λ e, ignorable e = true) idle →
  (tail = [] ∧ streamStarted l = false) ∨ (∃ rest, tail = sessionStart false :: rest) →
  let res := reportAgentEventsToChat initResponse sessionId
               {| streamEvents := before ++ idle ++ tail; streamFailure := None |}
               authCallbacks errorCallback p in
  match latestResponseStream (responseStreams (provider l)) with
  | Some latest =>
      outcome res = Returned ()
      ∧ ∃ closes,
          effects (after res)
          = effects (provider l)
            ++ errorReport latest SidecarConnectionFailedError errorCallback ++ closes
          ∧ sessionTornDown sessionId (provider l) (after res) closes
  | None =>
      initResponse (hostCalls (provider l)) sessionId = None →
      res = {| outcome := Thrown SidecarConnectionFailedError;
               after := tickHost (provider l); onUnauthorizedCalls := [] |}
  end.
Proof.
  intros Hbefore Hidle Htail res. subst res.
  destruct (dispatchLoop_Continue _ _ _ _ _ _ Hbefore) as [Hcalls _].
  cbn [runFrom unauthorizedCalls] in Hcalls.
  set (agentStream := {| streamEvents := before ++ idle ++ tail; streamFailure := None |}).
  assert (∃ c l2,
            dispatchLoop initResponse authCallbacks errorCallback
              (streamEvents agentStream) (runFrom p) = (c, l2)
            ∧ loopFails agentStream c l2 SidecarConnectionFailedError
            ∧ provider l2 = provider l ∧ unauthorizedCalls l2 = [])
    as (c & l2 & Hloop & Hfails & Hp & Hc).
  { subst agentStream. cbn [streamEvents].
    rewrite (dispatchLoop_app _ _ _ _ _ _ _ Hbefore).
    rewrite dispatchLoop_app_ignorable by done.
    destruct Htail as [[-> Hunstarted]|[rest ->]].
    - exists Continue, l. split; [done|]. split; [|done]. right. right. done.
    - eexists _, _. split; [reflexivity|]. split; [by left|done]. }
  rewrite (reportAgentEventsToChat_caught _ _ _ _ _ _ _ _ Hloop Hfails), Hp, Hc.
  unfold latestOrNewResponseStream.
  destruct (latestResponseStream (responseStreams (provider l))) as [latest|] eqn:Hlatest.
  - cbn [outcome after]. split; [done|]. apply reportCaught_spec.
  - intros Hdecline. unfold createNewResponseStream, newExchangeIdForSession.
    by rewrite Hdecline.
Qed.

(** ** Errors never leave the driver when the host opens streams *)

Lemma latestOrNewResponseStream_is_Some sessionId p :
  (∀ calls sid, ∃ response,
     initResponse calls sid = Some response ∧ responseExchangeId response ≠ "") →
  ∃ target,
    (latestOrNewResponseStream initResponse sessionId p).1 = Some target
    ∧ match latestResponseStream (responseStreams p) with
      | Some latest => target = latest
      | None => initResponse (hostCalls p) sessionId = Some target
      end.
Proof.
  intros Hhost. unfold latestOrNewResponseStream.
  destruct (latestResponseStream (responseStreams p)); [by eexists|].
  pose proof (createNewResponseStream_aux sessionId p) as Hnew.
  destruct (Hhost (hostCalls p) sessionId) as (response & Hinit & Hid).
  rewrite Hinit in Hnew. destruct Hnew as [_ Hnew].
  rewrite bool_decide_eq_false_2 in Hnew by done. destruct Hnew as [-> _]. eauto.
Qed.

Lemma latestOrNewResponseStream_effects sessionId p :
  effects (latestOrNewResponseStream initResponse sessionId p).2 = effects p.
Proof.
  unfold latestOrNewResponseStream, createNewResponseStream, newExchangeIdForSession.
  destruct (latestResponseStream _); [done|].
  destruct (initResponse _ _) as [response|]; [|done]. cbn.
  destruct (JsString.truthy _); [|done]. by rewrite lookupStream_effects.
Qed.

Lemma reportAgentEventsToChat_returns sessionId agentStream authCallbacks errorCallback p :
  (∀ calls sid, ∃ response,
     initResponse calls sid = Some response ∧ responseExchangeId response ≠ "") →
  outcome (reportAgentEventsToChat initResponse sessionId agentStream authCallbacks
             errorCallback p) = Returned ().
Proof.
  intros Hhost. unfold reportAgentEventsToChat.
  destruct (dispatchLoop _ _ _ _ _) as [c l].
  set (c' := match c with Continue => _ | _ => c end). clearbody c'.
  destruct c'; try done.
  destruct (latestOrNewResponseStream_is_Some sessionId (provider l) Hhost) as (r & Hr & _).
  destruct (latestOrNewResponseStream _ _ _) as [target p']. simpl in Hr. by subst.
Qed.

(** X17. When the host always opens a response with a non-empty exchange
    id, no error leaves the dispatcher or the driver: whatever the event
    stream holds and however it fails, [reportAgentEventsToChat] and
    [streamResponse] return. An error raised in the loop of the dispatcher
    (thrown by a branch, by the iterator, or the connection failure of a
    stream that ends unstarted) is reported instead: its message followed
    by ". Please try again." and stage "Error" go to the latest stream, or
    if there is none to the one the host opens; the error callback is
    called if there is one, and the streams of [sessionId] are torn down. *)
Theorem errors_stay_inside_when_host_opens_streams
    (sessionId editorUrl token : string) (agentStream : AgentEventStream)
    (authCallbacks : option AuthCallbacks) (errorCallback retried : bool)
    (event : AideAgentRequest) (p : AideAgentSessionProvider) :
  (∀ calls sid, ∃ response,
     initResponse calls sid = Some response ∧ responseExchangeId response ≠ "") →
  let res := reportAgentEventsToChat initResponse sessionId agentStream authCallbacks
               errorCallback p in
  outcome res = Returned ()
  ∧ (streamResponse initResponse sidecar getSession event sessionId editorUrl token
       retried p).1 = Returned ()
  ∧ ∀ c l error,
      dispatchLoop initResponse authCallbacks errorCallback (streamEvents agentStream)
        (runFrom p) = (c, l) →
      c = Throw error
      ∨ (c = Continue ∧ streamFailure agentStream = Some error)
      ∨ (c = Continue ∧ streamFailure agentStream = None ∧ streamStarted l = false
         ∧ error = SidecarConnectionFailedError) →
      ∃ target closes,
        match latestResponseStream (responseStreams (provider l)) with
        | Some latest => target = latest
        | None => initResponse (hostCalls (provider l)) sessionId = Some target
        end
        ∧ effects (after res)
          = effects (provider l) ++ errorReport target error errorCallback ++ closes
        ∧ sessionTornDown sessionId
            (latestOrNewResponseStream initResponse sessionId (provider l)).2
            (after res) closes.
Proof.
  intros Hhost res. split; [by apply reportAgentEventsToChat_returns|]. split.
  - unfold streamResponse, streamResponseWith, streamResponseTry.
    destruct (endpointFor event) as [endpoint|]; [|done].
    rewrite reportAgentEventsToChat_returns by done. done.
  - intros c l error Hloop Hfails. subst res.
    rewrite (reportAgentEventsToChat_caught _ _ _ _ _ _ _ _ Hloop Hfails).
    destruct (latestOrNewResponseStream_is_Some sessionId (provider l) Hhost)
      as (target & Htarget & Hwhich).
    pose proof (latestOrNewResponseStream_effects sessionId (provider l)) as Hsame.
    destruct (latestOrNewResponseStream initResponse sessionId (provider l))
      as [responseStream q].
    cbn [fst snd] in *. subst responseStream. cbn [after].
    destruct (reportCaught_spec sessionId error errorCallback target q)
      as (closes & Heff & Htorn).
    exists target, closes. split; [done|]. split; [|done]. by rewrite Heff, Hsame.
Qed.

(** What the callback asks of the host when a top-level error is for
    unauthorized access. *)
Definition sessionAsked (authCallbacks : option AuthCallbacks) (message : string)
  : list Effect :=
  if isUnauthorizedAccess message then
    match authCallbacks with
    | Some cb => sessionRequest cb
    | None => []
    end
  else [].

(** X18. Wherever it comes in the stream, a top-level error event that is no
    cancellation never makes the dispatcher throw. When its message mentions
    "unauthorized access", [onUnauthorized] is called first. With a latest
    stream, the error goes to it: a fixed explanation when the message ends
    with 'wrong tool output', otherwise the message followed by the request
    to report; then stage "Error", the error callback if there is one, and
    the teardown of the streams of the event's session (each is closed and
    removed). With no latest stream and a host that declines to open one,
    the error is dropped: nothing is sent to any stream and the registry
    stays as it is. [before] is what the loop has gone through before the
    event, and [l] the state it is in. *)
Theorem error_event_is_reported_or_dropped
    (authCallbacks : option AuthCallbacks) (errorCallback : bool)
    (sessionId request_id exchange_id message : string)
    (before rest : list SideCarAgentEvent) (failure : option Exn)
    (p : AideAgentSessionProvider) (l : DispatchState) :
  dispatchLoop initResponse authCallbacks errorCallback before (runFrom p) = (Continue, l) →
  isCancelledByUser message = false →
  let res := reportAgentEventsToChat initResponse sessionId
               {| streamEvents :=
                    before ++ uiEvent request_id exchange_id (ErrorEvent message) :: rest;
                  streamFailure := failure |}
               authCallbacks errorCallback p in
  let asked := sessionAsked authCallbacks message in
  outcome res = Returned ()
  ∧ match latestResponseStream (responseStreams (provider l)) with
    | Some latest =>
        ∃ closes,
          effects (after res)
          = effects (provider l) ++ asked
            ++ [onStream (stream latest)
                  (toolTypeError
                     (if JsString.endsWith "wrong tool output" (JsString.toLowerCase message)
                      then wrongToolOutputMessage
                      else message +:+ reportSuffix));
                onStream (stream latest) (stage "Error")]
            ++ errorCallbackEffect errorCallback ++ closes
          ∧ sessionTornDown request_id (provider l) (after res) closes
    | None =>
        initResponse (hostCalls (provider l) + length asked) request_id = None →
        effects (after res) = effects (provider l) ++ asked
        ∧ responseStreams (after res) = responseStreams (provider l)
    end.
Proof.
  intros Hbefore Hnc res asked. subst res.
  unfold reportAgentEventsToChat. cbn [streamEvents]. fold (runFrom p).
  rewrite (dispatchLoop_app _ _ _ _ _ _ _ Hbefore).
  cbn [dispatchLoop dispatchEvent]. unfold dispatchError. rewrite Hnc.
  set (l1 := if isUnauthorizedAccess message then _ else _).
  assert (effects (provider l1) = effects (provider l) ++ asked
          ∧ responseStreams (provider l1) = responseStreams (provider l)
          ∧ hostCalls (provider l1) = hostCalls (provider l) + length asked)
    as (Heff1 & Hrs1 & Hhost1).
  { subst l1 asked. unfold sessionAsked, sessionRequest.
    destruct (isUnauthorizedAccess message); [|by rewrite app_nil_r, Nat.add_0_r].
    destruct authCallbacks as [[[]]|]; simpl; rewrite ?app_nil_r; try done.
    all: split; [done|]; split; [done|]; lia. }
  clearbody l1. unfold latestOrNewResponseStream. rewrite Hrs1.
  destruct (latestResponseStream (responseStreams (provider l))) as [latest|] eqn:Hlatest.
  - cbn [outcome after provider onProvider]. split; [done|].
    set (p1 := emit (onStream (stream latest) (stage "Error")) _).
    destruct (callErrorCallback_effects errorCallback p1) as [Heff Hrs].
    destruct (closeOpenStreams_tornDown request_id (provider l)
                (callErrorCallback errorCallback p1))
      as (closes & -> & Htorn).
    { rewrite Hrs. subst p1. by destruct (JsString.endsWith _ _). }
    exists closes. split; [|done]. rewrite Heff. subst p1.
    destruct (JsString.endsWith _ _); simpl; rewrite Heff1; by rewrite <- !app_assoc.
  - destruct (createNewResponseStream initResponse request_id (provider l1))
      as [target p'] eqn:Hnew.
    split; [by destruct target|].
    intros Hdecline. revert Hnew.
    unfold createNewResponseStream, newExchangeIdForSession.
    rewrite Hhost1, Hdecline. intros [= <- <-]. cbn [after provider onProvider].
    done.
Qed.

(** ** Thinking text after a question *)

(** X19. A 'question' tool parameter marks the last message complete, which
    evicts the thinking text kept for the exchange: the next [ToolThinking]
    event on the exchange sends its whole text (and a newline), not the part
    beyond the text seen before the question. *)
Theorem thinking_text_resent_after_question
    (authCallbacks : option AuthCallbacks) (errorCallback : bool)
    (sid eid : string) (r : AideAgentEventSenderResponse)
    (question currentText : string) (l : DispatchState) :
  JsMap.get (streamKey sid eid)
    (responseStreamCollection (responseStreams (provider l))) = Some r →
  let asked :=
    (dispatchEvent initResponse authCallbacks errorCallback
       (uiEvent sid eid (FrameworkEv (ToolParameterFound "question" question))) l).2 in
  let after :=
    (dispatchEvent initResponse authCallbacks errorCallback
       (uiEvent sid eid (FrameworkEv (ToolThinking currentText))) asked).2 in
  effects (provider asked)
  = effects (provider l)
    ++ loadingOnce (stream r) (streamKey sid eid) (startedStreams (provider l))
    ++ [onStream (stream r) (markdown (question +:+ String newline ""));
        onStream (stream r) markLastMessageAsComplete]
  ∧ lastThinkingText (provider asked) !! streamKey sid eid = None
  ∧ (currentText ≠ "" →
     effects (provider after)
     = effects (provider asked)
       ++ [onStream (stream r) (markdown (currentText +:+ String newline ""))]).
Proof.
  intros Hget asked after.
  assert (JsMap.get (streamKey sid eid)
            (responseStreamCollection (responseStreams (provider asked))) = Some r
          ∧ streamKey sid eid ∈ startedStreams (provider asked)
          ∧ effects (provider asked)
            = effects (provider l)
              ++ loadingOnce (stream r) (streamKey sid eid) (startedStreams (provider l))
              ++ [onStream (stream r) (markdown (question +:+ String newline ""));
                  onStream (stream r) markLastMessageAsComplete]
          ∧ lastThinkingText (provider asked) !! streamKey sid eid = None)
    as (Hget' & Hstarted & Heff & Hlast).
  { subst asked. cbn [dispatchEvent]. unfold dispatchRouted.
    rewrite (lookupStream_Some _ _ _ _ Hget).
    cbn [onProvider setStreamStarted provider streamStarted unauthorizedCalls
         dispatchFramework snd].
    set (l1 := if bool_decide (_ ∈ _) then _ else _).
    assert (responseStreamCollection (responseStreams (provider l1))
            = responseStreamCollection (responseStreams (provider l))
            ∧ streamKey sid eid ∈ startedStreams (provider l1)
            ∧ effects (provider l1)
              = effects (provider l)
                ++ loadingOnce (stream r) (streamKey sid eid) (startedStreams (provider l)))
      as (Hcoll & Hst & Heff1).
    { subst l1. unfold loadingOnce. simpl. case_bool_decide; simpl.
      - by rewrite app_nil_r.
      - split; [done|]. split; [|done]. apply elem_of_union. left.
        by apply elem_of_singleton. }
    clearbody l1. cbn [provider onProvider].
    unfold dispatchToolParameter. cbn [bool_decide decide_rel orb].
    change (bool_decide ("question" = "fs_file_path")) with false.
    change (bool_decide ("question" = "directory_path")) with false.
    change (bool_decide ("question" = "instruction")) with false.
    change (bool_decide ("question" = "result")) with false.
    change (bool_decide ("question" = "question")) with true.
    cbn [orb]. unfold markLastMessageAsCompleteFor.
    rewrite lookupStream_Some with (r := r) by (simpl; by rewrite Hcoll).
    simpl. rewrite Hcoll, Heff1, lookup_delete_eq, <- !app_assoc. done. }
  split; [done|]. split; [done|]. intros Hne. subst after.
  destruct (dispatch_ToolThinking initResponse authCallbacks errorCallback sid eid r
              currentText asked Hget') as (l3 & -> & _ & _ & _ & Heff3).
  cbn [snd]. rewrite Heff3, Hlast. unfold loadingOnce, thinkingFragment.
  rewrite bool_decide_eq_true_2 by done. simpl.
  unfold JsString.truthy. by rewrite bool_decide_eq_false_2.
Qed.

(** ** The initial stage is sent once per exchange *)

Definition isLoading (e : Effect) : bool :=
  match e with
  | onStream _ (stage message) => bool_decide (message = "Loading...")
  | _ => false
  end.

(** The "Loading..." stages sent so far, and the exchanges marked as
    started. *)
Definition startedView (p : AideAgentSessionProvider) : list Effect * gset string :=
  (List.filter isLoading (effects p), startedStreams p).

Lemma view_emit e p : isLoading e = false → startedView (emit e p) = startedView p.
Proof.
  intros He. unfold startedView. simpl. rewrite List.filter_app. simpl.
  by rewrite He, app_nil_r.
Qed.

Lemma view_emitOn r call p :
  (∀ s, isLoading (onStream s call) = false) →
  startedView (emitOn r call p) = startedView p.
Proof. intros H. destruct r; simpl; [by apply view_emit|done]. Qed.

Lemma view_lookupStream sid eid p : startedView (lookupStream sid eid p).2 = startedView p.
Proof. unfold lookupStream. by destruct (getResponseStream _ _). Qed.

Lemma view_setResponseStreams c p : startedView (setResponseStreams c p) = startedView p.
Proof. done. Qed.

Lemma view_setLastThinkingText m p : startedView (setLastThinkingText m p) = startedView p.
Proof. done. Qed.

Lemma view_callErrorCallback b p : startedView (callErrorCallback b p) = startedView p.
Proof. destruct b; simpl; [by apply view_emit|done]. Qed.

Lemma view_markLastMessageAsCompleteFor sid eid p :
  startedView (markLastMessageAsCompleteFor sid eid p) = startedView p.
Proof.
  unfold markLastMessageAsCompleteFor.
  pose proof (view_lookupStream sid eid p) as H.
  destruct (lookupStream sid eid p) as [r p']. simpl in H.
  rewrite view_setLastThinkingText, view_emitOn; done.
Qed.

Lemma view_closeAndRemoveResponseStream sid eid p :
  startedView (closeAndRemoveResponseStream sid eid p) = startedView p.
Proof.
  unfold closeAndRemoveResponseStream.
  pose proof (view_lookupStream sid eid p) as H.
  destruct (lookupStream sid eid p) as [r p']. simpl in H.
  rewrite view_setLastThinkingText, view_setResponseStreams, view_emitOn; done.
Qed.

Lemma view_closeOpenStreams sid p : startedView (closeOpenStreams sid p) = startedView p.
Proof.
  unfold closeOpenStreams. generalize (getAllResponseStreams (responseStreams p)).
  intros hs. revert p. induction hs as [|h hs IH]; intros p; simpl; [done|].
  by rewrite IH, view_closeAndRemoveResponseStream.
Qed.

Lemma view_latestOrNewResponseStream sid p :
  startedView (latestOrNewResponseStream initResponse sid p).2 = startedView p.
Proof.
  unfold latestOrNewResponseStream, createNewResponseStream, newExchangeIdForSession.
  destruct (latestResponseStream _); [done|].
  destruct (initResponse _ _) as [r|]; simpl; [|done].
  destruct (JsString.truthy _); [|done].
  by rewrite view_lookupStream.
Qed.

Lemma view_dispatchToolThinking sid eid s currentText p :
  startedView (dispatchToolThinking sid eid s currentText p) = startedView p.
Proof.
  unfold dispatchToolThinking. rewrite view_setLastThinkingText.
  destruct (JsString.truthy _); [by apply view_emit|done].
Qed.

Create Rewrite HintDb started.
Hint Rewrite view_lookupStream view_setResponseStreams view_setLastThinkingText
  view_callErrorCallback view_markLastMessageAsCompleteFor
  view_closeAndRemoveResponseStream view_closeOpenStreams
  view_latestOrNewResponseStream view_dispatchToolThinking : started.
Hint Rewrite view_emit using reflexivity : started.
Hint Rewrite view_emitOn using (intros; reflexivity) : started.

Ltac started_frame :=
  repeat (first [ case_bool_decide | case_match ]; try subst);
  cbn [provider onProvider setStreamStarted fst snd];
  autorewrite with started; try done.

Lemma view_dispatchToolParameter sid eid s fieldName content p :
  startedView (dispatchToolParameter sid eid s fieldName content p) = startedView p.
Proof.
  unfold dispatchToolParameter.
  repeat (destruct (bool_decide _); cbn [orb]); autorewrite with started; done.
Qed.

Hint Rewrite view_dispatchToolParameter : started.

Lemma view_callOnUnauthorized authCallbacks l :
  startedView (provider (callOnUnauthorized authCallbacks l)) = startedView (provider l).
Proof.
  destruct authCallbacks as [[[]]|]; cbn [callOnUnauthorized hasRetried provider];
    try done.
  unfold startedView. simpl. rewrite List.filter_app. simpl. by rewrite app_nil_r.
Qed.

Lemma view_dispatchError authCallbacks errorCallback request_id message l :
  startedView (provider
    (dispatchError initResponse authCallbacks errorCallback request_id message l).2)
  = startedView (provider l).
Proof.
  unfold dispatchError.
  destruct (isCancelledByUser message); [started_frame|].
  set (l1 := if isUnauthorizedAccess message
             then callOnUnauthorized authCallbacks l else l).
  assert (startedView (provider l1) = startedView (provider l)) as <-.
  { subst l1. destruct (isUnauthorizedAccess message); [|done].
    apply view_callOnUnauthorized. }
  clearbody l1.
  pose proof (view_latestOrNewResponseStream request_id (provider l1)) as H.
  destruct (latestOrNewResponseStream _ _ _) as [target p'].
  cbn [snd provider onProvider] in *. rewrite <- H.
  destruct target; started_frame.
Qed.

Lemma view_dispatchCancelledState request_id l :
  startedView (provider (dispatchCancelledState request_id l).2)
  = startedView (provider l).
Proof. unfold dispatchCancelledState. started_frame. Qed.

Lemma view_dispatchToolCallError authCallbacks errorCallback sid s error_string l :
  startedView (provider
    (dispatchToolCallError authCallbacks errorCallback sid s error_string l).2)
  = startedView (provider l).
Proof.
  unfold dispatchToolCallError.
  set (l1 := if bool_decide (error_string = "Cancelled Response") then _ else _).
  assert (startedView (provider (onProvider (closeOpenStreams sid) l1))
          = startedView (provider l)) as <-.
  { subst l1. destruct authCallbacks as [[[]]|];
      repeat (destruct (bool_decide _)); started_frame. }
  clearbody l1. cbn [snd].
  destruct (bool_decide (error_string = unauthorizedToolError)); [|done].
  apply view_callOnUnauthorized.
Qed.

Lemma view_dispatchFramework authCallbacks errorCallback sid eid s e l :
  startedView (provider
    (dispatchFramework authCallbacks errorCallback sid eid s e l).2)
  = startedView (provider l).
Proof.
  destruct e as [| | |[[]|]| |]; cbn [dispatchFramework snd];
    try apply view_dispatchToolCallError; started_frame.
Qed.

Lemma view_dispatchSymbolSubStep s symbol_identifier e l :
  startedView (provider (dispatchSymbolSubStep s symbol_identifier e l).2)
  = startedView (provider l).
Proof. unfold dispatchSymbolSubStep. started_frame. Qed.

Lemma view_dispatchPlan r e p : startedView (dispatchPlan r e p) = startedView p.
Proof. unfold dispatchPlan. started_frame. Qed.

Lemma view_dispatchExchange sid eid r e p :
  startedView (dispatchExchange sid eid r e p).2 = startedView p.
Proof. unfold dispatchExchange. started_frame. Qed.

(** The exchange that an event starts, with its stream: the event is routed
    by its ids, to a registered stream, and the key of the exchange is not
    yet among the started ones. *)
Definition starts (event : SideCarAgentEvent) (p : AideAgentSessionProvider)
  : option (string * AideAgentEventSenderResponse) :=
  match event with
  | uiEvent request_id exchange_id event =>
      if routed event then
        match JsMap.get (streamKey request_id exchange_id)
                (responseStreamCollection (responseStreams p)) with
        | Some r =>
            if bool_decide (streamKey request_id exchange_id ∈ startedStreams p)
            then None else Some (streamKey request_id exchange_id, r)
        | None => None
        end
      else None
  | _ => None
  end.

Definition startedViewAfter (started : option (string * AideAgentEventSenderResponse))
    (p : AideAgentSessionProvider) : list Effect * gset string :=
  match started with
  | Some (key, r) =>
      (List.filter isLoading (effects p) ++ [onStream (stream r) (stage "Loading...")],
       {[key]} ∪ startedStreams p)
  | None => startedView p
  end.

Lemma view_dispatchRouted authCallbacks errorCallback sid eid event l :
  routed event = true →
  startedView (provider (dispatchRouted authCallbacks errorCallback sid eid event l).2)
  = startedViewAfter (starts (uiEvent sid eid event) (provider l)) (provider l).
Proof.
  intros Hrouted. cbn [starts]. rewrite Hrouted. unfold dispatchRouted.
  destruct (JsMap.get (streamKey sid eid)
              (responseStreamCollection (responseStreams (provider l)))) as [r|] eqn:Hget.
  - rewrite (lookupStream_Some _ _ _ _ Hget).
    cbn [onProvider setStreamStarted provider streamStarted unauthorizedCalls
         startedStreams setResponseStreams].
    set (l1 := if bool_decide (_ ∈ _) then _ else _).
    assert (startedView (provider l1)
            = startedViewAfter
                (if bool_decide (streamKey sid eid ∈ startedStreams (provider l))
                 then None else Some (streamKey sid eid, r)) (provider l)) as <-.
    { subst l1. case_bool_decide; [done|]. unfold startedView. simpl.
      rewrite List.filter_app. done. }
    clearbody l1.
    destruct event; try done.
    + apply view_dispatchFramework.
    + apply view_dispatchSymbolSubStep.
    + pose proof (view_lookupStream sid eid (provider l1)) as H.
      destruct (lookupStream sid eid (provider l1)) as [r' p']; cbn [snd] in *.
      cbn [provider onProvider]. destruct delta; [|done].
      rewrite view_emitOn; done.
    + pose proof (view_lookupStream sid eid (provider l1)) as H.
      destruct (lookupStream sid eid (provider l1)) as [r' p']; cbn [snd] in *.
      cbn [provider onProvider]. by rewrite view_dispatchPlan.
    + pose proof (view_lookupStream sid eid (provider l1)) as H.
      destruct (lookupStream sid eid (provider l1)) as [r' p']; cbn [snd] in *.
      pose proof (view_dispatchExchange sid eid r' e p') as H'.
      destruct (dispatchExchange sid eid r' e p') as [c p'']; cbn [snd] in *.
      cbn [provider onProvider]. congruence.
  - rewrite (lookupStream_None _ _ _ Hget). by rewrite onProvider_same.
Qed.

Lemma view_dispatchEvent authCallbacks errorCallback event l :
  startedView (provider (dispatchEvent initResponse authCallbacks errorCallback event l).2)
  = startedViewAfter (starts event (provider l)) (provider l).
Proof.
  destruct event as [|started| |request_id exchange_id event]; try done.
  - by destruct started.
  - destruct (routed event) eqn:Hrouted.
    + rewrite dispatchEvent_routed by done. by apply view_dispatchRouted.
    + cbn [starts]. rewrite Hrouted. cbn [startedViewAfter].
      destruct event as [| | | | | | | |[]]; try done.
      * apply view_dispatchError.
      * cbn [routed] in Hrouted. apply negb_false_iff in Hrouted.
        cbn [dispatchEvent]. rewrite Hrouted. apply view_dispatchCancelledState.
Qed.

(** X20. In every state of the loop and for every event: stage "Loading..."
    is sent exactly when the event is routed by its ids to a registered
    stream and the key of its exchange is not yet in [startedStreams]; then
    it is sent once, to that stream, and the key is added. In every other
    case (the exchange is already marked, it has no registered stream, or
    the event is not routed by its ids) no "Loading..." stage is sent and
    [startedStreams] stays as it is. *)
Theorem loading_stage_once_per_exchange
    (authCallbacks : option AuthCallbacks) (errorCallback : bool)
    (event : SideCarAgentEvent) (l : DispatchState) :
  let step := dispatchEvent initResponse authCallbacks errorCallback event l in
  match starts event (provider l) with
  | Some (key, r) =>
      List.filter isLoading (effects (provider step.2))
      = List.filter isLoading (effects (provider l))
        ++ [onStream (stream r) (stage "Loading...")]
      ∧ startedStreams (provider step.2) = {[key]} ∪ startedStreams (provider l)
      ∧ (key ∉ startedStreams (provider l))
      ∧ starts event (provider step.2) = None
  | None =>
      List.filter isLoading (effects (provider step.2))
      = List.filter isLoading (effects (provider l))
      ∧ startedStreams (provider step.2) = startedStreams (provider l)
  end.
Proof.
  intros step.
  pose proof (view_dispatchEvent authCallbacks errorCallback event l) as Hview.
  fold step in Hview.
  destruct (starts event (provider l)) as [[key r]|] eqn:Hstarts;
    cbn [startedViewAfter] in Hview; injection Hview as Hf Hs; [|done].
  split; [done|]. split; [done|].
  destruct event as [| | |request_id exchange_id event]; try done.
  cbn [starts] in Hstarts |- *.
  destruct (routed event); [|done].
  destruct (JsMap.get _ _) as [r0|]; [|done].
  case_bool_decide as Hin; [done|]. injection Hstarts as <- <-.
  split; [done|]. rewrite Hs.
  destruct (JsMap.get _ _); [|done].
  rewrite bool_decide_eq_true_2; [done|]. apply elem_of_union. left.
  by apply elem_of_singleton.
Qed.

(** ** The streamed edit handler *)

(** The condition under which [provideEditStreamed] goes past its first
    [return]. *)
Definition editAccepted (request : EditedCodeStreamingRequest)
    (p : AideAgentSessionProvider) : Prop :=
  esr_apply_directly request = true
  ∨ is_Some (openResponseStream p)
  ∨ is_Some (JsMap.get (streamKey (esr_session_id request) (esr_exchange_id request))
               (responseStreamCollection (responseStreams p))).

Lemma editAccepted_gate request p :
  editAccepted request p →
  negb (esr_apply_directly request)
  && negb (bool_decide (is_Some (openResponseStream p)))
  && negb (bool_decide (is_Some
       (getResponseStream {| sessionId := esr_session_id request;
                             exchangeId := esr_exchange_id request |}
          (responseStreams p)).1)) = false.
Proof.
  rewrite getResponseStream_fst.
  change (getKey _) with (streamKey (esr_session_id request) (esr_exchange_id request)).
  intros [->|[H|H]]; [done| |].
  - rewrite (bool_decide_eq_true_2 _ H). by rewrite andb_false_r.
  - rewrite (bool_decide_eq_true_2 _ H). by rewrite andb_false_r.
Qed.

(** X21. A streamed-edit request that is not flagged [apply_directly], made
    while no turn-scoped stream is open and no stream is registered for its
    exchange, is refused whatever its event is: the answer is
    [success = false] with an empty path, and the provider is left exactly
    as it was. *)
Theorem provideEditStreamed_refused (request : EditedCodeStreamingRequest)
    (p : AideAgentSessionProvider) :
  esr_apply_directly request = false →
  openResponseStream p = None →
  JsMap.get (streamKey (esr_session_id request) (esr_exchange_id request))
    (responseStreamCollection (responseStreams p)) = None →
  provideEditStreamed createFileIfNotExists request p = (Returned editFailed, p).
Proof.
  intros Hd Ho Hget. unfold provideEditStreamed.
  rewrite (lookupStream_None _ _ _ Hget), Hd, Ho. done.
Qed.

(** X22. [Start] on an accepted request creates the edit session only if the
    file can be opened or created. If it cannot, an error message is shown,
    the answer is [success = false] and the sessions are left as they were.
    Otherwise the session stored for the request id is a fresh one, with an
    empty line accumulator, the lines of the document (a created file has
    the single empty line) and the edit id made of the exchange id and the
    plan step; a session already stored under the id is replaced. *)
Theorem provideEditStreamed_Start (request : EditedCodeStreamingRequest)
    (p : AideAgentSessionProvider) :
  esr_event request = Start →
  editAccepted request p →
  let result := provideEditStreamed createFileIfNotExists request p in
  let fileDocument := esr_fs_file_path request in
  let opened :=
    match documents p !! fileDocument with
    | Some text => Some text
    | None => if createFileIfNotExists (hostCalls p) fileDocument then Some "" else None
    end in
  match opened with
  | None =>
      result.1 = Returned editFailed
      ∧ editsMap result.2 = editsMap p
      ∧ effects result.2
        = effects p
          ++ [showErrorMessage ("File creation at " +:+ fileDocument
                                 +:+ " failed, please tell the devs!")]
  | Some text =>
      result.1 = Returned editDone
      ∧ (∃ manager,
           editsMap result.2 = <[edit_request_id request := manager]> (editsMap p)
           ∧ answerSplitter manager = newAnswerSplitter
           ∧ sp_documentLines (streamProcessor manager) = splitLines "" text
           ∧ sp_uri (streamProcessor manager) = fileDocument
           ∧ sp_uniqueEditId (streamProcessor manager) = uniqueEditIdOf request)
      ∧ documents result.2 !! fileDocument = Some text
  end.
Proof.
  intros Hev Hacc. simpl. unfold provideEditStreamed, lookupStream.
  pose proof (editAccepted_gate _ _ Hacc) as Hgate.
  destruct (getResponseStream _ (responseStreams p)) as [r c]. simpl in *.
  rewrite Hgate, Hev. unfold openOrCreateDocument. simpl.
  destruct (documents p !! esr_fs_file_path request) as [text|] eqn:Hdoc; simpl.
  - split; [done|]. split; [|done]. eexists. split; [reflexivity|done].
  - destruct (createFileIfNotExists (hostCalls p) (esr_fs_file_path request)); simpl.
    + split; [done|]. split; [|by rewrite lookup_insert_eq].
      eexists. split; [reflexivity|done].
    + done.
Qed.

Definition isProcessLine (uniqueEditId uri : string) (e : Effect) : Prop :=
  ∃ currentLine, e = processLine uniqueEditId uri currentLine.

Lemma drainLoop_effects fuel m p :
  let result := drainLoop fuel m p in
  streamProcessor result.1 = streamProcessor m
  ∧ ∃ processed,
      effects result.2 = effects p ++ processed
      ∧ Forall (isProcessLine (sp_uniqueEditId (streamProcessor m))
                  (sp_uri (streamProcessor m))) processed.
Proof.
  revert m p. induction fuel as [|fuel IH]; intros m p; simpl.
  - split; [done|]. exists []. by rewrite app_nil_r.
  - destruct (getLine (answerSplitter m)) as [[currentLine a]|]; simpl.
    + destruct (IH {| answerSplitter := a; streamProcessor := streamProcessor m |}
                  (emit (processLine (sp_uniqueEditId (streamProcessor m))
                           (sp_uri (streamProcessor m)) currentLine) p))
        as (Hsp & processed & Heff & Hall). simpl in *.
      split; [done|]. eexists. rewrite Heff, <- app_assoc. split; [done|].
      apply Forall_cons. split; [by eexists|done].
    + split; [done|]. exists []. by rewrite app_nil_r.
Qed.

(** X23. [End] on an accepted request whose session exists hands lines to
    the session's line processor and nothing else, then runs its [cleanup]
    and saves the file, in that order; the session is deleted and the edit
    counter goes up by one. *)
Theorem provideEditStreamed_End (request : EditedCodeStreamingRequest)
    (manager : EditsManager) (p : AideAgentSessionProvider) :
  esr_event request = End_ →
  editAccepted request p →
  editsMap p !! edit_request_id request = Some manager →
  let result := provideEditStreamed createFileIfNotExists request p in
  let uniqueEditId := sp_uniqueEditId (streamProcessor manager) in
  let uri := sp_uri (streamProcessor manager) in
  result.1 = Returned editDone
  ∧ editsMap result.2 = delete (edit_request_id request) (editsMap p)
  ∧ editCounter result.2 = editCounter p + 1
  ∧ ∃ processed,
      effects result.2
      = effects p ++ processed
        ++ [cleanup uniqueEditId uri; workspaceSave (esr_fs_file_path request)]
      ∧ Forall (isProcessLine uniqueEditId uri) processed.
Proof.
  intros Hev Hacc Hm. simpl. unfold provideEditStreamed, lookupStream.
  pose proof (editAccepted_gate _ _ Hacc) as Hgate.
  destruct (getResponseStream _ (responseStreams p)) as [r c]. simpl in *.
  rewrite Hgate, Hev. simpl. rewrite Hm. unfold drain.
  set (p0 := setResponseStreams c p).
  pose proof (drainLoop_frame (S (length (completedLines (answerSplitter manager))))
                manager p0) as (_ & _ & Hmap & Hcnt).
  pose proof (drainLoop_effects (S (length (completedLines (answerSplitter manager))))
                manager p0) as (Hsp & processed & Heff & Hall).
  destruct (drainLoop _ manager p0) as [m' p']. simpl in *.
  rewrite Hsp, Hmap, Hcnt, Heff. repeat split; try done.
  exists processed. by rewrite <- !app_assoc.
Qed.

(** X24. A [Delta] with an empty fragment does nothing to the edit sessions:
    whether or not a session exists, nothing is handed to a line processor,
    no effect is produced, and the sessions, the counter and the documents
    are those of before. *)
Theorem provideEditStreamed_empty_Delta (request : EditedCodeStreamingRequest)
    (p : AideAgentSessionProvider) :
  esr_event request = Delta "" →
  let result := provideEditStreamed createFileIfNotExists request p in
  (result.1 = Returned editDone ∨ result.1 = Returned editFailed)
  ∧ result.2
    = (lookupStream (esr_session_id request) (esr_exchange_id request) p).2
  ∧ editsMap result.2 = editsMap p
  ∧ effects result.2 = effects p
  ∧ editCounter result.2 = editCounter p.
Proof.
  intros Hev. simpl. unfold provideEditStreamed, lookupStream.
  destruct (getResponseStream _ (responseStreams p)) as [r c]. simpl.
  rewrite Hev. destruct (_ && _); simpl; auto 10.
Qed.

(** ** Taking events in ([handleEvent]) *)




(** ** Document lines *)

Fixpoint hasChar (c : ascii) (s : string) : bool :=
  match s with
  | EmptyString => false
  | String a s' => bool_decide (a = c) || hasChar c s'
  end.

Definition noTerminator (s : string) : Prop :=
  hasChar carriageReturn s = false ∧ hasChar newline s = false.

Lemma hasChar_app c s t : hasChar c (s +:+ t) = hasChar c s || hasChar c t.
Proof.
  induction s as [|a s IH]; [done|].
  change (hasChar c (String a (s +:+ t)) = hasChar c (String a s) || hasChar c t).
  simpl. by rewrite IH, orb_assoc.
Qed.

Lemma noTerminator_snoc cur c :
  noTerminator cur → c ≠ carriageReturn → c ≠ newline →
  noTerminator (cur +:+ String c "").
Proof.
  intros [Hr Hn] Hcr Hcn. unfold noTerminator. rewrite !hasChar_app, Hr, Hn. simpl.
  by rewrite !bool_decide_eq_false_2.
Qed.

Lemma app_snoc_cons cur c rest : (cur +:+ String c "") +:+ rest = cur +:+ String c rest.
Proof.
  induction cur as [|a cur IH]; [done|].
  change (String a ((cur +:+ String c "") +:+ rest) = String a (cur +:+ String c rest)).
  by rewrite IH.
Qed.

Lemma app_empty_r cur : cur +:+ "" = cur.
Proof.
  induction cur as [|a cur IH]; [done|].
  change (String a (cur +:+ "") = String a cur). by rewrite IH.
Qed.

Lemma splitLines_noTerminator_bounded n text cur :
  String.length text ≤ n → noTerminator cur →
  Forall noTerminator (splitLines cur text).
Proof.
  revert text cur. induction n as [|n IH]; intros text cur Hlen Hcur.
  - destruct text; [|simpl in Hlen; lia]. simpl. by apply Forall_singleton.
  - destruct text as [|c rest]; simpl; [by apply Forall_singleton|].
    simpl in Hlen.
    assert (noTerminator "") as Hempty by done.
    destruct (decide (c = carriageReturn)).
    + destruct rest as [|c' rest'].
      * apply Forall_cons. split; [done|]. apply IH; [simpl; lia|done].
      * destruct (decide (c' = newline)); apply Forall_cons; (split; [done|]);
          apply IH; simpl in *; (lia || done).
    + destruct (decide (c = newline)).
      * apply Forall_cons. split; [done|]. apply IH; [lia|done].
      * apply IH; [lia|]. by apply noTerminator_snoc.
Qed.

(** X26. The document lines that [Start] computes, the split of the text at
    every "\r\n", "\r" and "\n", hold no line terminator; and a text without
    any terminator is a single line, the text itself. *)
Theorem splitLines_lines (text : string) :
  Forall noTerminator (splitLines "" text)
  ∧ (noTerminator text → splitLines "" text = [text]).
Proof.
  split.
  - by apply (splitLines_noTerminator_bounded (String.length text)).
  - assert (∀ cur, noTerminator text → splitLines cur text = [cur +:+ text]) as H.
    { induction text as [|c rest IH]; intros cur [Hr Hn]; simpl.
      - by rewrite app_empty_r.
      - simpl in Hr, Hn.
        apply orb_false_elim in Hr as [Hr1%bool_decide_eq_false Hr2].
        apply orb_false_elim in Hn as [Hn1%bool_decide_eq_false Hn2].
        rewrite !decide_False by done.
        rewrite IH by done. by rewrite app_snoc_cons. }
    intros Hno. by rewrite H.
Qed.

(** ** Port selection: the last port *)

(** X27. The scan never reaches port 65535: started at or above it the
    answer is [null] without any probe, and the answer does not depend on
    which ports from 65535 on are free. *)
Theorem getNextOpenPort_stops_before_65535 (isPortOpen isPortOpen' : Z → bool)
    (startFrom : Z) :
  ((65535 ≤ startFrom)%Z → getNextOpenPort isPortOpen startFrom = None)
  ∧ ((∀ port, (port < 65535)%Z → isPortOpen port = isPortOpen' port) →
     getNextOpenPort isPortOpen startFrom = getNextOpenPort isPortOpen' startFrom).
Proof.
  split.
  - intros Hge. destruct (getNextOpenPort isPortOpen startFrom) as [port|] eqn:H; [|done].
    apply getNextOpenPort_Some in H as [? _]. lia.
  - intros Hagree.
    destruct (getNextOpenPort isPortOpen startFrom) as [port|] eqn:H;
      destruct (getNextOpenPort isPortOpen' startFrom) as [port'|] eqn:H'; try done.
    + apply getNextOpenPort_Some in H as (Hr & Ho & Hb).
      apply getNextOpenPort_Some in H' as (Hr' & Ho' & Hb').
      f_equal. destruct (Z.lt_trichotomy port port') as [Hlt|[->|Hlt]]; [|done|].
      * pose proof (Hb' port ltac:(lia)) as Hbusy.
        rewrite <- Hagree in Hbusy by lia. congruence.
      * pose proof (Hb port' ltac:(lia)) as Hbusy.
        rewrite Hagree in Hbusy by lia. congruence.
    + apply getNextOpenPort_Some in H as (Hr & Ho & Hb).
      pose proof (getNextOpenPort_None _ _ H' port ltac:(lia)) as Hbusy.
      rewrite <- Hagree in Hbusy by lia. congruence.
    + apply getNextOpenPort_Some in H' as (Hr & Ho & Hb).
      pose proof (getNextOpenPort_None _ _ H port' ltac:(lia)) as Hbusy.
      rewrite Hagree in Hbusy by lia. congruence.
Qed.

End ProviderMore.

(** ** More scenarios *)

Module DetectIndentScenarios.
Import DetectIndent.

(** The text "a", newline, two spaces and "b". *)
Definition indentedText : string := String "a" (String newline "  b").

Lemma makeIndentsMap_keys_witness :
  (Some "s2", (1, 0)) ∈ makeIndentsMap indentedText true ∧ 1 ≤ 1.
Proof.
  assert ((Some "s2", (1, 0)) ∈ makeIndentsMap indentedText true) as Hin.
  { vm_compute. left. }
  split; [exact Hin|].
  exact (proj1 (makeIndentsMap_keys indentedText true (Some "s2") 1 0 Hin)).
Defined.

Lemma detectIndent_type_occurs_witness :
  type (detectIndent indentedText) = Some "space"
  ∧ ∃ line rest,
      line ∈ splitNewline "" indentedText
      ∧ (("space" = INDENT_TYPE_SPACE ∧ line = String space rest)
         ∨ ("space" = INDENT_TYPE_TAB ∧ line = String tab rest)).
Proof.
  split; [reflexivity|].
  apply (detectIndent_type_occurs indentedText "space"). reflexivity.
Defined.

End DetectIndentScenarios.

Lemma registry_absent_key_witness :
  let k := {| sessionId := "s1"; exchangeId := "e1" |} in
  JsMap.get (getKey k) (responseStreamCollection emptyCollection) = None
  ∧ removeResponseStream k emptyCollection = emptyCollection.
Proof.
  split; [reflexivity|].
  apply (registry_absent_key {| sessionId := "s1"; exchangeId := "e1" |} emptyCollection).
  reflexivity.
Defined.

Lemma latest_reference_is_registered_witness :
  let k := {| sessionId := "s1"; exchangeId := "e1" |} in
  let c := (getResponseStream k (addResponseStream k streamOne emptyCollection)).2 in
  reachable c
  ∧ (getAllResponseStreams (removeResponseStream k c) = [] →
     latestResponseStream (removeResponseStream k c) = None).
Proof.
  intros k c.
  assert (reachable c) as Hreach.
  { exact (reachable_get k _ (reachable_add k streamOne _ reachable_new)). }
  split; [exact Hreach|].
  exact (proj2 (latest_reference_is_registered (removeResponseStream k c)
                  (reachable_remove k c Hreach))).
Defined.

Lemma unregistered_exchange_event_skipped_witness :
  routed (ChatEvent (Some "hello")) = true
  ∧ JsMap.get (streamKey "s9" "e9")
      (responseStreamCollection (responseStreams (provider freshRun))) = None
  ∧ dispatchEvent noResponse None false (uiEvent "s9" "e9" (ChatEvent (Some "hello")))
      freshRun = (Continue, freshRun).
Proof.
  split; [reflexivity|]. split; [reflexivity|].
  apply (unregistered_exchange_event_skipped noResponse None false "s9" "e9"
           (ChatEvent (Some "hello")) freshRun); reflexivity.
Defined.

Definition completionEvent : SideCarAgentEvent :=
  uiEvent "s1" "e1" (FrameworkEv (ToolUseDetected (Some AttemptCompletion))).

Lemma attempt_completion_teardown_witness :
  let l := (dispatchLoop noResponse None false cancelledLater (runFrom oneSession)).2 in
  dispatchLoop noResponse None false cancelledLater (runFrom oneSession) = (Continue, l)
  ∧ JsMap.get (streamKey "s1" "e1")
      (responseStreamCollection (responseStreams (provider l))) = Some streamOne
  ∧ outcome (reportAgentEventsToChat noResponse "s1"
               {| streamEvents := cancelledLater ++ [completionEvent];
                  streamFailure := None |} None false oneSession)
    = Returned ().
Proof.
  intros l.
  assert (dispatchLoop noResponse None false cancelledLater (runFrom oneSession)
          = (Continue, l)) as Hbefore by (vm_compute; reflexivity).
  assert (JsMap.get (streamKey "s1" "e1")
            (responseStreamCollection (responseStreams (provider l))) = Some streamOne)
    as Hget by (vm_compute; reflexivity).
  split; [exact Hbefore|]. split; [exact Hget|].
  exact (proj1 (attempt_completion_teardown noResponse None false "s1" "s1" "e1" streamOne
                  cancelledLater [] None oneSession l Hbefore Hget)).
Defined.

(** After an event of the exchange has been handled, the stream reports
    that it did not start. *)
Lemma unstarted_stream_is_connection_failure_witness :
  let l := (dispatchLoop noResponse None false cancelledLater (runFrom oneSession)).2 in
  dispatchLoop noResponse None false cancelledLater (runFrom oneSession) = (Continue, l)
  ∧ Forall (λ e, ignorable e = true) [keep_alive; doneEvent]
  ∧ latestResponseStream (responseStreams (provider l)) = Some streamOne
  ∧ outcome (reportAgentEventsToChat noResponse "s1"
               {| streamEvents :=
                    cancelledLater ++ [keep_alive; doneEvent] ++ [sessionStart false];
                  streamFailure := None |} None false oneSession)
    = Returned ().
Proof.
  intros l.
  assert (dispatchLoop noResponse None false cancelledLater (runFrom oneSession)
          = (Continue, l)) as Hbefore by (vm_compute; reflexivity).
  assert (Forall (λ e, ignorable e = true) [keep_alive; doneEvent]) as Hidle.
  { repeat constructor. }
  assert (latestResponseStream (responseStreams (provider l)) = Some streamOne) as Hlatest
    by (vm_compute; reflexivity).
  split; [exact Hbefore|]. split; [exact Hidle|]. split; [exact Hlatest|].
  pose proof (unstarted_stream_is_connection_failure noResponse None false "s1"
                cancelledLater [keep_alive; doneEvent] [sessionStart false] oneSession l
                Hbefore Hidle (or_intror (ex_intro _ [] eq_refl))) as H.
  cbv zeta in H. rewrite Hlatest in H. exact (proj1 H).
Defined.

(** A host that always opens the same response. *)
Definition openingHost : nat → string → option AideAgentEventSenderResponse :=
  λ _ _, Some streamOne.

Lemma errors_stay_inside_when_host_opens_streams_witness :
  (∀ calls sid, ∃ response,
     openingHost calls sid = Some response ∧ responseExchangeId response ≠ "")
  ∧ outcome (reportAgentEventsToChat openingHost "s1"
               {| streamEvents := []; streamFailure := Some (Error "socket hang up") |}
               None false (newProvider ∅)) = Returned ().
Proof.
  assert (∀ calls sid : _, ∃ response,
            openingHost calls sid = Some response ∧ responseExchangeId response ≠ "")
    as Hhost.
  { intros calls sid. exists streamOne. split; [reflexivity|discriminate]. }
  split; [exact Hhost|].
  exact (proj1 (errors_stay_inside_when_host_opens_streams openingHost rejectingSidecar
                  sessions "s1" "http://localhost:42427" "stale-token"
                  {| streamEvents := []; streamFailure := Some (Error "socket hang up") |}
                  None false false chatRequest (newProvider ∅) Hhost)).
Defined.

Lemma error_event_is_reported_or_dropped_witness :
  let l := (dispatchLoop noResponse None false cancelledLater (runFrom oneSession)).2 in
  dispatchLoop noResponse None false cancelledLater (runFrom oneSession) = (Continue, l)
  ∧ isCancelledByUser "Rate limited" = false
  ∧ outcome (reportAgentEventsToChat noResponse "s1"
               {| streamEvents :=
                    cancelledLater ++ [uiEvent "s1" "e1" (ErrorEvent "Rate limited")];
                  streamFailure := None |} None false oneSession) = Returned ().
Proof.
  intros l.
  assert (dispatchLoop noResponse None false cancelledLater (runFrom oneSession)
          = (Continue, l)) as Hbefore by (vm_compute; reflexivity).
  split; [exact Hbefore|]. split; [reflexivity|].
  exact (proj1 (error_event_is_reported_or_dropped noResponse None false "s1" "s1" "e1"
                  "Rate limited" cancelledLater [] None oneSession l Hbefore eq_refl)).
Defined.

Lemma thinking_text_resent_after_question_witness :
  JsMap.get (streamKey "s1" "e1")
    (responseStreamCollection (responseStreams (provider freshRun))) = Some streamOne
  ∧ lastThinkingText
      (provider
         (dispatchEvent noResponse None false
            (uiEvent "s1" "e1" (FrameworkEv (ToolParameterFound "question" "Which file?")))
            freshRun).2) !! streamKey "s1" "e1" = None.
Proof.
  split; [reflexivity|].
  apply (thinking_text_resent_after_question noResponse None false "s1" "e1" streamOne
           "Which file?" "abc" freshRun).
  reflexivity.
Defined.

Definition streamedRequest (e : EditStreamEvent) : EditedCodeStreamingRequest :=
  {| edit_request_id := "edit-2"; esr_session_id := "s1"; esr_exchange_id := "e1";
     plan_step_id := Some "3"; esr_fs_file_path := "/a.ts"; esr_range := originRange;
     esr_apply_directly := false; esr_event := e |}.

Lemma provideEditStreamed_refused_witness :
  esr_apply_directly (streamedRequest Start) = false
  ∧ openResponseStream (newProvider ∅) = None
  ∧ JsMap.get (streamKey "s1" "e1")
      (responseStreamCollection (responseStreams (newProvider ∅))) = None
  ∧ provideEditStreamed creationSucceeds (streamedRequest Start) (newProvider ∅)
    = (Returned editFailed, newProvider ∅).
Proof.
  split; [reflexivity|]. split; [reflexivity|]. split; [reflexivity|].
  apply (provideEditStreamed_refused creationSucceeds (streamedRequest Start)
           (newProvider ∅)); reflexivity.
Defined.

Lemma provideEditStreamed_Start_witness :
  esr_event (streamedRequest Start) = Start
  ∧ editAccepted (streamedRequest Start) oneSession
  ∧ (provideEditStreamed creationSucceeds (streamedRequest Start) oneSession).1
    = Returned editDone.
Proof.
  assert (editAccepted (streamedRequest Start) oneSession) as Hacc.
  { right. right. exists streamOne. reflexivity. }
  split; [reflexivity|]. split; [exact Hacc|].
  exact (proj1 (provideEditStreamed_Start creationSucceeds (streamedRequest Start)
                  oneSession eq_refl Hacc)).
Defined.

Definition startedManager : EditsManager :=
  {| answerSplitter := newAnswerSplitter;
     streamProcessor :=
       {| sp_stream := None; sp_documentLines := ["x"]; sp_uri := "/a.ts";
          sp_range := originRange; sp_applyDirectly := true;
          sp_uniqueEditId := "e1" |} |}.

Lemma provideEditStreamed_End_witness :
  esr_event (editRequest End_) = End_
  ∧ editAccepted (editRequest End_) editStarted
  ∧ editsMap editStarted !! edit_request_id (editRequest End_) = Some startedManager
  ∧ editCounter (provideEditStreamed creationSucceeds (editRequest End_) editStarted).2
    = editCounter editStarted + 1.
Proof.
  assert (editAccepted (editRequest End_) editStarted) as Hacc by (left; reflexivity).
  assert (editsMap editStarted !! edit_request_id (editRequest End_) = Some startedManager)
    as Hm by (vm_compute; reflexivity).
  split; [reflexivity|]. split; [exact Hacc|]. split; [exact Hm|].
  exact (proj1 (proj2 (proj2 (provideEditStreamed_End creationSucceeds (editRequest End_)
                                startedManager editStarted eq_refl Hacc Hm)))).
Defined.

Lemma provideEditStreamed_empty_Delta_witness :
  esr_event (editRequest (Delta "")) = Delta ""
  ∧ effects (provideEditStreamed creationSucceeds (editRequest (Delta "")) editStarted).2
    = effects editStarted.
Proof.
  split; [reflexivity|].
  exact (proj1 (proj2 (proj2 (proj2
           (provideEditStreamed_empty_Delta creationSucceeds (editRequest (Delta ""))
              editStarted eq_refl))))).
Defined.


